(** * zippy: the virtual archive browser of [main.cpp]

    A shallow embedding of the archive tree model ([ArchiveItem],
    [ArchiveModel::populateFromList], [MainWindow::collectPathsRecursively]),
    of the command line backend ([CliArchiveHandler]), of the manifest
    loader ([loadMetadata]) and of the password and navigation flows of
    [MainWindow], followed by the properties of the design document that
    were checked against them. *)

From Stdlib Require Import ZArith Ascii String List Bool Lia.
From stdpp Require Import base option list gmap strings.

Open Scope string_scope.

(* ===================================================================== *)
(** * QString operations used by the program *)
(* ===================================================================== *)

(** A [QString] is modelled as a [string]; Qt's UTF-16 code units are
    narrowed to bytes, and case-insensitive comparison folds the ASCII
    letters only. *)
Module QString.

Definition isEmpty (s : string) : bool :=
  match s with EmptyString => true | String _ _ => false end.

(** [s.startsWith(p)]. *)
Fixpoint startsWith (s p : string) : bool :=
  match p, s with
  | EmptyString, _ => true
  | String _ _, EmptyString => false
  | String b p', String a s' => Ascii.eqb a b && startsWith s' p'
  end.

(** [s.mid(n)]: the string without its first [n] characters. *)
Fixpoint mid (s : string) (n : nat) : string :=
  match n, s with
  | O, _ => s
  | S _, EmptyString => EmptyString
  | S n', String _ s' => mid s' n'
  end.

Fixpoint rev_onto (s acc : string) : string :=
  match s with
  | EmptyString => acc
  | String a s' => rev_onto s' (String a acc)
  end.

Definition reversed (s : string) : string := rev_onto s EmptyString.

(** [s.endsWith(suffix)], case-sensitive. *)
Definition endsWith (s suffix : string) : bool :=
  startsWith (reversed s) (reversed suffix).

Definition toLowerChar (a : ascii) : ascii :=
  let n := nat_of_ascii a in
  if (65 <=? n)%nat && (n <=? 90)%nat then ascii_of_nat (n + 32) else a.

Fixpoint toLower (s : string) : string :=
  match s with
  | EmptyString => EmptyString
  | String a s' => String (toLowerChar a) (toLower s')
  end.

(** [s.endsWith(suffix, Qt::CaseInsensitive)]. *)
Definition endsWith_ci (s suffix : string) : bool :=
  endsWith (toLower s) (toLower suffix).

(** [s.split(sep, QString::SkipEmptyParts)]; [cur] is the segment being
    read, in reverse. *)
Fixpoint split_from (sep : ascii) (s cur : string) : list string :=
  match s with
  | EmptyString => if isEmpty cur then [] else [reversed cur]
  | String a s' =>
      if Ascii.eqb a sep
      then (if isEmpty cur then split_from sep s' EmptyString
            else reversed cur :: split_from sep s' EmptyString)
      else split_from sep s' (String a cur)
  end.

Definition split (sep : ascii) (s : string) : list string :=
  split_from sep s EmptyString.

(** [l.join(sep)] of a [QStringList]. *)
Fixpoint join (sep : string) (l : list string) : string :=
  match l with
  | [] => EmptyString
  | [x] => x
  | x :: rest => x ++ sep ++ join sep rest
  end.

(** White space among the characters of ASCII: the space and the
    controls 9 to 13. *)
Definition is_space (a : ascii) : bool :=
  let n := nat_of_ascii a in
  (n =? 32)%nat || ((9 <=? n)%nat && (n <=? 13)%nat).

Fixpoint trim_left (s : string) : string :=
  match s with
  | EmptyString => EmptyString
  | String a s' => if is_space a then trim_left s' else s
  end.

(** [s.trimmed()]. *)
Definition trimmed (s : string) : string :=
  reversed (trim_left (reversed (trim_left s))).

(** A piece of a format string: a character, or a place marker [%n],
    [%nn], [%Ln] or [%Lnn] with the text it is written as. *)
Inductive Piece : Type :=
| Plain (c : ascii)
| Marker (number : nat) (text : string).

Definition digitValue (c : ascii) : option nat :=
  let n := nat_of_ascii c in
  if (48 <=? n)%nat && (n <=? 57)%nat then Some (n - 48)%nat else None.

(** The place markers of a format string as Qt 5 finds them: a percent
    sign, an optional [L], and one or two digits. *)
Fixpoint pieces (s : string) : list Piece :=
  match s with
  | EmptyString => []
  | String c s1 =>
      if Ascii.eqb c "%" then
        match s1 with
        | EmptyString => [Plain c]
        | String d s2 =>
            if Ascii.eqb d "L" then
              match s2 with
              | EmptyString => [Plain c; Plain d]
              | String e s3 =>
                  match digitValue e with
                  | None => Plain c :: Plain d :: pieces s2
                  | Some n =>
                      match s3 with
                      | EmptyString =>
                          [Marker n (String c (String d (String e EmptyString)))]
                      | String f s4 =>
                          match digitValue f with
                          | Some m =>
                              Marker (10 * n + m)
                                (String c (String d (String e (String f EmptyString))))
                              :: pieces s4
                          | None =>
                              Marker n (String c (String d (String e EmptyString)))
                              :: pieces s3
                          end
                      end
                  end
              end
            else
              match digitValue d with
              | None => Plain c :: pieces s1
              | Some n =>
                  match s2 with
                  | EmptyString => [Marker n (String c (String d EmptyString))]
                  | String f s3 =>
                      match digitValue f with
                      | Some m =>
                          Marker (10 * n + m)
                            (String c (String d (String f EmptyString)))
                          :: pieces s3
                      | None =>
                          Marker n (String c (String d EmptyString)) :: pieces s2
                      end
                  end
              end
        end
      else Plain c :: pieces s1
  end.

(** The lowest number of a place marker, if there is a marker. *)
Fixpoint lowest (ps : list Piece) : option nat :=
  match ps with
  | [] => None
  | Plain _ :: rest => lowest rest
  | Marker n _ :: rest =>
      match lowest rest with
      | Some m => Some (Nat.min n m)
      | None => Some n
      end
  end.

Fixpoint fill (n : nat) (a : string) (ps : list Piece) : string :=
  match ps with
  | [] => EmptyString
  | Plain c :: rest => String c (fill n a rest)
  | Marker k text :: rest =>
      (if (k =? n)%nat then a else text) ++ fill n a rest
  end.

(** [s.arg(a)] of Qt 5: every place marker with the lowest number is
    replaced by [a]; a string without place marker is returned as it
    is. *)
Definition arg (s a : string) : string :=
  match lowest (pieces s) with
  | Some n => fill n a (pieces s)
  | None => s
  end.

End QString.

Definition slash : ascii := "/"%char.

(* ===================================================================== *)
(** * The archive tree *)
(* ===================================================================== *)

Inductive NodeType : Type := File | Folder | ArchiveFolder.

(** [struct ArchiveItem].  The tree owns its nodes through [children]; the
    [parent] back pointer of the C++ struct is the position of a node in
    the tree and carries no data of its own. *)
#[warning="-register-all"]
Inductive ArchiveItem : Type := mkArchiveItem {
  name : string;
  type : NodeType;
  children : list ArchiveItem;
  fullPathInArchive : string;
  childrenPopulated : bool
}.

Definition set_children (it : ArchiveItem) (cs : list ArchiveItem) : ArchiveItem :=
  {| name := name it; type := type it; children := cs;
     fullPathInArchive := fullPathInArchive it;
     childrenPopulated := childrenPopulated it |}.

(** The root made by the constructor of [ArchiveModel]. *)
Definition root0 : ArchiveItem :=
  {| name := "/"; type := Folder; children := [];
     fullPathInArchive := ""; childrenPopulated := false |}.

(** [ArchiveModel::clear]: the children of the root are deleted. *)
Definition clear (root : ArchiveItem) : ArchiveItem := set_children root [].

(** The inner [for (ArchiveItem *ch : cur->children)] loop of
    [populateFromList] and [findNodeByPath]: the first child called [part]. *)
Fixpoint find_child (part : string) (cs : list ArchiveItem) : option ArchiveItem :=
  match cs with
  | [] => None
  | ch :: rest => if String.eqb (name ch) part then Some ch else find_child part rest
  end.

(** The same search, continuing the walk inside the child it finds: the
    child is replaced by what the rest of the walk makes of it. *)
Fixpoint descend (part : string) (k : ArchiveItem -> ArchiveItem)
    (cs : list ArchiveItem) : option (list ArchiveItem) :=
  match cs with
  | [] => None
  | ch :: rest =>
      if String.eqb (name ch) part then Some (k ch :: rest)
      else option_map (cons ch) (descend part k rest)
  end.

(** The type given to a new node (lines 171-173); [more] says that
    [i < parts.size() - 1], [e] is the whole entry. *)
Definition node_type (more : bool) (e part : string) : NodeType :=
  if more || QString.endsWith e "/" then Folder
  else if QString.endsWith_ci part ".vfsarc" then ArchiveFolder
  else File.

Definition extend_accum (accum part : string) : string :=
  if QString.isEmpty accum then part else accum ++ "/" ++ part.

(** The loop over [parts] for one entry [e], from node [cur] with the
    accumulated path [accum] (lines 159-177).  [accum] changes only where
    a node is created. *)
Fixpoint walk (e : string) (parts : list string) (accum : string)
    (cur : ArchiveItem) : ArchiveItem :=
  match parts with
  | [] => cur
  | part :: rest =>
      match descend part (walk e rest accum) (children cur) with
      | Some cs => set_children cur cs
      | None =>
          let accum' := extend_accum accum part in
          let more := match rest with [] => false | _ :: _ => true end in
          let it := {| name := part;
                       type := node_type more e part;
                       children := [];
                       fullPathInArchive := accum';
                       childrenPopulated := false |} in
          set_children cur (children cur ++ [walk e rest accum' it])
      end
  end.

(** The body of the loop over [entries] (lines 154-177). *)
Definition populate_entry (prefix : string) (parentNode : ArchiveItem)
    (e : string) : ArchiveItem :=
  if negb (QString.isEmpty prefix) && negb (QString.startsWith e prefix)
  then parentNode
  else
    let rel := if QString.isEmpty prefix then e
               else QString.mid e (String.length prefix) in
    walk e (QString.split slash rel) prefix parentNode.

(** [ArchiveModel::populateFromList(entries, prefix, parentNode)]; the
    result is the subtree of [parentNode] after the call. *)
Definition populateFromList (entries : list string) (prefix : string)
    (parentNode : ArchiveItem) : ArchiveItem :=
  fold_left (populate_entry prefix) entries parentNode.

(** A call of [populateFromList] on the node reached from [t] by the child
    indices [path]; the rest of the tree is untouched. *)
Fixpoint populateAt (path : list nat) (entries : list string) (prefix : string)
    (t : ArchiveItem) : ArchiveItem :=
  match path with
  | [] => populateFromList entries prefix t
  | i :: path' =>
      match children t !! i with
      | Some ch =>
          set_children t (<[i := populateAt path' entries prefix ch]> (children t))
      | None => t
      end
  end.

(** The trees that calls of [populateFromList] build from a new model. *)
Inductive produced : ArchiveItem -> Prop :=
| produced_new : produced root0
| produced_call t path entries prefix :
    produced t -> produced (populateAt path entries prefix t).

(** [MainWindow::collectPathsRecursively(node, out)], returning [out]. *)
Fixpoint collectPathsRecursively (node : ArchiveItem) (out : list string)
    : list string :=
  match type node with
  | File | ArchiveFolder => (out ++ [fullPathInArchive node])%list
  | Folder =>
      (fix each (cs : list ArchiveItem) (out : list string) : list string :=
         match cs with
         | [] => out
         | ch :: rest => each rest (collectPathsRecursively ch out)
         end) (children node) out
  end.

(* ===================================================================== *)
(** * The host: processes, files, clock and dialogs *)
(* ===================================================================== *)

(** What a finished [QProcess] gives back: [exitCode()] and the lines that
    [QTextStream::readLine] reads from [readAllStandardOutput()]. *)
Record ProcessResult : Type := mkProcessResult {
  exitCode : Z;
  standardOutput : list string
}.

(** The part of [QJsonValue] that [loadMetadata] looks at. *)
#[warning="-register-all"]
Inductive QJsonValue : Type :=
| JUndefined
| JString (s : string)
| JArray (items : list QJsonValue)
| JObject (fields : list (string * QJsonValue)).

(** Everything outside the program: the [unzip] and [zip] tools, the file
    system, the clock and the user in front of the dialogs.  [World] is the
    state of all of them. *)
Class Host (World : Type) : Type := {
  (** [p.start(program, args); p.waitForFinished(..)] *)
  QProcess_run : string -> list string -> World -> ProcessResult * World;
  (** [QFile::exists(path)] *)
  QFile_exists : string -> World -> bool;
  (** [QDir::temp().path()] *)
  QDir_temp : World -> string;
  (** [QUuid::createUuid().toString()] *)
  QUuid_createUuid : World -> string * World;
  (** [QDir().mkpath(path)] *)
  QDir_mkpath : string -> World -> World;
  (** [QTemporaryFile tmp; tmp.open(); tmp.fileName()] *)
  QTemporaryFile_open : World -> string * World;
  (** [tmp.write(QJsonDocument(o).toJson()); tmp.flush()] *)
  QFile_writeJson : string -> QJsonValue -> World -> World;
  (** [f.open(ReadOnly)] then [QJsonDocument::fromJson(f.readAll())];
      [None] when the file cannot be opened. *)
  QFile_readJson : string -> World -> option QJsonValue;
  (** [QDateTime::currentDateTime().toString(Qt::ISODate)] *)
  QDateTime_currentDateTime : World -> string;
  (** [QInputDialog::getText(this, title, label, .., &ok)]: the text and [ok] *)
  QInputDialog_getText : string -> string -> World -> (string * bool) * World;
  (** [QFileDialog::getOpenFileName(..)] *)
  QFileDialog_getOpenFileName : World -> string * World
}.

(** What the program does to the outside, in the order it does it. *)
Inductive Event : Type :=
| EvProcess (program : string) (args : list string)
| EvGetText (title label : string)
| EvWarning (title text : string)
| EvPreview (path : string).

(** [QFileInfo(path).fileName()]: what follows the last slash. *)
Fixpoint fileName_from (s cur : string) : string :=
  match s with
  | EmptyString => QString.reversed cur
  | String a s' =>
      if Ascii.eqb a slash then fileName_from s' EmptyString
      else fileName_from s' (String a cur)
  end.

Definition QFileInfo_fileName (path : string) : string :=
  fileName_from path EmptyString.

(** [QDir(dir).filePath(fileName)] on a Unix host. *)
Definition QDir_filePath (dir fileName : string) : string :=
  if QString.startsWith fileName "/" then fileName
  else if QString.isEmpty dir then fileName
  else if QString.endsWith dir "/" then dir ++ fileName
  else dir ++ "/" ++ fileName.

(** [v.toString(defaultValue)] *)
Definition QJsonValue_toString (v : QJsonValue) (defaultValue : string) : string :=
  match v with JString s => s | _ => defaultValue end.

(** [v.toArray()] *)
Definition QJsonValue_toArray (v : QJsonValue) : list QJsonValue :=
  match v with JArray items => items | _ => [] end.

(** [doc.object()] *)
Definition QJsonDocument_object (doc : QJsonValue) : list (string * QJsonValue) :=
  match doc with JObject fields => fields | _ => [] end.

(** [o.value(key)] *)
Fixpoint QJsonObject_value (o : list (string * QJsonValue)) (key : string) : QJsonValue :=
  match o with
  | [] => JUndefined
  | (k, v) :: rest => if String.eqb k key then v else QJsonObject_value rest key
  end.

(* ===================================================================== *)
(** * The program state *)
(* ===================================================================== *)

(** The members of [CliArchiveHandler]. *)
Record CliArchiveHandler : Type := mkCliArchiveHandler {
  m_archive : string;
  m_password : string
}.

(** [struct ArchiveMetadata] *)
Record ArchiveMetadata : Type := mkArchiveMetadata {
  version : string;
  created : string;
  tags : list string
}.

(** How a password resolution ended: the three ways out of
    [attemptPasswordAndLoadArchive]. *)
Inductive Outcome : Type :=
| Resolved (password : string)
| Cancelled
| Exhausted.

Section Program.

Context {World : Type} `{Host World}.

(** The members of [MainWindow] that the flows read or write, the world
    and the journal of what was done to it.  [archiveModel] is the root
    of the model; [status] is the message of the status bar. *)
Record MainWindow : Type := mkMainWindow {
  backend : CliArchiveHandler;
  currentArchive : string;
  passwordCache : gmap string string;
  globalPasswords : list string;
  archiveStack : list string;
  archiveModel : ArchiveItem;
  metadataView : string;
  status : string;
  world : World;
  journal : list Event
}.

Definition set_backend (b : CliArchiveHandler) (s : MainWindow) : MainWindow :=
  mkMainWindow b (currentArchive s) (passwordCache s) (globalPasswords s)
    (archiveStack s) (archiveModel s) (metadataView s) (status s) (world s) (journal s).
Definition set_currentArchive (a : string) (s : MainWindow) : MainWindow :=
  mkMainWindow (backend s) a (passwordCache s) (globalPasswords s)
    (archiveStack s) (archiveModel s) (metadataView s) (status s) (world s) (journal s).
Definition set_passwordCache (c : gmap string string) (s : MainWindow) : MainWindow :=
  mkMainWindow (backend s) (currentArchive s) c (globalPasswords s)
    (archiveStack s) (archiveModel s) (metadataView s) (status s) (world s) (journal s).
Definition set_globalPasswords (g : list string) (s : MainWindow) : MainWindow :=
  mkMainWindow (backend s) (currentArchive s) (passwordCache s) g
    (archiveStack s) (archiveModel s) (metadataView s) (status s) (world s) (journal s).
Definition set_archiveStack (k : list string) (s : MainWindow) : MainWindow :=
  mkMainWindow (backend s) (currentArchive s) (passwordCache s) (globalPasswords s)
    k (archiveModel s) (metadataView s) (status s) (world s) (journal s).
Definition set_archiveModel (t : ArchiveItem) (s : MainWindow) : MainWindow :=
  mkMainWindow (backend s) (currentArchive s) (passwordCache s) (globalPasswords s)
    (archiveStack s) t (metadataView s) (status s) (world s) (journal s).
Definition set_metadataView (v : string) (s : MainWindow) : MainWindow :=
  mkMainWindow (backend s) (currentArchive s) (passwordCache s) (globalPasswords s)
    (archiveStack s) (archiveModel s) v (status s) (world s) (journal s).
Definition set_status (m : string) (s : MainWindow) : MainWindow :=
  mkMainWindow (backend s) (currentArchive s) (passwordCache s) (globalPasswords s)
    (archiveStack s) (archiveModel s) (metadataView s) m (world s) (journal s).
Definition set_world (w : World) (s : MainWindow) : MainWindow :=
  mkMainWindow (backend s) (currentArchive s) (passwordCache s) (globalPasswords s)
    (archiveStack s) (archiveModel s) (metadataView s) (status s) w (journal s).
Definition record (ev : Event) (s : MainWindow) : MainWindow :=
  mkMainWindow (backend s) (currentArchive s) (passwordCache s) (globalPasswords s)
    (archiveStack s) (archiveModel s) (metadataView s) (status s) (world s)
    (journal s ++ [ev]).

(** The state of a [MainWindow] after its constructor. *)
Definition newMainWindow (w : World) : MainWindow :=
  {| backend := mkCliArchiveHandler "" "";
     currentArchive := "";
     passwordCache := ∅;
     globalPasswords := [];
     archiveStack := [];
     archiveModel := root0;
     metadataView := "";
     status := "Ready";
     world := w;
     journal := [] |}.

(** ** A state monad over [MainWindow] *)

Definition M (A : Type) : Type := MainWindow -> A * MainWindow.

Definition ret {A : Type} (a : A) : M A := fun s => (a, s).

Definition bind {A B : Type} (m : M A) (k : A -> M B) : M B :=
  fun s => let (a, s') := m s in k a s'.

Definition get {A : Type} (f : MainWindow -> A) : M A := fun s => (f s, s).

Definition modify (f : MainWindow -> MainWindow) : M unit := fun s => (tt, f s).

End Program.

Arguments MainWindow World : clear implicits.
Arguments M World A : clear implicits.

Notation "'do' x <- m ; k" := (bind m (fun x => k))
  (at level 10, x name, m at level 100, k at level 200,
   format "'[v' 'do'  x  <-  m ; '/' k ']'").

(* ===================================================================== *)
(** * CliArchiveHandler, loadMetadata and the flows of MainWindow *)
(* ===================================================================== *)

Section Flows.

Context {World : Type} `{Host World}.

Local Abbreviation M := (M World).
Local Abbreviation MainWindow := (MainWindow World).

(** ** Calls to the host, each written to the journal *)

Definition run (program : string) (args : list string) : M ProcessResult :=
  fun s =>
    let (r, w) := QProcess_run program args (world s) in
    (r, record (EvProcess program args) (set_world w s)).

Definition getText (title label : string) : M (string * bool) :=
  fun s =>
    let (r, w) := QInputDialog_getText title label (world s) in
    (r, record (EvGetText title label) (set_world w s)).

Definition warning (title text : string) : M unit :=
  modify (record (EvWarning title text)).

Definition createUuid : M string :=
  fun s => let (u, w) := QUuid_createUuid (world s) in (u, set_world w s).

Definition temporaryFile : M string :=
  fun s => let (n, w) := QTemporaryFile_open (world s) in (n, set_world w s).

Definition on_world (f : World -> World) : M unit :=
  modify (fun s => set_world (f (world s)) s).

(** ** CliArchiveHandler *)

(** [openArchive(path)]: the handler bound to [path], and whether the
    file exists. *)
Definition openArchive (h : CliArchiveHandler) (path : string)
    : M (bool * CliArchiveHandler) :=
  do ex <- get (fun s => QFile_exists path (world s));
  ret (ex, mkCliArchiveHandler path (m_password h)).

(** The arguments of [unzip] in [listEntries] (lines 46-51). *)
Definition listArgs (h : CliArchiveHandler) : list string :=
  let args := ["-Z"; "-1"; m_archive h] in
  if negb (QString.isEmpty (m_password h))
  then "-P" :: m_password h :: args
  else args.

(** The loop over the output lines in [listEntries] (lines 59-64). *)
Fixpoint keepLines (prefix : string) (lines : list string) : list string :=
  match lines with
  | [] => []
  | l :: rest =>
      let line := QString.trimmed l in
      if negb (QString.isEmpty line)
         && (QString.isEmpty prefix || QString.startsWith line prefix)
      then line :: keepLines prefix rest
      else keepLines prefix rest
  end.

(** [listEntries(prefix)] *)
Definition listEntries (h : CliArchiveHandler) (prefix : string)
    : M (list string) :=
  do p <- run "unzip" (listArgs h);
  ret (keepLines prefix (standardOutput p)).

(** The arguments of [unzip] in [extractEntryToTemp] (lines 73-74). *)
Definition extractArgs (h : CliArchiveHandler) (entry persistentTmp : string)
    : list string :=
  (if negb (QString.isEmpty (m_password h)) then ["-P"; m_password h] else [])
  ++ [m_archive h; entry; "-d"; persistentTmp].

(** [extractEntryToTemp(entry, outPath)]: [Some outPath] for [true]. *)
Definition extractEntryToTemp (h : CliArchiveHandler) (entry : string)
    : M (option string) :=
  do uuid <- createUuid;
  do tmpdir <- get (fun s => QDir_temp (world s));
  let persistentTmp := QDir_filePath tmpdir ("qt_arch_tmp_" ++ uuid) in
  do _ <- on_world (QDir_mkpath persistentTmp);
  do p <- run "unzip" (extractArgs h entry persistentTmp);
  if (exitCode p =? 0)%Z
  then ret (Some (QDir_filePath persistentTmp entry))
  else ret None.

(** [addFiles(files, destPathInArchive)] *)
Definition addFiles (h : CliArchiveHandler) (files : list string)
    (destPathInArchive : string) : M bool :=
  do p <- run "zip" (m_archive h :: files);
  ret (exitCode p =? 0)%Z.

(** [removeEntries(entries)] *)
Definition removeEntries (h : CliArchiveHandler) (entries : list string)
    : M bool :=
  do p <- run "zip" ("-d" :: m_archive h :: entries);
  ret (exitCode p =? 0)%Z.

(** [backend->setPassword(pw)] on the backend of the window. *)
Definition setPassword (pw : string) : M unit :=
  modify (fun s => set_backend (mkCliArchiveHandler (m_archive (backend s)) pw) s).

(** ** loadMetadata *)

Definition manifestObject (meta : ArchiveMetadata) : QJsonValue :=
  JObject [("version", JString (version meta));
           ("created", JString (created meta));
           ("tags", JArray (map JString (tags meta)))].

Definition loadMetadata (h : CliArchiveHandler) : M ArchiveMetadata :=
  do extracted <- extractEntryToTemp h ".manifest.json";
  match extracted with
  | Some tmpPath =>
      do doc <- get (fun s => QFile_readJson tmpPath (world s));
      match doc with
      | Some d =>
          let o := QJsonDocument_object d in
          ret {| version := QJsonValue_toString (QJsonObject_value o "version") "1.0";
                 created := QJsonValue_toString (QJsonObject_value o "created") "";
                 tags := map (fun t => QJsonValue_toString t "")
                             (QJsonValue_toArray (QJsonObject_value o "tags")) |}
      | None => ret {| version := ""; created := ""; tags := [] |}
      end
  | None =>
      do now <- get (fun s => QDateTime_currentDateTime (world s));
      let meta := {| version := "1.0"; created := now; tags := ["new"] |} in
      do tmp <- temporaryFile;
      do _ <- on_world (QFile_writeJson tmp (manifestObject meta));
      do _ <- addFiles h [tmp] "";
      ret meta
  end.

(** ** MainWindow *)

Definition newline : string := String (ascii_of_nat 10) EmptyString.

(** The text shown for a manifest,
    [QString("Version: %1\nCreated: %2\nTags: %3").arg(..).arg(..).arg(..)];
    [label] is "Version" or "Nested Version".  Each [arg] looks at the
    text that the one before it left. *)
Definition metadataText (label : string) (meta : ArchiveMetadata) : string :=
  QString.arg
    (QString.arg
       (QString.arg
          (label ++ ": %1" ++ newline ++ "Created: %2" ++ newline ++ "Tags: %3")
          (version meta))
       (created meta))
    (QString.join ", " (tags meta)).

Definition cacheContains (key : string) (s : MainWindow) : bool :=
  match passwordCache s !! key with Some _ => true | None => false end.

(** [updateStatusBar()] *)
Definition updateStatusBar : M unit :=
  modify (fun s =>
    let lock := if cacheContains (m_archive (backend s)) s then " 🔒" else "" in
    set_status (QString.join " > " (archiveStack s) ++ lock) s).

(** [loadArchiveEntries(entries, archivePath)] *)
Definition loadArchiveEntries (entries : list string) (archivePath : string)
    : M unit :=
  do _ <- modify (fun s => set_archiveModel (clear (archiveModel s)) s);
  do _ <- modify (fun s =>
            set_archiveModel (populateFromList entries "" (archiveModel s)) s);
  do b <- get backend;
  do meta <- loadMetadata b;
  do _ <- modify (set_metadataView (metadataText "Version" meta));
  do _ <- modify (set_archiveStack []);
  do _ <- modify (fun s =>
            set_archiveStack (archiveStack s ++ [QFileInfo_fileName archivePath]) s);
  do _ <- updateStatusBar;
  modify (set_status ("Opened: " ++ archivePath)).

Definition nonEmpty (entries : list string) : bool :=
  match entries with [] => false | _ :: _ => true end.

(** The loop over [globalPasswords] in [attemptPasswordAndLoadArchive]
    (lines 513-522): the password that opened the archive, if any. *)
Fixpoint attemptGlobalPasswords (archivePath : string) (pws : list string)
    : M (option string) :=
  match pws with
  | [] => ret None
  | pw :: rest =>
      do _ <- setPassword pw;
      do b <- get backend;
      do entries <- listEntries b "";
      if nonEmpty entries then
        do _ <- modify (fun s =>
                  set_passwordCache (<[archivePath := pw]> (passwordCache s)) s);
        do _ <- loadArchiveEntries entries archivePath;
        ret (Some pw)
      else attemptGlobalPasswords archivePath rest
  end.

(** The prompt of [attemptPasswordAndLoadArchive] (lines 523-537). *)
Definition attemptPrompt (archivePath : string) : M Outcome :=
  do answer <- getText "Password Required"
                 ("Enter password for " ++ QFileInfo_fileName archivePath);
  let (pw, ok) := answer in
  if negb ok then ret Cancelled
  else
    do _ <- setPassword pw;
    do b <- get backend;
    do entries <- listEntries b "";
    if nonEmpty entries then
      do _ <- modify (fun s =>
                set_passwordCache (<[archivePath := pw]> (passwordCache s)) s);
      do _ <- modify (fun s =>
                if negb (QString.isEmpty pw)
                   && negb (existsb (String.eqb pw) (globalPasswords s))
                then set_globalPasswords (globalPasswords s ++ [pw]) s
                else s);
      do _ <- loadArchiveEntries entries archivePath;
      ret (Resolved pw)
    else
      do _ <- warning "Password Failed" "Password did not work.";
      ret Exhausted.

(** [attemptPasswordAndLoadArchive(handler, archivePath)].  Its only
    caller passes [backend] as [handler], so the handler is the backend
    of the window.  The function returns nothing; the [Outcome] names
    the [return] it left by. *)
Definition attemptPasswordAndLoadArchive (archivePath : string) : M Outcome :=
  do cache <- get passwordCache;
  do cached <-
    match cache !! archivePath with
    | Some pw =>
        do _ <- setPassword pw;
        do b <- get backend;
        do entries <- listEntries b "";
        if nonEmpty entries then
          do _ <- loadArchiveEntries entries archivePath;
          ret (Some pw)
        else ret None
    | None => ret None
    end;
  match cached with
  | Some pw => ret (Resolved pw)
  | None =>
      do pool <- get globalPasswords;
      do found <- attemptGlobalPasswords archivePath pool;
      match found with
      | Some pw => ret (Resolved pw)
      | None => attemptPrompt archivePath
      end
  end.

(** The loop over [globalPasswords] in [tryPasswordsForEntryAndExtract]
    (lines 549-552). *)
Fixpoint extractGlobalPasswords (entry : string) (pws : list string)
    : M (option string) :=
  match pws with
  | [] => ret None
  | pw :: rest =>
      do _ <- setPassword pw;
      do b <- get backend;
      do out <- extractEntryToTemp b entry;
      match out with
      | Some tmp => ret (Some tmp)
      | None => extractGlobalPasswords entry rest
      end
  end.

(** [tryPasswordsForEntryAndExtract(entry, outTmp)]: [Some outTmp] for
    [true]. *)
Definition tryPasswordsForEntryAndExtract (entry : string) : M (option string) :=
  do apath <- get (fun s => m_archive (backend s));
  do cache <- get passwordCache;
  do cached <-
    match cache !! apath with
    | Some pw =>
        do _ <- setPassword pw;
        do b <- get backend;
        extractEntryToTemp b entry
    | None => ret None
    end;
  match cached with
  | Some tmp => ret (Some tmp)
  | None =>
      do pool <- get globalPasswords;
      extractGlobalPasswords entry pool
  end.

(** The statements that open the extracted nested archive [tmp] and
    switch to it: lines 400-414 of [onArchiveDoubleClicked], and again
    lines 569-582 of [promptPasswordForArchiveAndLoad]. *)
Definition openNested (tmp entry : string) : M unit :=
  do opened <- openArchive (mkCliArchiveHandler "" "") tmp;
  let (ok, nested) := opened in
  if ok then
    do _ <- modify (fun s =>
              set_archiveStack
                (archiveStack s
                 ++ [QFileInfo_fileName (currentArchive s) ++ ":" ++ entry]) s);
    do _ <- updateStatusBar;
    do _ <- modify (set_backend nested);
    do _ <- modify (set_currentArchive tmp);
    do _ <- modify (fun s => set_archiveModel (clear (archiveModel s)) s);
    do b <- get backend;
    do entries <- listEntries b "";
    do _ <- modify (fun s =>
              set_archiveModel (populateFromList entries "" (archiveModel s)) s);
    do b' <- get backend;
    do meta <- loadMetadata b';
    modify (set_metadataView (metadataText "Nested Version" meta))
  else ret tt.

(** [promptPasswordForArchiveAndLoad(entryInCurrent)] *)
Definition promptPasswordForArchiveAndLoad (entryInCurrent : string) : M unit :=
  do answer <- getText "Password Required"
                 ("Enter password to extract " ++ entryInCurrent);
  let (pw, ok) := answer in
  if negb ok || QString.isEmpty pw then ret tt
  else
    do _ <- setPassword pw;
    do b <- get backend;
    do out <- extractEntryToTemp b entryInCurrent;
    match out with
    | Some tmp =>
        do _ <- modify (fun s =>
                  set_passwordCache
                    (<[m_archive (backend s) := pw]> (passwordCache s)) s);
        do _ <- modify (fun s =>
                  if negb (existsb (String.eqb pw) (globalPasswords s))
                  then set_globalPasswords (globalPasswords s ++ [pw]) s
                  else s);
        openNested tmp entryInCurrent
    | None =>
        warning "Extract Failed"
          "Could not extract nested archive with provided password."
    end.

(** [previewFile(path)]: the preview itself is outside the model. *)
Definition previewFile (path : string) : M unit :=
  modify (record (EvPreview path)).

(** [onArchiveDoubleClicked(idx)]: [idx] is the item a valid index
    points to, [None] for an invalid index. *)
Definition onArchiveDoubleClicked (idx : option ArchiveItem) : M unit :=
  match idx with
  | None => ret tt
  | Some it =>
      let entry := fullPathInArchive it in
      match type it with
      | ArchiveFolder =>
          do b <- get backend;
          do direct <- extractEntryToTemp b entry;
          match direct with
          | Some tmp => openNested tmp entry
          | None =>
              do retried <- tryPasswordsForEntryAndExtract entry;
              match retried with
              | Some tmp => openNested tmp entry
              | None => promptPasswordForArchiveAndLoad entry
              end
          end
      | _ =>
          do b <- get backend;
          do out <- extractEntryToTemp b entry;
          match out with
          | Some tmpPath => previewFile tmpPath
          | None => ret tt
          end
      end
  end.

(** [onOpenArchive()] *)
Definition onOpenArchive : M unit :=
  do file <- (fun s => let (f, w) := QFileDialog_getOpenFileName (world s) in
                       (f, set_world w s));
  if QString.isEmpty file then ret tt
  else
    do b <- get backend;
    do opened <- openArchive b file;
    let (ok, b') := opened in
    do _ <- modify (set_backend b');
    if negb ok then
      warning "Open failed" ("Could not open archive: " ++ file)
    else
      do _ <- modify (set_currentArchive file);
      do _ <- attemptPasswordAndLoadArchive file;
      ret tt.

End Flows.

(* ===================================================================== *)
(** * Specification of the tree *)
(* ===================================================================== *)

(** The node reached from [t] by the child indices [path]. *)
Fixpoint node_at (path : list nat) (t : ArchiveItem) : option ArchiveItem :=
  match path with
  | [] => Some t
  | i :: path' =>
      match children t !! i with
      | Some ch => node_at path' ch
      | None => None
      end
  end.

(** [P] holds at every node of the tree. *)
Fixpoint every_node (P : ArchiveItem -> Prop) (t : ArchiveItem) : Prop :=
  P t /\
  (fix all (cs : list ArchiveItem) : Prop :=
     match cs with
     | [] => True
     | c :: cs' => every_node P c /\ all cs'
     end) (children t).

(** No two children of a node have the same name. *)
Definition siblings_distinct : ArchiveItem -> Prop :=
  every_node (fun n => NoDup (map name (children n))).

(** The path law as the design document words it. *)
Definition paths_literal : ArchiveItem -> Prop :=
  every_node (fun n =>
    Forall (fun c => fullPathInArchive c = fullPathInArchive n ++ "/" ++ name c)
           (children n)).

(** The path law with the join of the code: below an empty path the
    name stands alone. *)
Definition paths_joined : ArchiveItem -> Prop :=
  every_node (fun n =>
    Forall (fun c => fullPathInArchive c
                     = if QString.isEmpty (fullPathInArchive n) then name c
                       else fullPathInArchive n ++ "/" ++ name c)
           (children n)).

(** All of [parts] are found, one below the other, from [cur]. *)
Fixpoint present (parts : list string) (cur : ArchiveItem) : bool :=
  match parts with
  | [] => true
  | part :: rest =>
      match find_child part (children cur) with
      | Some ch => present rest ch
      | None => false
      end
  end.

(** The walk for [parts] from [cur] creates every node or none: the
    first segment is new, or all segments are there already. *)
Definition fresh_or_present (parts : list string) (cur : ArchiveItem) : bool :=
  match parts with
  | [] => true
  | part :: _ =>
      match find_child part (children cur) with
      | None => true
      | Some _ => present parts cur
      end
  end.

(** [fresh_or_present] for each entry in turn, at the root and with an
    empty prefix. *)
Fixpoint fresh_or_present_all (entries : list string) (root : ArchiveItem) : bool :=
  match entries with
  | [] => true
  | e :: rest =>
      fresh_or_present (QString.split slash e) root
      && fresh_or_present_all rest (populate_entry "" root e)
  end.

(** The classification rule in the words of the design document. *)
Definition classify (last_segment trailing_slash : bool) (segment : string)
    : NodeType :=
  if negb last_segment || trailing_slash then Folder
  else if QString.endsWith_ci segment ".vfsarc" then ArchiveFolder
  else File.

(** The paths below [node], in the words of the design document. *)
Fixpoint descendantPaths (node : ArchiveItem) : list string :=
  match type node with
  | File | ArchiveFolder => [fullPathInArchive node]
  | Folder =>
      (fix each (cs : list ArchiveItem) : list string :=
         match cs with
         | [] => []
         | ch :: rest => (descendantPaths ch ++ each rest)%list
         end) (children node)
  end.

(** The segments of entry [e] below [prefix]; [None] when the entry is
    skipped (line 154). *)
Definition entry_parts (prefix e : string) : option (list string) :=
  if negb (QString.isEmpty prefix) && negb (QString.startsWith e prefix)
  then None
  else Some (QString.split slash
               (if QString.isEmpty prefix then e
                else QString.mid e (String.length prefix))).

(** Entry [e] is skipped, or all its segments are found from [cur]. *)
Definition entry_present (prefix : string) (cur : ArchiveItem) (e : string) : bool :=
  match entry_parts prefix e with
  | Some parts => present parts cur
  | None => true
  end.

(** [n'] has the name, type, path and populated flag of [n]. *)
Definition same_node (n n' : ArchiveItem) : Prop :=
  name n' = name n /\ type n' = type n
  /\ fullPathInArchive n' = fullPathInArchive n
  /\ childrenPopulated n' = childrenPopulated n.

(* ===================================================================== *)
(** * Specification of the flows *)
(* ===================================================================== *)

Section FlowSpec.

Context {World : Type} `{Host World}.

Local Abbreviation M := (M World).
Local Abbreviation MainWindow := (MainWindow World).

(** The action [m] leaves the observation [f] of the window alone. *)
Definition keeps {A X : Type} (f : MainWindow -> X) (m : M A) : Prop :=
  forall s, f (snd (m s)) = f s.

(** An observation that does not look at the world or the journal. *)
Definition inner {X : Type} (f : MainWindow -> X) : Prop :=
  (forall w s, f (set_world w s) = f s)
  /\ (forall ev s, f (record ev s) = f s).

(** The action only adds events that satisfy [Q] to the journal. *)
Definition appends {A : Type} (Q : Event -> Prop) (m : M A) : Prop :=
  forall s, exists evs,
    journal (snd (m s)) = (journal s ++ evs)%list /\ Forall Q evs.

(** The event is not a password dialog. *)
Definition not_prompt (ev : Event) : Prop :=
  match ev with EvGetText _ _ => False | _ => True end.

(** The entries that [listEntries] returns for handler [h] in world [w]. *)
Definition listing (h : CliArchiveHandler) (w : World) : list string :=
  keepLines "" (standardOutput (fst (QProcess_run "unzip" (listArgs h) w))).

(** The window after [setPassword pw] and a listing of the whole
    archive. *)
Definition after_listing (pw : string) (s : MainWindow) : MainWindow :=
  let h := mkCliArchiveHandler (m_archive (backend s)) pw in
  record (EvProcess "unzip" (listArgs h))
    (set_world (snd (QProcess_run "unzip" (listArgs h) (world s)))
       (set_backend h s)).

(** Every password of [pws] gives an empty listing of [archive]. *)
Definition all_fail (archive : string) (pws : list string) : Prop :=
  Forall (fun pw => forall w, listing (mkCliArchiveHandler archive pw) w = []) pws.

(** The directory [extractEntryToTemp] extracts into, from world [w]. *)
Definition extract_dir (w : World) : string :=
  QDir_filePath (QDir_temp (snd (QUuid_createUuid w)))
    ("qt_arch_tmp_" ++ fst (QUuid_createUuid w)).

(** What [promptPasswordForArchiveAndLoad] stores after a successful
    extraction with [pw] (lines 566-567). *)
Definition remember_password (pw : string) (s : MainWindow) : MainWindow :=
  let s1 := set_passwordCache (<[m_archive (backend s) := pw]> (passwordCache s)) s in
  if negb (existsb (String.eqb pw) (globalPasswords s1))
  then set_globalPasswords (globalPasswords s1 ++ [pw]) s1
  else s1.

(** The three ways in which [onArchiveDoubleClicked] gets the nested
    archive [entry] out of the current one: at once, with a password of
    the cache or the pool, or with the password the user types.
    [extracted entry s tmp s'] gives the extracted file and the window
    at that moment. *)
Inductive extracted (entry : string) (s : MainWindow)
    : string -> MainWindow -> Prop :=
| extracted_direct tmp s1 :
    extractEntryToTemp (backend s) entry s = (Some tmp, s1) ->
    extracted entry s tmp s1
| extracted_known tmp s1 s2 :
    extractEntryToTemp (backend s) entry s = (None, s1) ->
    tryPasswordsForEntryAndExtract entry s1 = (Some tmp, s2) ->
    extracted entry s tmp s2
| extracted_prompted pw tmp s1 s2 s3 s4 :
    extractEntryToTemp (backend s) entry s = (None, s1) ->
    tryPasswordsForEntryAndExtract entry s1 = (None, s2) ->
    getText "Password Required" ("Enter password to extract " ++ entry) s2
    = ((pw, true), s3) ->
    QString.isEmpty pw = false ->
    extractEntryToTemp (mkCliArchiveHandler (m_archive (backend s3)) pw) entry
      (set_backend (mkCliArchiveHandler (m_archive (backend s3)) pw) s3)
    = (Some tmp, s4) ->
    extracted entry s tmp (remember_password pw s4).

End FlowSpec.

(* ===================================================================== *)
(** * A small host to run the flows on *)
(* ===================================================================== *)

(** One archive and one user: the password that lists the archive, the
    lines [unzip -Z -1] prints for it, the password that extracts its
    entries, whether it holds a manifest, and what the user answers to a
    password dialog. *)
Record Scenario : Type := mkScenario {
  sc_list_password : string;
  sc_lines : list string;
  sc_extract_password : string;
  sc_has_manifest : bool;
  sc_answer : string * bool
}.

Definition toy_list (sc : Scenario) (pw : string) : ProcessResult :=
  if String.eqb pw (sc_list_password sc)
  then mkProcessResult 0 (sc_lines sc)
  else mkProcessResult 1 [].

Definition toy_extract (sc : Scenario) (pw entry : string) : ProcessResult :=
  if String.eqb entry ".manifest.json"
  then mkProcessResult (if sc_has_manifest sc then 0 else 11) []
  else if String.eqb pw (sc_extract_password sc)
       then mkProcessResult 0 []
       else mkProcessResult 82 [].

Definition toy_process (sc : Scenario) (program : string) (args : list string)
    : ProcessResult :=
  if String.eqb program "unzip" then
    match args with
    | ["-Z"; "-1"; _] => toy_list sc ""
    | ["-P"; pw; "-Z"; "-1"; _] => toy_list sc pw
    | [_; entry; "-d"; _] => toy_extract sc "" entry
    | ["-P"; pw; _; entry; "-d"; _] => toy_extract sc pw entry
    | _ => mkProcessResult 10 []
    end
  else mkProcessResult 0 [].

Definition toyHost (sc : Scenario) : Host unit :=
  {| QProcess_run := fun program args w => (toy_process sc program args, w);
     QFile_exists := fun _ _ => true;
     QDir_temp := fun _ => "/tmp";
     QUuid_createUuid := fun w => ("{7f}", w);
     QDir_mkpath := fun _ w => w;
     QTemporaryFile_open := fun w => ("/tmp/qt_temp.a1", w);
     QFile_writeJson := fun _ _ w => w;
     QFile_readJson := fun _ _ => Some (JObject []);
     QDateTime_currentDateTime := fun _ => "2024-05-01T10:00:00";
     QInputDialog_getText := fun _ _ w => (sc_answer sc, w);
     QFileDialog_getOpenFileName := fun w => ("/home/u/A.vfsarc", w) |}.

(** A window on [/home/u/A.vfsarc] with the given cache and pool. *)
Definition toyWindow (cache : gmap string string) (pool : list string)
    : MainWindow unit :=
  {| backend := mkCliArchiveHandler "/home/u/A.vfsarc" "";
     currentArchive := "/home/u/A.vfsarc";
     passwordCache := cache;
     globalPasswords := pool;
     archiveStack := [];
     archiveModel := root0;
     metadataView := "";
     status := "Ready";
     world := tt;
     journal := [] |}.

(** The archive opens only with ["y"]; the user cancels the dialog. *)
Definition only_y : Scenario :=
  mkScenario "y" ["folder/inner.vfsarc"; "readme.txt"] "y" true ("", false).

(** No password opens the archive; the user cancels the dialog. *)
Definition locked_out : Scenario :=
  mkScenario "secret" ["readme.txt"] "secret" true ("", false).

(** No password is needed; the user confirms the empty password. *)
Definition open_archive : Scenario :=
  mkScenario "" ["folder/inner.vfsarc"] "" false ("", true).

(** No password opens the archive; the user confirms the empty password. *)
Definition confirms_empty : Scenario :=
  mkScenario "secret" ["readme.txt"] "secret" true ("", true).

(** The user confirms ["pw1"], which opens the archive. *)
Definition confirms_pw1 : Scenario :=
  mkScenario "pw1" ["inner.vfsarc"] "pw1" true ("pw1", true).

(** The toy window after [onOpenArchive] on [/home/u/A.vfsarc]. *)
Definition toy_opened : MainWindow unit :=
  snd (@onOpenArchive unit (toyHost open_archive) (newMainWindow tt)).

(** The node of [folder/inner.vfsarc] in the tree of [toy_opened]. *)
Definition toy_inner : ArchiveItem :=
  {| name := "inner.vfsarc"; type := ArchiveFolder; children := [];
     fullPathInArchive := "folder/inner.vfsarc"; childrenPopulated := false |}.

(* ===================================================================== *)
(** * The rest of ArchiveModel *)
(* ===================================================================== *)

(** The loop of [findNodeByPath] over the segments (lines 241-247). *)
Fixpoint find_parts (parts : list string) (cur : ArchiveItem) : option ArchiveItem :=
  match parts with
  | [] => Some cur
  | p :: rest =>
      match find_child p (children cur) with
      | Some ch => find_parts rest ch
      | None => None
      end
  end.

(** [ArchiveModel::findNodeByPath(path, start)]; [None] is [nullptr]. *)
Definition findNodeByPath (path : string) (start : ArchiveItem) : option ArchiveItem :=
  if QString.isEmpty path then Some start
  else find_parts (QString.split slash path) start.

(** The tree with [f] applied to the node that the child rows [path]
    lead to: an assignment through a pointer to that node. *)
Fixpoint update_at (path : list nat) (f : ArchiveItem -> ArchiveItem)
    (t : ArchiveItem) : ArchiveItem :=
  match path with
  | [] => f t
  | i :: path' =>
      match children t !! i with
      | Some ch => set_children t (<[i := update_at path' f ch]> (children t))
      | None => t
      end
  end.

(** [it->childrenPopulated = true] *)
Definition set_populated (it : ArchiveItem) : ArchiveItem :=
  {| name := name it; type := type it; children := children it;
     fullPathInArchive := fullPathInArchive it; childrenPopulated := true |}.

(** The node that "Add Folder" makes below [it] (lines 440-444). *)
Definition newFolder (it : ArchiveItem) (folderName : string) : ArchiveItem :=
  {| name := folderName; type := Folder; children := [];
     fullPathInArchive :=
       if QString.isEmpty (fullPathInArchive it) then folderName
       else fullPathInArchive it ++ "/" ++ folderName;
     childrenPopulated := false |}.

(** [it->children << newFolder; it->childrenPopulated = true] (lines
    445-446). *)
Definition attach_folder (folderName : string) (it : ArchiveItem) : ArchiveItem :=
  set_populated (set_children it (children it ++ [newFolder it folderName])).

(** [parent->children.removeOne(it)] for the item at [path] (lines
    473-474): the item leaves the list of its parent; the root has no
    parent and stays. *)
Fixpoint remove_at (path : list nat) (t : ArchiveItem) : ArchiveItem :=
  match path with
  | [] => t
  | [i] => set_children t (delete i (children t))
  | i :: path' =>
      match children t !! i with
      | Some ch => set_children t (<[i := remove_at path' ch]> (children t))
      | None => t
      end
  end.

(** The node that the child rows [path] lead to from [t] when every
    node passed on the way is a Folder: the nodes that the recursion of
    [collectPathsRecursively] visits. *)
Fixpoint through_folders (path : list nat) (t : ArchiveItem) : option ArchiveItem :=
  match path with
  | [] => Some t
  | i :: path' =>
      match type t with
      | Folder =>
          match children t !! i with
          | Some ch => through_folders path' ch
          | None => None
          end
      | _ => None
      end
  end.

(** Every name in the tree is one segment of a path: not empty and
    without a slash, so that splitting it gives the name back. *)
Definition single_segment_names : ArchiveItem -> Prop :=
  every_node (fun n =>
    Forall (fun c => QString.split slash (name c) = [name c]) (children n)).

(** The item model interface of [ArchiveModel] (lines 181-233, 252-255). *)
Module ArchiveModel.

(** A [QModelIndex]: invalid, or a row, a column and the internal
    pointer.  A pointer to an item is the list of child rows that leads
    to it from the root; the root itself is the empty list. *)
Inductive QModelIndex : Type :=
| Invalid
| Index (row column : Z) (internalPointer : list nat).

Definition isValid (idx : QModelIndex) : bool :=
  match idx with Invalid => false | Index _ _ _ => true end.

Definition pointer (idx : QModelIndex) : list nat :=
  match idx with Invalid => [] | Index _ _ q => q end.

(** [itemFromIndex(index)]; [None] for a pointer to no item. *)
Definition itemFromIndex (root : ArchiveItem) (idx : QModelIndex)
    : option ArchiveItem :=
  match idx with
  | Invalid => Some root
  | Index _ _ q => node_at q root
  end.

(** [rowCount(parent)] *)
Definition rowCount (root : ArchiveItem) (parent : QModelIndex) : Z :=
  match itemFromIndex root parent with
  | Some pItem => Z.of_nat (List.length (children pItem))
  | None => 0
  end.

(** [columnCount(parent)] *)
Definition columnCount (parent : QModelIndex) : Z := 1.

(** [QAbstractItemModel::hasIndex(row, column, parent)] of Qt. *)
Definition hasIndex (root : ArchiveItem) (row column : Z) (parent : QModelIndex)
    : bool :=
  if (row <? 0)%Z || (column <? 0)%Z then false
  else (row <? rowCount root parent)%Z && (column <? columnCount parent)%Z.

(** [index(row, column, parent)] *)
Definition index (root : ArchiveItem) (row column : Z) (parent : QModelIndex)
    : QModelIndex :=
  if negb (hasIndex root row column parent) then Invalid
  else
    match itemFromIndex root parent with
    | Some pItem =>
        match children pItem !! Z.to_nat row with
        | Some _ => Index row column (pointer parent ++ [Z.to_nat row])
        | None => Invalid
        end
    | None => Invalid
    end.

(** [it->parent] and the place of [it] among the children of that
    parent, for the item at [q]; [None] for the root. *)
Fixpoint parent_of (q : list nat) : option (list nat * nat) :=
  match q with
  | [] => None
  | i :: q' =>
      match parent_of q' with
      | Some (pp, row) => Some (i :: pp, row)
      | None => Some ([], i)
      end
  end.

(** [parent(index)]: [gp->children.indexOf(p)] is the row of [p] in its
    own parent. *)
Definition parent (idx : QModelIndex) : QModelIndex :=
  match idx with
  | Invalid => Invalid
  | Index _ _ q =>
      match parent_of q with
      | None => Invalid
      | Some (p, _) =>
          match parent_of p with
          | None => Invalid
          | Some (_, row) => Index (Z.of_nat row) 0 p
          end
      end
  end.

Inductive ItemDataRole : Type := DisplayRole | DecorationRole | OtherRole.

Inductive Icon : Type := SP_DirIcon | SP_FileIcon | ThemeIcon (iconName : string).

Inductive QVariant : Type :=
| NoValue
| StringValue (s : string)
| IconValue (i : Icon).

(** [data(index, role)] *)
Definition data (root : ArchiveItem) (idx : QModelIndex) (role : ItemDataRole)
    : QVariant :=
  match idx with
  | Invalid => NoValue
  | Index _ _ q =>
      match node_at q root with
      | Some it =>
          match role with
          | DisplayRole => StringValue (name it)
          | DecorationRole =>
              match type it with
              | Folder => IconValue SP_DirIcon
              | ArchiveFolder => IconValue (ThemeIcon "package-x-generic")
              | File => IconValue SP_FileIcon
              end
          | OtherRole => NoValue
          end
      | None => NoValue
      end
  end.

Inductive ItemFlag : Type := ItemIsEnabled | ItemIsSelectable | ItemIsDropEnabled.

(** [flags(index)] *)
Definition flags (idx : QModelIndex) : list ItemFlag :=
  match idx with
  | Invalid => []
  | Index _ _ _ => [ItemIsEnabled; ItemIsSelectable; ItemIsDropEnabled]
  end.

(** [pathForIndex(idx)] *)
Definition pathForIndex (root : ArchiveItem) (idx : QModelIndex) : string :=
  match idx with
  | Invalid => ""
  | Index _ _ q =>
      match node_at q root with
      | Some it => fullPathInArchive it
      | None => ""
      end
  end.

(** An index as [index] makes them for [root]: invalid, or in column 0
    with a pointer to an item and the row of that item in its parent. *)
Definition well_formed (root : ArchiveItem) (idx : QModelIndex) : Prop :=
  match idx with
  | Invalid => True
  | Index row column q =>
      column = 0%Z
      /\ (exists p r, parent_of q = Some (p, r) /\ row = Z.of_nat r)
      /\ (exists it, node_at q root = Some it)
  end.

End ArchiveModel.

(* ===================================================================== *)
(** * The rest of MainWindow *)
(* ===================================================================== *)

Section MoreFlows.

Context {World : Type} `{Host World}.

Local Abbreviation M := (M World).
Local Abbreviation MainWindow := (MainWindow World).

(** [CliArchiveHandler::extractAll(destDir)] *)
Definition extractAll (h : CliArchiveHandler) (destDir : string) : M bool :=
  do p <- run "unzip"
            ((if negb (QString.isEmpty (m_password h)) then ["-P"; m_password h] else [])
             ++ [m_archive h; "-d"; destDir]);
  ret (exitCode p =? 0)%Z.

(** [onArchiveExpanded(idx)] *)
Definition onArchiveExpanded (idx : ArchiveModel.QModelIndex) : M unit :=
  match idx with
  | ArchiveModel.Invalid => ret tt
  | ArchiveModel.Index _ _ q =>
      do root <- get archiveModel;
      match node_at q root with
      | None => ret tt
      | Some it =>
          if childrenPopulated it then ret tt
          else
            let prefix := if QString.endsWith (fullPathInArchive it) "/"
                          then fullPathInArchive it
                          else fullPathInArchive it ++ "/" in
            do b <- get backend;
            do entries <- listEntries b prefix;
            do _ <- modify (fun s =>
                      set_archiveModel
                        (populateAt q entries prefix (archiveModel s)) s);
            modify (fun s =>
              set_archiveModel (update_at q set_populated (archiveModel s)) s)
      end
  end.

(** [onArchiveCollapsed(idx)] *)
Definition onArchiveCollapsed (idx : ArchiveModel.QModelIndex) : M unit := ret tt.

(** The "Add Folder" branch of [onArchiveContextMenu] (lines 435-462)
    for the item at pointer [q].  The placeholder file is written with
    no bytes, which leaves the new temporary file as it is. *)
Definition addFolderAction (q : list nat) : M unit :=
  do answer <- getText "New Folder" "Folder Name:";
  let (folderName, ok) := answer in
  if ok && negb (QString.isEmpty folderName) then
    do _ <- modify (fun s =>
              set_archiveModel
                (update_at q (attach_folder folderName) (archiveModel s)) s);
    do tmp <- temporaryFile;
    do b <- get backend;
    do _ <- addFiles b [tmp] "";
    modify (set_status "Added folder (placeholder created)")
  else ret tt.

(** The "Remove" branch of [onArchiveContextMenu] (lines 463-478) for
    the item at pointer [q]. *)
Definition removeAction (q : list nat) : M unit :=
  do root <- get archiveModel;
  match node_at q root with
  | None => ret tt
  | Some it =>
      let toRemove := collectPathsRecursively it [] in
      do b <- get backend;
      do ok <- removeEntries b toRemove;
      if negb ok then
        warning "Remove failed"
          "Backend failed to remove entries (CLI may rebuild archive)."
      else
        do _ <- modify (fun s =>
                  set_archiveModel (remove_at q (archiveModel s)) s);
        modify (set_status "Removed selected entry/entries")
  end.

(** The pool holds no password twice and not the empty one. *)
Definition pool_ok (s : MainWindow) : Prop :=
  NoDup (globalPasswords s) /\ ~ In "" (globalPasswords s).

(** The action [m] keeps the property [I] of the window. *)
Definition preserves {A : Type} (I : MainWindow -> Prop) (m : M A) : Prop :=
  forall s, I s -> I (snd (m s)).

(** [s'] is [s] after [loadArchiveEntries] for [archivePath], reached
    with password [pw]: the cache has [pw] for the archive, the backend
    carries it, the breadcrumb is the one frame of the archive and the
    tree is a listing that is not empty, put below the emptied root. *)
Definition opened_with (archivePath pw : string) (s s' : MainWindow) : Prop :=
  passwordCache s' !! archivePath = Some pw
  /\ backend s' = mkCliArchiveHandler (m_archive (backend s)) pw
  /\ archiveStack s' = [QFileInfo_fileName archivePath]
  /\ status s' = "Opened: " ++ archivePath
  /\ currentArchive s' = currentArchive s
  /\ exists entries,
       entries <> []
       /\ archiveModel s'
          = populateFromList entries "" (clear (archiveModel s)).

(** What is shown is in [s'] as in [s]: cache, pool, breadcrumb, tree,
    current archive, manifest text, status, and the archive of the
    backend (its password may differ). *)
Definition untouched (s s' : MainWindow) : Prop :=
  passwordCache s' = passwordCache s
  /\ globalPasswords s' = globalPasswords s
  /\ archiveStack s' = archiveStack s
  /\ archiveModel s' = archiveModel s
  /\ currentArchive s' = currentArchive s
  /\ metadataView s' = metadataView s
  /\ status s' = status s
  /\ m_archive (backend s') = m_archive (backend s).

(** The number of password dialogs among the events. *)
Definition prompts (evs : list Event) : nat :=
  List.length
    (List.filter (fun ev => match ev with EvGetText _ _ => true | _ => false end) evs).

(** The action shows at most [n] password dialogs. *)
Definition asks {A : Type} (n : nat) (m : M A) : Prop :=
  forall s, exists evs,
    journal (snd (m s)) = (journal s ++ evs)%list /\ (prompts evs <= n)%nat.

(** The window [s'] shows the archive that [s] shows: breadcrumb, tree,
    current archive, manifest text, status and the archive of the
    backend. *)
Definition same_place (s s' : MainWindow) : Prop :=
  archiveStack s' = archiveStack s
  /\ archiveModel s' = archiveModel s
  /\ currentArchive s' = currentArchive s
  /\ metadataView s' = metadataView s
  /\ status s' = status s
  /\ m_archive (backend s') = m_archive (backend s).

(** The window [s'] is [s] gone down into the nested archive [entry]:
    one more frame on the breadcrumb, and a new backend without
    password on the extracted file, which is the current archive. *)
Definition descended (entry : string) (s s' : MainWindow) : Prop :=
  archiveStack s'
  = (archiveStack s
     ++ [(QFileInfo_fileName (currentArchive s) ++ ":" ++ entry)%string])%list
  /\ backend s' = mkCliArchiveHandler (currentArchive s') ""
  /\ exists entries,
       archiveModel s' = populateFromList entries "" (clear (archiveModel s)).

End MoreFlows.

(** [toyHost] with a file system in which files exist or not, and a file
    dialog that returns [chosen]. *)
Definition toyHostAt (sc : Scenario) (filesExist : bool) (chosen : string)
    : Host unit :=
  {| QProcess_run := fun program args w => (toy_process sc program args, w);
     QFile_exists := fun _ _ => filesExist;
     QDir_temp := fun _ => "/tmp";
     QUuid_createUuid := fun w => ("{7f}", w);
     QDir_mkpath := fun _ w => w;
     QTemporaryFile_open := fun w => ("/tmp/qt_temp.a1", w);
     QFile_writeJson := fun _ _ w => w;
     QFile_readJson := fun _ _ =>
       Some (manifestObject (mkArchiveMetadata "2.1" "2023-01-01T00:00:00" ["a"; "b"]));
     QDateTime_currentDateTime := fun _ => "2024-05-01T10:00:00";
     QInputDialog_getText := fun _ _ w => (sc_answer sc, w);
     QFileDialog_getOpenFileName := fun w => (chosen, w) |}.

(** The user types [docs] into a dialog and confirms. *)
Definition types_docs : Scenario :=
  mkScenario "" ["a/b.txt"; "x"] "" true ("docs", true).

(** The toy window showing the tree of [a/b.txt] and [x]. *)
Definition toyTreeWindow : MainWindow unit :=
  set_archiveModel (populateFromList ["a/b.txt"; "x"] "" root0) (toyWindow ∅ ["x"]).

(** A host for the archive [/home/u/A.vfsarc] with the entries [outer]:
    [unzip] lists them for that archive and [readme.txt] for any other
    one, and extracts an entry only when it is one of [outer]; every
    dialog is confirmed with the empty password. *)
Definition member_process (outer : list string) (program : string)
    (args : list string) : ProcessResult :=
  if String.eqb program "unzip" then
    match args with
    | ["-Z"; "-1"; archive] =>
        mkProcessResult 0
          (if String.eqb archive "/home/u/A.vfsarc" then outer else ["readme.txt"])
    | [_; entry; "-d"; _] =>
        mkProcessResult (if existsb (String.eqb entry) outer then 0 else 11) []
    | _ => mkProcessResult 10 []
    end
  else mkProcessResult 0 [].

Definition memberHost (outer : list string) : Host unit :=
  {| QProcess_run := fun program args w => (member_process outer program args, w);
     QFile_exists := fun _ _ => true;
     QDir_temp := fun _ => "/tmp";
     QUuid_createUuid := fun w => ("{7f}", w);
     QDir_mkpath := fun _ w => w;
     QTemporaryFile_open := fun w => ("/tmp/qt_temp.a1", w);
     QFile_writeJson := fun _ _ w => w;
     QFile_readJson := fun _ _ => None;
     QDateTime_currentDateTime := fun _ => "2024-05-01T10:00:00";
     QInputDialog_getText := fun _ _ w => (("", true), w);
     QFileDialog_getOpenFileName := fun w => ("/home/u/A.vfsarc", w) |}.

(** The window after [onOpenArchive] on [/home/u/A.vfsarc] with the
    entries [outer]. *)
Definition opened_on (outer : list string) : MainWindow unit :=
  snd (@onOpenArchive unit (memberHost outer) (newMainWindow tt)).


(* ===================================================================== *)
(** * Properties of trees *)
(* ===================================================================== *)

(** ** Unfolding lemmas *)

Lemma every_node_unfold P t :
  every_node P t <-> P t /\ Forall (every_node P) (children t).
Proof.
  destruct t as [n ty cs fp pop]; simpl.
  split; intros [Ht Hcs]; (split; [exact Ht|]).
  - clear Ht. induction cs as [|c cs IH]; constructor; [apply Hcs | apply IH, Hcs].
  - clear Ht. induction Hcs as [|c cs Hc _ IH]; [exact I | split; assumption].
Qed.

Lemma set_children_same t : set_children t (children t) = t.
Proof. destruct t; reflexivity. Qed.

Lemma find_child_name part cs ch :
  find_child part cs = Some ch -> name ch = part.
Proof.
  induction cs as [|c cs IH]; simpl; [discriminate|].
  destruct (String.eqb (name c) part) eqn:E.
  - intros [= <-]. apply String.eqb_eq, E.
  - exact IH.
Qed.

Lemma find_child_None part cs :
  find_child part cs = None <-> ~ In part (map name cs).
Proof.
  induction cs as [|c cs IH]; simpl.
  - tauto.
  - destruct (String.eqb (name c) part) eqn:E.
    + apply String.eqb_eq in E. split; [discriminate | tauto].
    + apply String.eqb_neq in E. tauto.
Qed.

Lemma find_child_app part cs more :
  find_child part (cs ++ more)
  = match find_child part cs with
    | Some c => Some c
    | None => find_child part more
    end.
Proof.
  induction cs as [|c cs IH]; simpl; [reflexivity|].
  destruct (String.eqb (name c) part); [reflexivity | exact IH].
Qed.

Lemma descend_None part k cs :
  descend part k cs = None <-> find_child part cs = None.
Proof.
  induction cs as [|c cs IH]; simpl; [tauto|].
  destruct (String.eqb (name c) part); [split; discriminate|].
  destruct (descend part k cs); simpl.
  - split; [discriminate|]. intros Hf. apply IH in Hf. discriminate.
  - split; [intros _; apply IH|]; reflexivity.
Qed.

Lemma descend_fixed part k cs ch :
  find_child part cs = Some ch -> k ch = ch -> descend part k cs = Some cs.
Proof.
  induction cs as [|c cs IH]; simpl; [discriminate|].
  destruct (String.eqb (name c) part).
  - intros [= ->] ->. reflexivity.
  - intros Hf Hk. rewrite (IH Hf Hk). reflexivity.
Qed.

Lemma descend_names part k cs cs' :
  (forall c, name (k c) = name c) ->
  descend part k cs = Some cs' -> map name cs' = map name cs.
Proof.
  intros Hk. revert cs'.
  induction cs as [|c cs IH]; simpl; intros cs'; [discriminate|].
  destruct (String.eqb (name c) part).
  - intros [= <-]. simpl. rewrite Hk. reflexivity.
  - destruct (descend part k cs) as [r|]; simpl; [|discriminate].
    intros [= <-]. simpl. rewrite (IH r eq_refl). reflexivity.
Qed.

Lemma descend_Forall (P : ArchiveItem -> Prop) part k cs cs' :
  (forall c, P c -> P (k c)) ->
  descend part k cs = Some cs' -> Forall P cs -> Forall P cs'.
Proof.
  intros Hk. revert cs'.
  induction cs as [|c cs IH]; simpl; intros cs'; [discriminate|].
  destruct (String.eqb (name c) part).
  - intros [= <-] Hall. inversion Hall; subst. constructor; auto.
  - destruct (descend part k cs) as [r|]; simpl; [|discriminate].
    intros [= <-] Hall. inversion Hall; subst. constructor; auto.
Qed.

(** Where [descend] succeeds, each position holds the old child or, at
    the first child called [part], what [k] makes of it. *)
Lemma descend_lookup part k cs cs' i c' :
  descend part k cs = Some cs' -> cs' !! i = Some c' ->
  cs !! i = Some c' \/ exists c, cs !! i = Some c /\ name c = part /\ c' = k c.
Proof.
  revert cs' i.
  induction cs as [|c cs IH]; simpl; intros cs' i; [discriminate|].
  destruct (String.eqb (name c) part) eqn:E.
  - intros [= <-]. destruct i as [|i]; simpl.
    + intros [= <-]. right. exists c. apply String.eqb_eq in E. auto.
    + auto.
  - destruct (descend part k cs) as [r|]; simpl; [|discriminate].
    intros [= <-]. destruct i as [|i]; simpl; [auto|].
    intros Hi. apply (IH r i eq_refl Hi).
Qed.

Lemma descend_keeps part k cs cs' i c :
  descend part k cs = Some cs' -> cs !! i = Some c ->
  cs' !! i = Some c \/ (name c = part /\ cs' !! i = Some (k c)).
Proof.
  revert cs' i.
  induction cs as [|c0 cs IH]; simpl; intros cs' i; [discriminate|].
  destruct (String.eqb (name c0) part) eqn:E.
  - intros [= <-]. destruct i as [|i]; simpl.
    + intros [= <-]. right. apply String.eqb_eq in E. auto.
    + auto.
  - destruct (descend part k cs) as [r|]; simpl; [|discriminate].
    intros [= <-]. destruct i as [|i]; simpl; [auto|].
    intros Hi. apply (IH r i eq_refl Hi).
Qed.

Lemma find_child_descend part q k cs cs' :
  (forall c, name (k c) = name c) ->
  descend q k cs = Some cs' ->
  find_child part cs'
  = if String.eqb part q then option_map k (find_child part cs)
    else find_child part cs.
Proof.
  intros Hk. revert cs'.
  induction cs as [|c cs IH]; simpl; intros cs'; [discriminate|].
  destruct (String.eqb (name c) q) eqn:E.
  - intros [= <-]. simpl. rewrite Hk.
    apply String.eqb_eq in E. rewrite E.
    destruct (String.eqb part q) eqn:Epq.
    + apply String.eqb_eq in Epq. subst part. rewrite String.eqb_refl. reflexivity.
    + rewrite String.eqb_sym, Epq. reflexivity.
  - destruct (descend q k cs) as [r|]; simpl; [|discriminate].
    intros [= <-]. simpl. rewrite (IH r eq_refl).
    destruct (String.eqb (name c) part) eqn:Ec; [|reflexivity].
    apply String.eqb_eq in Ec. subst part. rewrite E. reflexivity.
Qed.

(** ** The walk keeps the node it starts from *)

Lemma walk_attrs e parts accum cur :
  name (walk e parts accum cur) = name cur
  /\ type (walk e parts accum cur) = type cur
  /\ fullPathInArchive (walk e parts accum cur) = fullPathInArchive cur
  /\ childrenPopulated (walk e parts accum cur) = childrenPopulated cur.
Proof.
  destruct parts as [|part rest]; simpl; [auto|].
  destruct (descend part (walk e rest accum) (children cur)); simpl; auto.
Qed.

Lemma walk_name e parts accum cur : name (walk e parts accum cur) = name cur.
Proof. apply walk_attrs. Qed.

Lemma walk_fullPath e parts accum cur :
  fullPathInArchive (walk e parts accum cur) = fullPathInArchive cur.
Proof. apply walk_attrs. Qed.

Lemma populate_entry_attrs prefix cur e :
  name (populate_entry prefix cur e) = name cur
  /\ type (populate_entry prefix cur e) = type cur
  /\ fullPathInArchive (populate_entry prefix cur e) = fullPathInArchive cur
  /\ childrenPopulated (populate_entry prefix cur e) = childrenPopulated cur.
Proof.
  unfold populate_entry.
  destruct (negb (QString.isEmpty prefix) && negb (QString.startsWith e prefix));
    [auto | apply walk_attrs].
Qed.

Lemma populateFromList_attrs entries prefix cur :
  name (populateFromList entries prefix cur) = name cur
  /\ type (populateFromList entries prefix cur) = type cur
  /\ fullPathInArchive (populateFromList entries prefix cur) = fullPathInArchive cur
  /\ childrenPopulated (populateFromList entries prefix cur) = childrenPopulated cur.
Proof.
  unfold populateFromList. revert cur.
  induction entries as [|e es IH]; intros cur; simpl; [auto|].
  destruct (IH (populate_entry prefix cur e)) as (-> & -> & -> & ->).
  apply populate_entry_attrs.
Qed.

Lemma populateAt_attrs path entries prefix t :
  name (populateAt path entries prefix t) = name t
  /\ type (populateAt path entries prefix t) = type t
  /\ fullPathInArchive (populateAt path entries prefix t) = fullPathInArchive t
  /\ childrenPopulated (populateAt path entries prefix t) = childrenPopulated t.
Proof.
  destruct path as [|i path]; simpl; [apply populateFromList_attrs|].
  destruct (children t !! i); simpl; auto.
Qed.

(** ** Sibling names stay distinct *)

Lemma walk_siblings_distinct e parts :
  forall accum cur,
    siblings_distinct cur -> siblings_distinct (walk e parts accum cur).
Proof.
  unfold siblings_distinct.
  induction parts as [|part rest IH]; intros accum cur Hcur; simpl; [exact Hcur|].
  apply every_node_unfold in Hcur. destruct Hcur as [Hnd Hall].
  destruct (descend part (walk e rest accum) (children cur)) as [cs|] eqn:E;
    apply every_node_unfold; simpl.
  - split.
    + rewrite (descend_names _ _ _ _ (walk_name e rest accum) E). exact Hnd.
    + apply (descend_Forall _ _ _ _ _ (IH accum) E Hall).
  - apply descend_None, find_child_None in E.
    split.
    + rewrite map_app. simpl. rewrite walk_name. simpl.
      apply NoDup_app. repeat split.
      * exact Hnd.
      * intros x Hx Hx'. apply list_elem_of_In in Hx.
        apply list_elem_of_singleton in Hx'. subst x. auto.
      * apply NoDup_singleton.
    + apply Forall_app. split; [exact Hall|].
      constructor; [|constructor].
      apply IH. apply every_node_unfold. simpl. split; constructor.
Qed.

Lemma populateFromList_siblings_distinct entries prefix cur :
  siblings_distinct cur -> siblings_distinct (populateFromList entries prefix cur).
Proof.
  unfold populateFromList. revert cur.
  induction entries as [|e es IH]; intros cur Hcur; simpl; [exact Hcur|].
  apply IH. unfold populate_entry.
  destruct (negb (QString.isEmpty prefix) && negb (QString.startsWith e prefix));
    [exact Hcur | apply walk_siblings_distinct, Hcur].
Qed.

Lemma populateAt_siblings_distinct path entries prefix :
  forall t, siblings_distinct t -> siblings_distinct (populateAt path entries prefix t).
Proof.
  induction path as [|i path IH]; intros t Ht; simpl.
  - apply populateFromList_siblings_distinct, Ht.
  - destruct (children t !! i) as [ch|] eqn:Ei; [|exact Ht].
    unfold siblings_distinct in *.
    apply every_node_unfold in Ht. destruct Ht as [Hnd Hall].
    apply every_node_unfold. simpl. split.
    + change (NoDup (name <$> <[i:=populateAt path entries prefix ch]> (children t))).
      rewrite list_fmap_insert.
      replace (name (populateAt path entries prefix ch)) with (name ch)
        by (symmetry; apply populateAt_attrs).
      rewrite list_insert_id; [exact Hnd|].
      rewrite list_lookup_fmap, Ei. reflexivity.
    + apply Forall_insert; [exact Hall|].
      apply IH. rewrite Forall_lookup in Hall. apply (Hall i ch Ei).
Qed.

Lemma produced_siblings_distinct t : produced t -> siblings_distinct t.
Proof.
  induction 1 as [|t path entries prefix _ IH].
  - apply every_node_unfold. simpl. split; constructor.
  - apply populateAt_siblings_distinct, IH.
Qed.

Lemma produced_root_path t : produced t -> fullPathInArchive t = "".
Proof.
  induction 1 as [|t path entries prefix _ IH]; [reflexivity|].
  destruct (populateAt_attrs path entries prefix t) as (_ & _ & -> & _). exact IH.
Qed.

(** ** Entries that are present *)

Lemma walk_present_fixed e parts :
  forall accum cur, present parts cur = true -> walk e parts accum cur = cur.
Proof.
  induction parts as [|part rest IH]; intros accum cur; simpl; [reflexivity|].
  destruct (find_child part (children cur)) as [ch|] eqn:Ef; [|discriminate].
  intros Hp.
  rewrite (descend_fixed _ _ _ _ Ef (IH accum ch Hp)).
  apply set_children_same.
Qed.

Lemma present_after_walk e parts :
  forall accum cur, present parts (walk e parts accum cur) = true.
Proof.
  induction parts as [|part rest IH]; intros accum cur; simpl; [reflexivity|].
  destruct (descend part (walk e rest accum) (children cur)) as [cs|] eqn:E; simpl.
  - rewrite (find_child_descend part part _ _ _ (walk_name e rest accum) E).
    rewrite String.eqb_refl.
    destruct (find_child part (children cur)) as [ch|] eqn:Ef; simpl.
    + apply IH.
    + apply (descend_None part (walk e rest accum)) in Ef. congruence.
  - apply descend_None in E.
    rewrite find_child_app, E. simpl.
    rewrite walk_name. simpl. rewrite String.eqb_refl. apply IH.
Qed.

Lemma present_walk_mono parts :
  forall cur e' parts' accum',
    present parts cur = true ->
    present parts (walk e' parts' accum' cur) = true.
Proof.
  induction parts as [|part rest IH]; intros cur e' parts' accum'; simpl;
    [reflexivity|].
  destruct (find_child part (children cur)) as [ch|] eqn:Ef; [|discriminate].
  intros Hp.
  destruct parts' as [|q rest']; simpl; [rewrite Ef; exact Hp|].
  destruct (descend q (walk e' rest' accum') (children cur)) as [cs|] eqn:E; simpl.
  - rewrite (find_child_descend part q _ _ _ (walk_name e' rest' accum') E), Ef.
    destruct (String.eqb part q); simpl; [apply IH, Hp | exact Hp].
  - rewrite find_child_app, Ef. exact Hp.
Qed.

Lemma populate_entry_parts prefix cur e :
  populate_entry prefix cur e
  = match entry_parts prefix e with
    | Some parts => walk e parts prefix cur
    | None => cur
    end.
Proof.
  unfold populate_entry, entry_parts.
  destruct (negb (QString.isEmpty prefix) && negb (QString.startsWith e prefix));
    reflexivity.
Qed.

Lemma populate_entry_present_fixed prefix cur e :
  entry_present prefix cur e = true -> populate_entry prefix cur e = cur.
Proof.
  unfold entry_present. rewrite populate_entry_parts.
  destruct (entry_parts prefix e); [apply walk_present_fixed | reflexivity].
Qed.

Lemma entry_present_after prefix cur e :
  entry_present prefix (populate_entry prefix cur e) e = true.
Proof.
  unfold entry_present. rewrite populate_entry_parts.
  destruct (entry_parts prefix e); [apply present_after_walk | reflexivity].
Qed.

Lemma entry_present_mono prefix cur e e' :
  entry_present prefix cur e = true ->
  entry_present prefix (populate_entry prefix cur e') e = true.
Proof.
  unfold entry_present. rewrite populate_entry_parts.
  destruct (entry_parts prefix e) as [parts|]; [|reflexivity].
  destruct (entry_parts prefix e'); [apply present_walk_mono | auto].
Qed.

Lemma entries_present_after entries prefix :
  forall cur,
    Forall (fun e => entry_present prefix (populateFromList entries prefix cur) e = true)
           entries.
Proof.
  assert (Hmono : forall es cur e,
             entry_present prefix cur e = true ->
             entry_present prefix (populateFromList es prefix cur) e = true).
  { unfold populateFromList.
    induction es as [|e' es IH]; intros cur e He; simpl; [exact He|].
    apply IH, entry_present_mono, He. }
  induction entries as [|e es IH]; intros cur; constructor.
  - apply (Hmono es), entry_present_after.
  - apply (IH (populate_entry prefix cur e)).
Qed.

Lemma populateFromList_present_fixed entries prefix cur :
  Forall (fun e => entry_present prefix cur e = true) entries ->
  populateFromList entries prefix cur = cur.
Proof.
  unfold populateFromList.
  induction 1 as [|e es He _ IH]; simpl; [reflexivity|].
  rewrite (populate_entry_present_fixed _ _ _ He). exact IH.
Qed.

(** ** Nodes that exist stay where and what they are *)

Lemma walk_keeps_nodes e parts :
  forall accum cur path n,
    node_at path cur = Some n ->
    exists n', node_at path (walk e parts accum cur) = Some n' /\ same_node n n'.
Proof.
  induction parts as [|part rest IH]; intros accum cur path n Hn.
  - exists n. unfold same_node. auto.
  - destruct path as [|i path].
    + simpl in Hn. injection Hn as <-.
      exists (walk e (part :: rest) accum cur). split; [reflexivity|].
      apply walk_attrs.
    + simpl in Hn.
      destruct (children cur !! i) as [c|] eqn:Ei; [|discriminate].
      cbn [walk].
      destruct (descend part (walk e rest accum) (children cur)) as [cs|] eqn:E.
      * destruct (descend_keeps _ _ _ _ _ _ E Ei) as [Hi | [_ Hi]];
          cbn [node_at set_children children]; rewrite Hi.
        -- exists n. unfold same_node. auto.
        -- apply IH, Hn.
      * cbn [node_at set_children children].
        rewrite (lookup_app_l_Some _ _ _ _ Ei).
        exists n. unfold same_node. auto.
Qed.

Lemma populateFromList_keeps_nodes entries prefix :
  forall cur path n,
    node_at path cur = Some n ->
    exists n', node_at path (populateFromList entries prefix cur) = Some n'
               /\ same_node n n'.
Proof.
  unfold populateFromList.
  induction entries as [|e es IH]; intros cur path n Hn; simpl.
  - exists n. unfold same_node. auto.
  - assert (exists m, node_at path (populate_entry prefix cur e) = Some m
                      /\ same_node n m) as (m & Hm & Hsame).
    { rewrite populate_entry_parts.
      destruct (entry_parts prefix e).
      - apply walk_keeps_nodes, Hn.
      - exists n. unfold same_node. auto. }
    destruct (IH _ _ _ Hm) as (n' & Hn' & Hsame').
    exists n'. split; [exact Hn'|].
    unfold same_node in *. intuition congruence.
Qed.

(** ** Paths of freshly made chains *)

Lemma walk_chain_paths e rest :
  forall accum it,
    children it = [] -> fullPathInArchive it = accum ->
    paths_joined (walk e rest accum it).
Proof.
  unfold paths_joined.
  induction rest as [|part rest IH]; intros accum it Hnil Hacc; simpl.
  - apply every_node_unfold. rewrite Hnil. split; constructor.
  - rewrite Hnil. cbn [descend app].
    apply every_node_unfold. cbn [set_children children fullPathInArchive]. split.
    + constructor; [|constructor].
      rewrite walk_name, walk_fullPath. simpl. rewrite Hacc. reflexivity.
    + constructor; [|constructor]. apply IH; reflexivity.
Qed.

Lemma walk_fresh_paths e part rest accum cur :
  paths_joined cur -> fullPathInArchive cur = accum ->
  find_child part (children cur) = None ->
  paths_joined (walk e (part :: rest) accum cur).
Proof.
  unfold paths_joined. intros Hcur Hacc Hf. cbn [walk].
  apply (descend_None part (walk e rest accum)) in Hf. rewrite Hf.
  apply every_node_unfold in Hcur. destruct Hcur as [Hhere Hall].
  apply every_node_unfold. cbn [set_children children fullPathInArchive]. split.
  - apply Forall_app. split; [exact Hhere|].
    constructor; [|constructor].
    rewrite walk_name, walk_fullPath. simpl. rewrite Hacc. reflexivity.
  - apply Forall_app. split; [exact Hall|].
    constructor; [|constructor].
    apply (walk_chain_paths e rest); reflexivity.
Qed.

Lemma walk_clean_paths e parts cur :
  paths_joined cur -> fullPathInArchive cur = "" ->
  fresh_or_present parts cur = true ->
  paths_joined (walk e parts "" cur).
Proof.
  intros Hcur Hroot Hclean.
  destruct parts as [|part rest]; [exact Hcur|].
  unfold fresh_or_present in Hclean.
  destruct (find_child part (children cur)) as [ch|] eqn:Ef.
  - rewrite (walk_present_fixed _ _ _ _ Hclean). exact Hcur.
  - apply walk_fresh_paths; assumption.
Qed.

Lemma populate_clean_paths entries :
  forall root,
    paths_joined root -> fullPathInArchive root = "" ->
    fresh_or_present_all entries root = true ->
    paths_joined (populateFromList entries "" root).
Proof.
  unfold populateFromList.
  induction entries as [|e es IH]; intros root Hroot Hpath Hclean; simpl;
    [exact Hroot|].
  simpl in Hclean. apply andb_true_iff in Hclean. destruct Hclean as [He Hes].
  apply IH.
  - apply walk_clean_paths; assumption.
  - destruct (populate_entry_attrs "" root e) as (_ & _ & -> & _). exact Hpath.
  - exact Hes.
Qed.

(** ** The type of a created node *)

Lemma walk_created_type e parts :
  forall accum cur path n,
    node_at path (walk e parts accum cur) = Some n ->
    node_at path cur = None ->
    exists segment,
      parts !! (List.length path - 1)%nat = Some segment
      /\ name n = segment
      /\ type n = classify (negb (List.length path <? List.length parts)%nat)
                           (QString.endsWith e "/") segment.
Proof.
  induction parts as [|part rest IH]; intros accum cur path n Hnew Hold.
  - simpl in Hnew. congruence.
  - destruct path as [|i path]; [discriminate|].
    cbn [walk] in Hnew. simpl in Hold.
    assert (Hsub : forall a c,
               node_at path (walk e rest a c) = Some n ->
               node_at path c = None ->
               exists segment,
                 (part :: rest) !! (List.length (i :: path) - 1)%nat = Some segment
                 /\ name n = segment
                 /\ type n = classify (negb (List.length (i :: path) <? List.length (part :: rest))%nat)
                                      (QString.endsWith e "/") segment).
    { intros a c Hc Hcold.
      destruct (IH _ _ _ _ Hc Hcold) as (seg & Hseg & Hname & Hty).
      destruct path as [|j path]; [discriminate|].
      exists seg. simpl in *. rewrite Nat.sub_0_r in *. auto. }
    destruct (descend part (walk e rest accum) (children cur)) as [cs|] eqn:E;
      cbn [node_at set_children children] in Hnew.
    + destruct (cs !! i) as [c'|] eqn:Ei; [|discriminate].
      destruct (descend_lookup _ _ _ _ _ _ E Ei) as [Hi | (c & Hi & _ & ->)];
        rewrite Hi in Hold.
      * congruence.
      * apply (Hsub _ c Hnew Hold).
    + match type of Hnew with
      | match ?l !! i with _ => _ end = _ =>
          destruct (l !! i) as [c'|] eqn:Ei; [|discriminate]
      end.
      apply lookup_app_Some in Ei. destruct Ei as [Hi | [Hlen Hi]].
      * rewrite Hi in Hold. congruence.
      * apply list_lookup_singleton_Some in Hi. destruct Hi as [_ <-].
        destruct path as [|j path].
        -- simpl in Hnew. injection Hnew as <-.
           exists part.
           match goal with
           | |- context [walk e rest ?a ?it] =>
               destruct (walk_attrs e rest a it) as (Hname & Htype & _)
           end.
           rewrite Hname, Htype. simpl. repeat split.
           unfold node_type, classify. destruct rest; reflexivity.
        -- eapply Hsub; [exact Hnew|]. reflexivity.
Qed.

(** ** Collected paths *)

Lemma ArchiveItem_tree_ind (P : ArchiveItem -> Prop) :
  (forall t, Forall P (children t) -> P t) -> forall t, P t.
Proof.
  intros step. fix go 1. intros [n ty cs fp pop].
  apply step. simpl.
  induction cs as [|c cs IH]; constructor; [apply go | exact IH].
Qed.

Lemma collectPaths_out node :
  forall out, collectPathsRecursively node out = (out ++ descendantPaths node)%list.
Proof.
  induction node as [[n ty cs fp pop] IH] using ArchiveItem_tree_ind.
  intros out. destruct ty; simpl; try reflexivity.
  simpl in IH. revert out. induction IH as [|c cs Hc _ IHcs]; intros out; simpl.
  - rewrite app_nil_r. reflexivity.
  - rewrite IHcs, Hc, <- app_assoc. reflexivity.
Qed.

Lemma populateAt_idempotent path entries prefix :
  forall t,
    populateAt path entries prefix (populateAt path entries prefix t)
    = populateAt path entries prefix t.
Proof.
  induction path as [|i path IH]; intros t; simpl.
  - apply populateFromList_present_fixed, entries_present_after.
  - destruct (children t !! i) as [ch|] eqn:Ei; simpl; [|rewrite Ei; reflexivity].
    rewrite list_lookup_insert_eq by (apply lookup_lt_Some in Ei; exact Ei).
    rewrite IH, list_insert_insert_eq. reflexivity.
Qed.

Lemma populateAt_keeps_nodes path' entries prefix :
  forall t path n,
    node_at path t = Some n ->
    exists n', node_at path (populateAt path' entries prefix t) = Some n'
               /\ same_node n n'.
Proof.
  induction path' as [|i path' IH]; intros t path n Hn; simpl.
  - apply populateFromList_keeps_nodes, Hn.
  - destruct (children t !! i) as [ch|] eqn:Ei;
      [|exists n; unfold same_node; auto].
    destruct path as [|j path].
    + simpl in Hn. injection Hn as <-.
      eexists. split; [reflexivity|]. unfold same_node. simpl. auto.
    + simpl in Hn. simpl.
      destruct (decide (i = j)) as [<-|Hij].
      * rewrite Ei in Hn.
        rewrite list_lookup_insert_eq by (apply lookup_lt_Some in Ei; exact Ei).
        apply IH, Hn.
      * rewrite list_lookup_insert_ne by exact Hij.
        exists n. unfold same_node. auto.
Qed.

(* ===================================================================== *)
(** * The tree: what was checked *)
(* ===================================================================== *)

(** Where the invariant of the tree holds.  In every tree that calls of
    [populateFromList] produce, no two siblings share a name and the path
    of the root is empty.  When entries are put below the root with an
    empty prefix, and each entry is either new from its first segment on
    or wholly there already, a node below an empty path has its name as
    path and every other node has the path of its parent, a slash and its
    name. *)
Theorem materialize_tree_invariant (t : ArchiveItem) (entries : list string) :
  produced t ->
  fresh_or_present_all entries root0 = true ->
  siblings_distinct t
  /\ fullPathInArchive t = ""
  /\ paths_joined (populateFromList entries "" root0).
Proof.
  intros Ht Hclean. split; [|split].
  - apply produced_siblings_distinct, Ht.
  - apply produced_root_path, Ht.
  - apply populate_clean_paths; [|reflexivity|exact Hclean].
    apply every_node_unfold. simpl. split; constructor.
Qed.

Lemma materialize_tree_invariant_witness :
  siblings_distinct
    (populateAt [0] ["a/x"; "a/x"] "a/"
       (populateAt [] ["a/b.txt"; "a/c/d.txt"] "" root0))
  /\ fullPathInArchive
       (populateAt [0] ["a/x"; "a/x"] "a/"
          (populateAt [] ["a/b.txt"; "a/c/d.txt"] "" root0)) = ""
  /\ paths_joined (populateFromList ["a/b/c"; "d.txt"; "a/b/c"; "a/b"] "" root0).
Proof.
  apply materialize_tree_invariant.
  - apply produced_call, produced_call, produced_new.
  - vm_compute. reflexivity.
Defined.

(** The join puts no slash after the empty path of the root: the only
    node made from the entry [readme.txt] has the path [readme.txt], not
    [/readme.txt]. *)
Lemma materialize_literal_path_counterexample :
  produced (populateAt [] ["readme.txt"] "" root0)
  /\ ~ paths_literal (populateAt [] ["readme.txt"] "" root0).
Proof.
  split; [apply produced_call, produced_new|].
  intros Hlit. apply every_node_unfold in Hlit. destruct Hlit as [Hhere _].
  vm_compute in Hhere. inversion Hhere as [|c cs Hc _]. discriminate Hc.
Qed.

(** C2 at the entries of the design document: the code collects
    [c/d.txt] where [a/c/d.txt] is expected, both below the root and
    below the folder [a]. *)
Theorem collectPaths_two_entries :
  collectPathsRecursively (populateFromList ["a/b.txt"; "a/c/d.txt"] "" root0) []
  = ["a/b.txt"; "c/d.txt"]
  /\ (exists a,
        node_at [0] (populateFromList ["a/b.txt"; "a/c/d.txt"] "" root0) = Some a
        /\ name a = "a"
        /\ collectPathsRecursively a [] = ["a/b.txt"; "c/d.txt"]).
Proof.
  split; [vm_compute; reflexivity|].
  eexists. split; [vm_compute; reflexivity|].
  split; vm_compute; reflexivity.
Qed.

(** The same entries in the tree: the folder [c] below [a] has the path
    [c], because the accumulated path is not extended when the walk goes
    through the existing node [a]. *)
Lemma stale_accum_breaks_paths :
  ~ paths_joined (populateFromList ["a/b.txt"; "a/c/d.txt"] "" root0).
Proof.
  intros Hpaths. vm_compute in Hpaths.
  destruct Hpaths as [_ [[Ha _] _]].
  inversion Ha as [|b bs _ Hc]; subst.
  inversion Hc as [|c cs Hpath _]; subst.
  discriminate Hpath.
Qed.

(** C1.  At the entries of the design document, [a/b.txt] and
    [a/c/d.txt], the tree that [populateFromList] produces breaks the
    law that the path of a node is the path of its parent, a slash and
    its name.  The first entry makes [a] with the path [a] and [b.txt]
    with the path [a/b.txt], as the law wants.  The second entry finds
    [a], and the nodes it makes below carry paths that start again from
    nothing: the folder [c] below [a] has the path [c] where the law
    gives [a/c], and [d.txt] below it has [c/d.txt] where the law gives
    [a/c/d.txt]. *)
Theorem materialize_path_law_fails :
  produced (populateAt [] ["a/b.txt"; "a/c/d.txt"] "" root0)
  /\ (exists a b c d,
        node_at [0] (populateFromList ["a/b.txt"; "a/c/d.txt"] "" root0) = Some a
        /\ node_at [0; 0] (populateFromList ["a/b.txt"; "a/c/d.txt"] "" root0) = Some b
        /\ node_at [0; 1] (populateFromList ["a/b.txt"; "a/c/d.txt"] "" root0) = Some c
        /\ node_at [0; 1; 0] (populateFromList ["a/b.txt"; "a/c/d.txt"] "" root0)
           = Some d
        /\ name a = "a" /\ fullPathInArchive a = "a"
        /\ name b = "b.txt" /\ fullPathInArchive b = "a/b.txt"
        /\ fullPathInArchive b = fullPathInArchive a ++ "/" ++ name b
        /\ name c = "c" /\ fullPathInArchive c = "c"
        /\ fullPathInArchive c <> fullPathInArchive a ++ "/" ++ name c
        /\ name d = "d.txt" /\ fullPathInArchive d = "c/d.txt"
        /\ fullPathInArchive d <> "a/c/d.txt")
  /\ ~ paths_joined (populateFromList ["a/b.txt"; "a/c/d.txt"] "" root0)
  /\ ~ paths_literal (populateFromList ["a/b.txt"; "a/c/d.txt"] "" root0).
Proof.
  split; [apply produced_call, produced_new|]. split; [|split].
  - do 4 eexists.
    repeat match goal with
           | |- _ /\ _ => split; [vm_compute; first [reflexivity | discriminate]|]
           end.
    vm_compute. discriminate.
  - exact stale_accum_breaks_paths.
  - intros Hlit. apply every_node_unfold in Hlit. destruct Hlit as [Hhere _].
    vm_compute in Hhere. inversion Hhere as [|x xs Hx _]. discriminate Hx.
Qed.

(** The first half of C2 holds: a file or nested archive gives its own
    path, a folder the paths of its children in their order. *)
Lemma collectPaths_by_kind node out :
  collectPathsRecursively node out
  = (out ++ match type node with
            | File | ArchiveFolder => [fullPathInArchive node]
            | Folder => concat (map descendantPaths (children node))
            end)%list.
Proof.
  rewrite collectPaths_out. f_equal.
  destruct node as [n ty cs fp pop]. destruct ty; simpl; try reflexivity.
  induction cs as [|c cs IH]; simpl; [reflexivity | rewrite IH; reflexivity].
Qed.

(** C4.  A node that [populateFromList] creates for an entry at depth
    [d] below the parent carries segment [d] of the entry, and is a
    Folder when that is not the last segment or the entry ends with a
    slash, else a nested archive when the segment ends with [.vfsarc] in
    any letter case, else a File.  So [pkg.vfsarc] is a nested archive,
    [docs/] a Folder and [readme.txt] a File. *)
Theorem classification_at_creation :
  (forall prefix e parts parentNode path n,
      entry_parts prefix e = Some parts ->
      node_at path (populate_entry prefix parentNode e) = Some n ->
      node_at path parentNode = None ->
      exists segment,
        parts !! (List.length path - 1)%nat = Some segment
        /\ name n = segment
        /\ type n = classify (negb (List.length path <? List.length parts)%nat)
                             (QString.endsWith e "/") segment)
  /\ map type (children (populateFromList ["pkg.vfsarc"] "" root0)) = [ArchiveFolder]
  /\ map type (children (populateFromList ["docs/"] "" root0)) = [Folder]
  /\ map type (children (populateFromList ["readme.txt"] "" root0)) = [File].
Proof.
  split; [|repeat split; vm_compute; reflexivity].
  intros prefix e parts parentNode path n Hparts Hnew Hold.
  rewrite populate_entry_parts, Hparts in Hnew.
  apply (walk_created_type _ _ _ _ _ _ Hnew Hold).
Qed.

Lemma classification_at_creation_witness :
  exists segment,
    ["lib"; "Pkg.VFSARC"] !! (List.length [0; 1] - 1)%nat = Some segment
    /\ "Pkg.VFSARC" = segment
    /\ ArchiveFolder
       = classify (negb (List.length [0; 1] <? List.length ["lib"; "Pkg.VFSARC"])%nat)
                  (QString.endsWith "src/lib/Pkg.VFSARC" "/") segment.
Proof.
  apply (proj1 classification_at_creation "src/" "src/lib/Pkg.VFSARC"
           ["lib"; "Pkg.VFSARC"]
           (populateFromList ["src/lib/a.c"] "src/" root0) [0; 1]
           {| name := "Pkg.VFSARC"; type := ArchiveFolder; children := [];
              fullPathInArchive := "src//Pkg.VFSARC"; childrenPopulated := false |});
    vm_compute; reflexivity.
Defined.

(** C5.  Running [populateFromList] again with the same entries and
    prefix on the subtree it produced changes nothing, at the root or at
    any node of a tree. *)
Theorem populateFromList_idempotent :
  (forall entries prefix parentNode,
      populateFromList entries prefix (populateFromList entries prefix parentNode)
      = populateFromList entries prefix parentNode)
  /\ (forall path entries prefix t,
        populateAt path entries prefix (populateAt path entries prefix t)
        = populateAt path entries prefix t).
Proof.
  split.
  - intros. apply populateFromList_present_fixed, entries_present_after.
  - intros. apply populateAt_idempotent.
Qed.

(** C10.  A node that exists before a call of [populateFromList] is at
    the same place after it, with the same name, type, path and populated
    flag, whatever the entries are and wherever in the tree the call is
    made. *)
Theorem materialize_never_mutates (path' : list nat) (entries : list string)
    (prefix : string) (t : ArchiveItem) (path : list nat) (n : ArchiveItem) :
  node_at path t = Some n ->
  exists n',
    node_at path (populateAt path' entries prefix t) = Some n'
    /\ name n' = name n /\ type n' = type n
    /\ fullPathInArchive n' = fullPathInArchive n
    /\ childrenPopulated n' = childrenPopulated n.
Proof. apply populateAt_keeps_nodes. Qed.

(** A file stays a File when later entries go through its name or name
    it with a trailing slash, and a folder named like an archive stays a
    Folder when a later entry names it as a last segment. *)
Lemma later_entries_do_not_reclassify :
  map type (children (populateFromList ["x.vfsarc/y"; "a"] "" root0)) = [Folder; File]
  /\ map type
       (children (populateAt [] ["a/b"; "a/"; "x.vfsarc"] ""
                    (populateFromList ["x.vfsarc/y"; "a"] "" root0)))
     = [Folder; File].
Proof. split; vm_compute; reflexivity. Qed.

Lemma materialize_never_mutates_witness :
  exists n',
    node_at [1] (populateAt [] ["a/b"; "a/"; "x.vfsarc"] ""
                   (populateFromList ["x.vfsarc/y"; "a"] "" root0)) = Some n'
    /\ name n' = "a" /\ type n' = File
    /\ fullPathInArchive n' = "a"
    /\ childrenPopulated n' = false.
Proof.
  apply (materialize_never_mutates [] ["a/b"; "a/"; "x.vfsarc"] ""
           (populateFromList ["x.vfsarc/y"; "a"] "" root0) [1]
           {| name := "a"; type := File; children := [];
              fullPathInArchive := "a"; childrenPopulated := false |}).
  vm_compute. reflexivity.
Defined.

(* ===================================================================== *)
(** * Reasoning about the flows *)
(* ===================================================================== *)

Section FlowLemmas.

Context {World : Type} `{Host World}.

Local Abbreviation M := (M World).
Local Abbreviation MainWindow := (MainWindow World).

Lemma bind_run {A B : Type} (m : M A) (k : A -> M B) s :
  bind m k s = k (fst (m s)) (snd (m s)).
Proof. unfold bind. destruct (m s). reflexivity. Qed.

Lemma keeps_ret {A X : Type} (f : MainWindow -> X) (a : A) : keeps f (ret a).
Proof. intros s. reflexivity. Qed.

Lemma keeps_get {A X : Type} (f : MainWindow -> X) (g : MainWindow -> A) :
  keeps f (get g).
Proof. intros s. reflexivity. Qed.

Lemma keeps_bind {A B X : Type} (f : MainWindow -> X) (m : M A) (k : A -> M B) :
  keeps f m -> (forall a, keeps f (k a)) -> keeps f (bind m k).
Proof. intros Hm Hk s. rewrite bind_run, Hk, Hm. reflexivity. Qed.

Lemma keeps_modify {X : Type} (f : MainWindow -> X) (g : MainWindow -> MainWindow) :
  (forall s, f (g s) = f s) -> keeps f (modify g).
Proof. intros Hg s. apply Hg. Qed.

Lemma keeps_run {X : Type} (f : MainWindow -> X) program args :
  inner f -> keeps f (run program args).
Proof.
  intros [Hw Hj] s. unfold run.
  destruct (QProcess_run program args (world s)). simpl.
  rewrite Hj, Hw. reflexivity.
Qed.

Lemma keeps_getText {X : Type} (f : MainWindow -> X) title label :
  inner f -> keeps f (getText title label).
Proof.
  intros [Hw Hj] s. unfold getText.
  destruct (QInputDialog_getText title label (world s)). simpl.
  rewrite Hj, Hw. reflexivity.
Qed.

Lemma keeps_warning {X : Type} (f : MainWindow -> X) title text :
  inner f -> keeps f (warning title text).
Proof. intros [_ Hj] s. apply Hj. Qed.

Lemma keeps_createUuid {X : Type} (f : MainWindow -> X) :
  inner f -> keeps f createUuid.
Proof.
  intros [Hw _] s. unfold createUuid.
  destruct (QUuid_createUuid (world s)). apply Hw.
Qed.

Lemma keeps_temporaryFile {X : Type} (f : MainWindow -> X) :
  inner f -> keeps f temporaryFile.
Proof.
  intros [Hw _] s. unfold temporaryFile.
  destruct (QTemporaryFile_open (world s)). apply Hw.
Qed.

Lemma keeps_on_world {X : Type} (f : MainWindow -> X) g :
  inner f -> keeps f (on_world g).
Proof. intros [Hw _] s. apply Hw. Qed.

Lemma appends_weaken {A : Type} (Q Q' : Event -> Prop) (m : M A) :
  (forall ev, Q ev -> Q' ev) -> appends Q m -> appends Q' m.
Proof.
  intros HQ Hm s. destruct (Hm s) as (evs & Hj & Hall).
  exists evs. split; [exact Hj|]. eapply Forall_impl; eauto.
Qed.

Lemma appends_silent {A : Type} Q (m : M A) :
  keeps journal m -> appends Q m.
Proof.
  intros Hm s. exists []. rewrite Hm, app_nil_r. split; constructor.
Qed.

Lemma appends_bind {A B : Type} Q (m : M A) (k : A -> M B) :
  appends Q m -> (forall a, appends Q (k a)) -> appends Q (bind m k).
Proof.
  intros Hm Hk s. rewrite bind_run.
  destruct (Hm s) as (evs & Hj & Hall).
  destruct (Hk (fst (m s)) (snd (m s))) as (evs' & Hj' & Hall').
  exists (evs ++ evs')%list. rewrite Hj', Hj, app_assoc.
  split; [reflexivity | apply Forall_app; auto].
Qed.

Lemma appends_run Q program args :
  Q (EvProcess program args) -> appends Q (run (World:=World) program args).
Proof.
  intros HQ s. unfold run.
  destruct (QProcess_run program args (world s)). simpl.
  exists [EvProcess program args]. split; [reflexivity | repeat constructor; exact HQ].
Qed.

Lemma appends_getText Q title label :
  Q (EvGetText title label) -> appends Q (getText (World:=World) title label).
Proof.
  intros HQ s. unfold getText.
  destruct (QInputDialog_getText title label (world s)). simpl.
  exists [EvGetText title label]. split; [reflexivity | repeat constructor; exact HQ].
Qed.

Lemma appends_warning Q title text :
  Q (EvWarning title text) -> appends Q (warning (World:=World) title text).
Proof.
  intros HQ s. exists [EvWarning title text].
  split; [reflexivity | repeat constructor; exact HQ].
Qed.

Lemma appends_createUuid Q : appends Q (createUuid (World:=World)).
Proof.
  apply appends_silent. intros s. unfold createUuid.
  destruct (QUuid_createUuid (world s)). reflexivity.
Qed.

Lemma appends_temporaryFile Q : appends Q (temporaryFile (World:=World)).
Proof.
  apply appends_silent. intros s. unfold temporaryFile.
  destruct (QTemporaryFile_open (world s)). reflexivity.
Qed.

Lemma appends_on_world Q g : appends Q (on_world (World:=World) g).
Proof. apply appends_silent. intros s. reflexivity. Qed.

Lemma inner_backend : inner (@backend World).
Proof. split; reflexivity. Qed.
Lemma inner_currentArchive : inner (@currentArchive World).
Proof. split; reflexivity. Qed.
Lemma inner_passwordCache : inner (@passwordCache World).
Proof. split; reflexivity. Qed.
Lemma inner_globalPasswords : inner (@globalPasswords World).
Proof. split; reflexivity. Qed.
Lemma inner_archiveStack : inner (@archiveStack World).
Proof. split; reflexivity. Qed.
Lemma inner_archiveModel : inner (@archiveModel World).
Proof. split; reflexivity. Qed.

End FlowLemmas.

Create HintDb flows discriminated.

#[export] Hint Resolve keeps_ret keeps_get keeps_run keeps_getText keeps_warning
  keeps_createUuid keeps_temporaryFile keeps_on_world
  inner_backend inner_currentArchive inner_passwordCache inner_globalPasswords
  inner_archiveStack inner_archiveModel
  appends_run appends_getText appends_warning
  appends_createUuid appends_temporaryFile appends_on_world : flows.

(** One step through the shape of an action. *)
Ltac flow_step :=
  lazymatch goal with
  | |- keeps _ (bind _ _) => apply keeps_bind; [|intros ?]
  | |- keeps _ (modify _) => apply keeps_modify; intros ?; reflexivity
  | |- keeps _ (match ?x with _ => _ end) => destruct x
  | |- appends _ (bind _ _) => apply appends_bind; [|intros ?]
  | |- appends _ (ret _) => apply appends_silent, keeps_ret
  | |- appends _ (get _) => apply appends_silent, keeps_get
  | |- appends _ (modify _) => apply appends_silent, keeps_modify; intros ?; reflexivity
  | |- appends _ (match ?x with _ => _ end) => destruct x
  end.

Ltac flow := repeat first [ solve [eauto with flows] | solve [simpl; eauto with flows] | flow_step ].

Section FlowFrames.

Context {World : Type} `{Host World}.

Local Abbreviation M := (M World).
Local Abbreviation MainWindow := (MainWindow World).

Lemma listEntries_run h prefix (s : MainWindow) :
  listEntries h prefix s
  = (keepLines prefix (standardOutput (fst (QProcess_run "unzip" (listArgs h) (world s)))),
     record (EvProcess "unzip" (listArgs h))
       (set_world (snd (QProcess_run "unzip" (listArgs h) (world s))) s)).
Proof.
  unfold listEntries, run. rewrite bind_run.
  destruct (QProcess_run "unzip" (listArgs h) (world s)). reflexivity.
Qed.

Lemma run_run program args (s : MainWindow) :
  run program args s
  = (fst (QProcess_run program args (world s)),
     record (EvProcess program args)
       (set_world (snd (QProcess_run program args (world s))) s)).
Proof.
  unfold run. destruct (QProcess_run program args (world s)). reflexivity.
Qed.

Lemma createUuid_run (s : MainWindow) :
  createUuid s
  = (fst (QUuid_createUuid (world s)), set_world (snd (QUuid_createUuid (world s))) s).
Proof.
  unfold createUuid. destruct (QUuid_createUuid (world s)). reflexivity.
Qed.

Lemma temporaryFile_run (s : MainWindow) :
  temporaryFile s
  = (fst (QTemporaryFile_open (world s)),
     set_world (snd (QTemporaryFile_open (world s))) s).
Proof.
  unfold temporaryFile. destruct (QTemporaryFile_open (world s)). reflexivity.
Qed.

Lemma getText_run title label (s : MainWindow) :
  getText title label s
  = (fst (QInputDialog_getText title label (world s)),
     record (EvGetText title label)
       (set_world (snd (QInputDialog_getText title label (world s))) s)).
Proof.
  unfold getText. destruct (QInputDialog_getText title label (world s)).
  reflexivity.
Qed.

Lemma keeps_listEntries {X : Type} (f : MainWindow -> X) h prefix :
  inner f -> keeps f (listEntries h prefix).
Proof. intros Hf. unfold listEntries. flow. Qed.

Lemma keeps_extractEntryToTemp {X : Type} (f : MainWindow -> X) h entry :
  inner f -> keeps f (extractEntryToTemp h entry).
Proof. intros Hf. unfold extractEntryToTemp. flow. Qed.

Lemma keeps_addFiles {X : Type} (f : MainWindow -> X) h files dest :
  inner f -> keeps f (addFiles h files dest).
Proof. intros Hf. unfold addFiles. flow. Qed.

Lemma keeps_loadMetadata {X : Type} (f : MainWindow -> X) h :
  inner f -> keeps f (loadMetadata h).
Proof.
  intros Hf. unfold loadMetadata.
  pose proof (keeps_extractEntryToTemp f h ".manifest.json" Hf).
  pose proof (fun files dest => keeps_addFiles f h files dest Hf).
  flow.
Qed.

Lemma appends_listEntries Q h prefix :
  (forall p a, Q (EvProcess p a)) -> appends Q (listEntries (World:=World) h prefix).
Proof. intros HQ. unfold listEntries. flow. Qed.

Lemma appends_extractEntryToTemp Q h entry :
  (forall p a, Q (EvProcess p a)) -> appends Q (extractEntryToTemp (World:=World) h entry).
Proof. intros HQ. unfold extractEntryToTemp. flow. Qed.

Lemma appends_addFiles Q h files dest :
  (forall p a, Q (EvProcess p a)) -> appends Q (addFiles (World:=World) h files dest).
Proof. intros HQ. unfold addFiles. flow. Qed.

Lemma appends_loadMetadata Q h :
  (forall p a, Q (EvProcess p a)) -> appends Q (loadMetadata (World:=World) h).
Proof.
  intros HQ. unfold loadMetadata.
  pose proof (appends_extractEntryToTemp Q h ".manifest.json" HQ).
  pose proof (fun files dest => appends_addFiles Q h files dest HQ).
  flow.
Qed.

End FlowFrames.

Section PasswordFlows.

Context {World : Type} `{Host World}.

Local Abbreviation M := (M World).
Local Abbreviation MainWindow := (MainWindow World).

Lemma try_listing pw {A : Type} (k : list string -> M A) (s : MainWindow) :
  (do _ <- setPassword pw;
   do b <- get backend;
   do entries <- listEntries b "";
   k entries) s
  = k (listing (mkCliArchiveHandler (m_archive (backend s)) pw) (world s))
      (after_listing pw s).
Proof.
  rewrite bind_run. cbn [setPassword modify fst snd].
  rewrite bind_run. cbn [get fst snd].
  rewrite bind_run, listEntries_run. reflexivity.
Qed.

Lemma keeps_loadArchiveEntries_cache entries archivePath :
  keeps (@passwordCache World) (loadArchiveEntries entries archivePath).
Proof.
  unfold loadArchiveEntries, updateStatusBar.
  pose proof (fun h => keeps_loadMetadata (@passwordCache World) h inner_passwordCache).
  flow.
Qed.

Lemma keeps_loadArchiveEntries_pool entries archivePath :
  keeps (@globalPasswords World) (loadArchiveEntries entries archivePath).
Proof.
  unfold loadArchiveEntries, updateStatusBar.
  pose proof (fun h => keeps_loadMetadata (@globalPasswords World) h inner_globalPasswords).
  flow.
Qed.

Lemma keeps_loadArchiveEntries_backend entries archivePath :
  keeps (@backend World) (loadArchiveEntries entries archivePath).
Proof.
  unfold loadArchiveEntries, updateStatusBar.
  pose proof (fun h => keeps_loadMetadata (@backend World) h inner_backend).
  flow.
Qed.

Lemma appends_loadArchiveEntries Q entries archivePath :
  (forall p a, Q (EvProcess p a)) ->
  appends Q (loadArchiveEntries (World:=World) entries archivePath).
Proof.
  intros HQ. unfold loadArchiveEntries, updateStatusBar.
  pose proof (fun h => appends_loadMetadata Q h HQ).
  flow.
Qed.

Lemma attemptGlobalPasswords_fail archivePath pws :
  forall s : MainWindow,
    all_fail (m_archive (backend s)) pws ->
    fst (attemptGlobalPasswords archivePath pws s) = None
    /\ passwordCache (snd (attemptGlobalPasswords archivePath pws s)) = passwordCache s
    /\ globalPasswords (snd (attemptGlobalPasswords archivePath pws s)) = globalPasswords s
    /\ m_archive (backend (snd (attemptGlobalPasswords archivePath pws s)))
       = m_archive (backend s)
    /\ exists evs,
         journal (snd (attemptGlobalPasswords archivePath pws s))
         = (journal s ++ evs)%list
         /\ Forall not_prompt evs.
Proof.
  induction pws as [|pw rest IH]; intros s Hfail.
  - simpl. repeat split; trivial. exists []. rewrite app_nil_r. auto.
  - inversion Hfail as [|? ? Hpw Hrest]; subst.
    cbn [attemptGlobalPasswords]. rewrite try_listing, Hpw. cbn [nonEmpty].
    destruct (IH (after_listing pw s)) as (Hr & Hc & Hp & Ha & evs & Hj & Hq);
      [exact Hrest|].
    rewrite Hr, Hc, Hp, Ha, Hj. repeat split; trivial.
    exists (EvProcess "unzip"
              (listArgs (mkCliArchiveHandler (m_archive (backend s)) pw)) :: evs).
    split; [|constructor; [exact I | exact Hq]].
    cbn [after_listing record journal set_world set_backend].
    rewrite <- app_assoc. reflexivity.
Qed.

Lemma attemptGlobalPasswords_first_success archivePath tried pw rest :
  forall s : MainWindow,
    all_fail (m_archive (backend s)) tried ->
    (forall w, listing (mkCliArchiveHandler (m_archive (backend s)) pw) w <> []) ->
    fst (attemptGlobalPasswords archivePath (tried ++ pw :: rest) s) = Some pw
    /\ passwordCache (snd (attemptGlobalPasswords archivePath (tried ++ pw :: rest) s))
       = <[archivePath := pw]> (passwordCache s)
    /\ globalPasswords (snd (attemptGlobalPasswords archivePath (tried ++ pw :: rest) s))
       = globalPasswords s
    /\ m_password
         (backend (snd (attemptGlobalPasswords archivePath (tried ++ pw :: rest) s)))
       = pw
    /\ exists evs,
         journal (snd (attemptGlobalPasswords archivePath (tried ++ pw :: rest) s))
         = (journal s ++ evs)%list
         /\ Forall not_prompt evs.
Proof.
  induction tried as [|pw0 tried IH]; intros s Hfail Hopens.
  - cbn [app attemptGlobalPasswords]. rewrite try_listing.
    specialize (Hopens (world s)).
    destruct (listing (mkCliArchiveHandler (m_archive (backend s)) pw) (world s))
      as [|e es] eqn:El; [congruence|].
    cbn [nonEmpty]. rewrite !bind_run. cbn [modify ret fst snd].
    rewrite keeps_loadArchiveEntries_cache, keeps_loadArchiveEntries_pool,
      keeps_loadArchiveEntries_backend.
    repeat split; trivial.
    destruct (appends_loadArchiveEntries not_prompt (e :: es) archivePath
                (fun _ _ => I)
                (set_passwordCache
                   (<[archivePath:=pw]> (passwordCache (after_listing pw s)))
                   (after_listing pw s))) as (evs & Hj & Hq).
    exists (EvProcess "unzip"
              (listArgs (mkCliArchiveHandler (m_archive (backend s)) pw)) :: evs).
    split; [|constructor; [exact I | exact Hq]].
    rewrite Hj. cbn [after_listing record journal set_world set_backend set_passwordCache].
    rewrite <- app_assoc. reflexivity.
  - inversion Hfail as [|? ? Hpw0 Hrest]; subst.
    cbn [app attemptGlobalPasswords]. rewrite try_listing, Hpw0. cbn [nonEmpty].
    destruct (IH (after_listing pw0 s) Hrest Hopens)
      as (Hr & Hc & Hp & Hb & evs & Hj & Hq).
    rewrite Hr, Hc, Hp, Hb, Hj. repeat split; trivial.
    exists (EvProcess "unzip"
              (listArgs (mkCliArchiveHandler (m_archive (backend s)) pw0)) :: evs).
    split; [|constructor; [exact I | exact Hq]].
    cbn [after_listing record journal set_world set_backend].
    rewrite <- app_assoc. reflexivity.
Qed.

Lemma attempt_cache_miss archivePath (s : MainWindow) :
  passwordCache s !! archivePath = None ->
  attemptPasswordAndLoadArchive archivePath s
  = match attemptGlobalPasswords archivePath (globalPasswords s) s with
    | (Some pw, s') => (Resolved pw, s')
    | (None, s') => attemptPrompt archivePath s'
    end.
Proof.
  intros Hmiss. unfold attemptPasswordAndLoadArchive.
  rewrite bind_run. cbn [get fst snd]. rewrite Hmiss.
  rewrite bind_run. cbn [ret fst snd].
  rewrite bind_run. cbn [get fst snd].
  rewrite bind_run.
  destruct (attemptGlobalPasswords archivePath (globalPasswords s) s) as [[pw|] s'];
    reflexivity.
Qed.

(** The pool is tried in its order on a cache miss: after candidates
    that all fail, the first one that lists the archive resolves it, is
    stored in the cache under the archive path, and no prompt is
    shown. *)
Lemma attempt_pool_resolves archivePath tried pw rest (s : MainWindow) :
  passwordCache s !! archivePath = None ->
  globalPasswords s = (tried ++ pw :: rest)%list ->
  all_fail (m_archive (backend s)) tried ->
  (forall w, listing (mkCliArchiveHandler (m_archive (backend s)) pw) w <> []) ->
  fst (attemptPasswordAndLoadArchive archivePath s) = Resolved pw
  /\ passwordCache (snd (attemptPasswordAndLoadArchive archivePath s))
     = <[archivePath := pw]> (passwordCache s)
  /\ globalPasswords (snd (attemptPasswordAndLoadArchive archivePath s))
     = globalPasswords s
  /\ m_password (backend (snd (attemptPasswordAndLoadArchive archivePath s))) = pw
  /\ exists evs,
       journal (snd (attemptPasswordAndLoadArchive archivePath s))
       = (journal s ++ evs)%list
       /\ Forall not_prompt evs.
Proof.
  intros Hmiss Hpool Hfail Hopens.
  rewrite (attempt_cache_miss _ _ Hmiss), Hpool.
  destruct (attemptGlobalPasswords_first_success archivePath tried pw rest s
              Hfail Hopens) as (Hr & Hrest).
  destruct (attemptGlobalPasswords archivePath (tried ++ pw :: rest) s)
    as [r s']. cbn [fst snd] in *. subst r. cbn [fst snd].
  rewrite Hpool in Hrest. split; [reflexivity | exact Hrest].
Qed.

Lemma tryPasswords_keeps_cache entry :
  keeps (@passwordCache World) (tryPasswordsForEntryAndExtract entry).
Proof.
  assert (Hloop : forall pws,
             keeps (@passwordCache World) (extractGlobalPasswords entry pws)).
  { induction pws as [|pw rest IH]; cbn [extractGlobalPasswords]; [flow|].
    pose proof (fun h => keeps_extractEntryToTemp (@passwordCache World) h entry
                           inner_passwordCache).
    unfold setPassword. flow. }
  unfold tryPasswordsForEntryAndExtract, setPassword.
  pose proof (fun h => keeps_extractEntryToTemp (@passwordCache World) h entry
                         inner_passwordCache).
  flow.
Qed.

End PasswordFlows.

(* ===================================================================== *)
(** * The password flows: what was checked *)
(* ===================================================================== *)

Section PasswordClaims.

Context {World : Type} `{Host World}.

Local Abbreviation MainWindow := (MainWindow World).

(** C7.  With no cached password for the archive, a pool whose
    passwords all fail to list it (an empty pool among them) and a user
    who cancels the dialog, the attempt ends as Cancelled and leaves
    cache and pool as they were. *)
Theorem cancel_changes_nothing (archivePath : string) (s : MainWindow) :
  passwordCache s !! archivePath = None ->
  all_fail (m_archive (backend s)) (globalPasswords s) ->
  (forall title label w, snd (fst (QInputDialog_getText title label w)) = false) ->
  fst (attemptPasswordAndLoadArchive archivePath s) = Cancelled
  /\ passwordCache (snd (attemptPasswordAndLoadArchive archivePath s))
     = passwordCache s
  /\ globalPasswords (snd (attemptPasswordAndLoadArchive archivePath s))
     = globalPasswords s.
Proof.
  intros Hmiss Hfail Hcancel.
  rewrite (attempt_cache_miss _ _ Hmiss).
  destruct (attemptGlobalPasswords_fail archivePath (globalPasswords s) s Hfail)
    as (Hr & Hc & Hp & _).
  destruct (attemptGlobalPasswords archivePath (globalPasswords s) s) as [r s'].
  cbn [fst snd] in *. subst r.
  unfold attemptPrompt. rewrite bind_run, getText_run.
  specialize (Hcancel "Password Required"
                ("Enter password for " ++ QFileInfo_fileName archivePath) (world s')).
  destruct (QInputDialog_getText "Password Required"
              ("Enter password for " ++ QFileInfo_fileName archivePath) (world s'))
    as [[pw ok] w].
  cbn [fst snd] in *. subst ok. cbn [negb ret fst snd record set_world
    passwordCache globalPasswords].
  auto.
Qed.

End PasswordClaims.

Lemma cancel_changes_nothing_witness :
  fst (@attemptPasswordAndLoadArchive unit (toyHost locked_out) "/home/u/A.vfsarc"
         (toyWindow ∅ ["x"; "y"])) = Cancelled
  /\ passwordCache
       (snd (@attemptPasswordAndLoadArchive unit (toyHost locked_out) "/home/u/A.vfsarc"
               (toyWindow ∅ ["x"; "y"]))) = ∅
  /\ globalPasswords
       (snd (@attemptPasswordAndLoadArchive unit (toyHost locked_out) "/home/u/A.vfsarc"
               (toyWindow ∅ ["x"; "y"]))) = ["x"; "y"].
Proof.
  apply (@cancel_changes_nothing unit (toyHost locked_out) "/home/u/A.vfsarc"
           (toyWindow ∅ ["x"; "y"])).
  - reflexivity.
  - repeat constructor.
  - reflexivity.
Defined.

(** The listing half of C3 on the pool of the design document: ["x"]
    fails, ["y"] opens the archive, is cached, and nobody is asked. *)
Lemma attempt_pool_resolves_example :
  fst (@attemptPasswordAndLoadArchive unit (toyHost only_y) "/home/u/A.vfsarc"
         (toyWindow ∅ ["x"; "y"])) = Resolved "y"
  /\ passwordCache
       (snd (@attemptPasswordAndLoadArchive unit (toyHost only_y) "/home/u/A.vfsarc"
               (toyWindow ∅ ["x"; "y"]))) !! "/home/u/A.vfsarc" = Some "y"
  /\ Forall not_prompt
       (journal (snd (@attemptPasswordAndLoadArchive unit (toyHost only_y)
                        "/home/u/A.vfsarc" (toyWindow ∅ ["x"; "y"])))).
Proof.
  destruct (@attempt_pool_resolves unit (toyHost only_y) "/home/u/A.vfsarc"
              ["x"] "y" [] (toyWindow ∅ ["x"; "y"]))
    as (Hr & Hc & _ & _ & evs & Hj & Hq).
  - reflexivity.
  - reflexivity.
  - repeat constructor.
  - intros w. discriminate.
  - rewrite Hr, Hc, Hj. split; [reflexivity|]. split.
    + apply lookup_insert_eq.
    + exact Hq.
Qed.

(** C3 on the extraction path, at the pool of the design document: the
    nested entry extracts with ["y"] after ["x"] failed, in this order,
    and the cache still has no password for the archive. *)
Theorem extraction_pool_success_not_cached :
  passwordCache (toyWindow ∅ ["x"; "y"]) !! "/home/u/A.vfsarc" = None
  /\ fst (@tryPasswordsForEntryAndExtract unit (toyHost only_y) "folder/inner.vfsarc"
            (toyWindow ∅ ["x"; "y"]))
     = Some "/tmp/qt_arch_tmp_{7f}/folder/inner.vfsarc"
  /\ m_password
       (backend (snd (@tryPasswordsForEntryAndExtract unit (toyHost only_y)
                        "folder/inner.vfsarc" (toyWindow ∅ ["x"; "y"])))) = "y"
  /\ journal
       (snd (@tryPasswordsForEntryAndExtract unit (toyHost only_y)
               "folder/inner.vfsarc" (toyWindow ∅ ["x"; "y"])))
     = [EvProcess "unzip" ["-P"; "x"; "/home/u/A.vfsarc"; "folder/inner.vfsarc";
                           "-d"; "/tmp/qt_arch_tmp_{7f}"];
        EvProcess "unzip" ["-P"; "y"; "/home/u/A.vfsarc"; "folder/inner.vfsarc";
                           "-d"; "/tmp/qt_arch_tmp_{7f}"]]
  /\ passwordCache
       (snd (@tryPasswordsForEntryAndExtract unit (toyHost only_y)
               "folder/inner.vfsarc" (toyWindow ∅ ["x"; "y"])))
     !! "/home/u/A.vfsarc" = None.
Proof.
  split; [reflexivity|]. split; [reflexivity|]. split; [reflexivity|].
  split; [reflexivity|].
  rewrite (@tryPasswords_keeps_cache unit (toyHost only_y)). reflexivity.
Qed.

Section PromptAndManifest.

Context {World : Type} `{Host World}.

Local Abbreviation M := (M World).
Local Abbreviation MainWindow := (MainWindow World).

Lemma extractEntryToTemp_journal h entry (s : MainWindow) :
  journal (snd (extractEntryToTemp h entry s))
  = (journal s ++ [EvProcess "unzip" (extractArgs h entry (extract_dir (world s)))])%list.
Proof.
  unfold extractEntryToTemp, extract_dir.
  rewrite bind_run, createUuid_run. cbn [fst snd].
  rewrite bind_run. cbn [get fst snd set_world world].
  rewrite bind_run. cbn [on_world modify fst snd set_world world].
  rewrite bind_run, run_run. cbn [fst snd set_world world].
  destruct (exitCode _ =? 0)%Z; reflexivity.
Qed.

Lemma appends_openNested Q tmp entry :
  (forall p a, Q (EvProcess p a)) -> appends Q (openNested (World:=World) tmp entry).
Proof.
  intros HQ. unfold openNested, openArchive, updateStatusBar.
  pose proof (fun h => appends_loadMetadata Q h HQ).
  pose proof (fun h p => appends_listEntries Q h p HQ).
  flow.
Qed.


(** C8, as the code has it.  The prompt of
    [attemptPasswordAndLoadArchive] takes any confirmed password, the
    empty one too: it is set on the backend and the archive is listed
    with it.  The prompt of [promptPasswordForArchiveAndLoad] does so
    for a confirmed password that is not empty, and extracts the entry
    with it; a confirmed empty password is treated like a cancel, and
    nothing is set or run. *)
Theorem prompt_password_attempted (archivePath entry pw : string) (s : MainWindow) :
  (fst (QInputDialog_getText "Password Required"
          ("Enter password for " ++ QFileInfo_fileName archivePath) (world s))
   = (pw, true) ->
   m_password (backend (snd (attemptPrompt archivePath s))) = pw
   /\ exists rest,
        journal (snd (attemptPrompt archivePath s))
        = (journal s
           ++ EvGetText "Password Required"
                ("Enter password for " ++ QFileInfo_fileName archivePath)
           :: EvProcess "unzip"
                (listArgs (mkCliArchiveHandler (m_archive (backend s)) pw))
           :: rest)%list)
  /\ (fst (QInputDialog_getText "Password Required"
             ("Enter password to extract " ++ entry) (world s))
      = (pw, true) ->
      if QString.isEmpty pw
      then snd (promptPasswordForArchiveAndLoad entry s)
           = record (EvGetText "Password Required"
                       ("Enter password to extract " ++ entry))
               (set_world
                  (snd (QInputDialog_getText "Password Required"
                          ("Enter password to extract " ++ entry) (world s))) s)
      else exists dir rest,
             journal (snd (promptPasswordForArchiveAndLoad entry s))
             = (journal s
                ++ EvGetText "Password Required"
                     ("Enter password to extract " ++ entry)
                :: EvProcess "unzip"
                     (extractArgs (mkCliArchiveHandler (m_archive (backend s)) pw)
                        entry dir)
                :: rest)%list).
Proof.
  split.
  - intros Hans. unfold attemptPrompt.
    rewrite bind_run, getText_run, Hans. cbn [fst snd negb].
    rewrite try_listing.
    set (s1 := record _ (set_world _ s)).
    destruct (listing (mkCliArchiveHandler (m_archive (backend s1)) pw) (world s1))
      as [|e es]; cbn [nonEmpty].
    + rewrite bind_run. cbn. split; [reflexivity|].
      exists [EvWarning "Password Failed" "Password did not work."].
      rewrite <- !app_assoc. reflexivity.
    + rewrite !bind_run. cbn [modify ret fst snd].
      rewrite keeps_loadArchiveEntries_backend.
      split.
      { destruct (negb (QString.isEmpty pw) && _); reflexivity. }
      match goal with
      | |- context [loadArchiveEntries ?es ?a ?st] =>
          destruct (appends_loadArchiveEntries (fun _ => True) es a
                      (fun _ _ => I) st) as (evs & Hj & _)
      end.
      rewrite Hj. exists evs.
      destruct (negb (QString.isEmpty pw) && _); cbn; rewrite <- !app_assoc;
        reflexivity.
  - intros Hans. unfold promptPasswordForArchiveAndLoad.
    rewrite bind_run, getText_run, Hans. cbn [fst snd negb orb].
    destruct (QString.isEmpty pw) eqn:Eempty; [reflexivity|].
    set (s1 := record _ (set_world _ s)).
    rewrite bind_run. cbn [setPassword modify fst snd].
    rewrite bind_run. cbn [get fst snd].
    rewrite bind_run.
    set (s2 := set_backend _ s1).
    pose proof (extractEntryToTemp_journal (backend s2) entry s2) as Hj.
    destruct (extractEntryToTemp (backend s2) entry s2) as [[tmp|] s3];
      cbn [fst snd] in *.
    + rewrite !bind_run. cbn [modify fst snd].
      match goal with
      | |- context [openNested ?t ?e ?st] =>
          destruct (appends_openNested (fun _ => True) t e (fun _ _ => I) st)
            as (evs & Hj' & _)
      end.
      rewrite Hj'. exists (extract_dir (world s2)), evs.
      destruct (negb _); cbn [journal set_globalPasswords set_passwordCache];
        rewrite Hj; cbn; rewrite <- !app_assoc; reflexivity.
    + exists (extract_dir (world s2)),
        [EvWarning "Extract Failed"
           "Could not extract nested archive with provided password."].
      cbn. rewrite Hj. cbn. rewrite <- !app_assoc. reflexivity.
Qed.

End PromptAndManifest.


Lemma prompt_password_attempted_witness :
  (m_password
     (backend (snd (@attemptPrompt unit (toyHost confirms_pw1) "/home/u/A.vfsarc"
                      (toyWindow ∅ [])))) = "pw1"
   /\ exists rest,
        journal (snd (@attemptPrompt unit (toyHost confirms_pw1) "/home/u/A.vfsarc"
                        (toyWindow ∅ [])))
        = ([] ++ EvGetText "Password Required" "Enter password for A.vfsarc"
              :: EvProcess "unzip" ["-P"; "pw1"; "-Z"; "-1"; "/home/u/A.vfsarc"]
              :: rest)%list)
  /\ (exists dir rest,
        journal (snd (@promptPasswordForArchiveAndLoad unit (toyHost confirms_pw1)
                        "inner.vfsarc" (toyWindow ∅ [])))
        = ([] ++ EvGetText "Password Required" "Enter password to extract inner.vfsarc"
              :: EvProcess "unzip"
                   ["-P"; "pw1"; "/home/u/A.vfsarc"; "inner.vfsarc"; "-d"; dir]
              :: rest)%list).
Proof.
  split.
  - apply (proj1 (@prompt_password_attempted unit (toyHost confirms_pw1)
                    "/home/u/A.vfsarc" "inner.vfsarc" "pw1" (toyWindow ∅ []))).
    reflexivity.
  - apply (proj2 (@prompt_password_attempted unit (toyHost confirms_pw1)
                    "/home/u/A.vfsarc" "inner.vfsarc" "pw1" (toyWindow ∅ []))).
    reflexivity.
Defined.

(** C8 as worded fails at the prompt for a nested entry: the user
    confirms the empty password, the backend keeps the password it had
    and no process is run. *)
Lemma nested_prompt_empty_password_counterexample :
  fst (@QInputDialog_getText unit (toyHost confirms_empty) "Password Required"
         "Enter password to extract inner.vfsarc" tt) = ("", true)
  /\ m_password
       (backend (snd (@promptPasswordForArchiveAndLoad unit (toyHost confirms_empty)
                        "inner.vfsarc"
                        (set_backend (mkCliArchiveHandler "/home/u/A.vfsarc" "old")
                           (toyWindow ∅ []))))) = "old"
  /\ journal (snd (@promptPasswordForArchiveAndLoad unit (toyHost confirms_empty)
                     "inner.vfsarc"
                     (set_backend (mkCliArchiveHandler "/home/u/A.vfsarc" "old")
                        (toyWindow ∅ []))))
     = [EvGetText "Password Required" "Enter password to extract inner.vfsarc"].
Proof. repeat split; reflexivity. Qed.

(* ===================================================================== *)
(** * Descending into a nested archive *)
(* ===================================================================== *)

Section Navigation.

Context {World : Type} `{Host World}.

Local Abbreviation M := (M World).
Local Abbreviation MainWindow := (MainWindow World).

Lemma keeps_tryPasswords {X : Type} (f : MainWindow -> X) entry :
  inner f -> (forall b s, f (set_backend b s) = f s) ->
  keeps f (tryPasswordsForEntryAndExtract entry).
Proof.
  intros Hf Hb.
  pose proof (fun h => keeps_extractEntryToTemp f h entry Hf).
  assert (Hset : forall pw, keeps f (setPassword pw))
    by (intros pw s; apply Hb).
  assert (Hloop : forall pws, keeps f (extractGlobalPasswords entry pws)).
  { induction pws as [|pw rest IH]; cbn [extractGlobalPasswords]; flow. }
  unfold tryPasswordsForEntryAndExtract. flow.
Qed.

(** The extraction leaves the breadcrumb, the current archive and the
    tree as they are. *)
Lemma extracted_frame entry (s : MainWindow) tmp s' :
  extracted entry s tmp s' ->
  archiveStack s' = archiveStack s
  /\ currentArchive s' = currentArchive s
  /\ archiveModel s' = archiveModel s.
Proof.
  assert (Hx : forall h st,
             archiveStack (snd (extractEntryToTemp h entry st)) = archiveStack st
             /\ currentArchive (snd (extractEntryToTemp h entry st)) = currentArchive st
             /\ archiveModel (snd (extractEntryToTemp h entry st)) = archiveModel st).
  { intros h st. repeat split; apply keeps_extractEntryToTemp; auto with flows. }
  assert (Ht : forall st,
             archiveStack (snd (tryPasswordsForEntryAndExtract entry st)) = archiveStack st
             /\ currentArchive (snd (tryPasswordsForEntryAndExtract entry st))
                = currentArchive st
             /\ archiveModel (snd (tryPasswordsForEntryAndExtract entry st))
                = archiveModel st).
  { intros st. repeat split; apply keeps_tryPasswords; auto with flows. }
  intros Hex. destruct Hex as [tmp s1 E1 | tmp s1 s2 E1 E2 | pw tmp s1 s2 s3 s4 E1 E2 E3 Epw E4].
  - specialize (Hx (backend s) s). rewrite E1 in Hx. exact Hx.
  - specialize (Hx (backend s) s). rewrite E1 in Hx.
    specialize (Ht s1). rewrite E2 in Ht. cbn [snd] in *.
    intuition congruence.
  - pose proof (Hx (backend s) s) as H1. rewrite E1 in H1.
    pose proof (Ht s1) as H2. rewrite E2 in H2.
    rewrite getText_run in E3. injection E3 as _ <-.
    pose proof (Hx (mkCliArchiveHandler (m_archive (backend s2)) pw)
                  (set_backend (mkCliArchiveHandler (m_archive (backend s2)) pw)
                     (record (EvGetText "Password Required"
                                ("Enter password to extract " ++ entry))
                        (set_world
                           (snd (QInputDialog_getText "Password Required"
                                   ("Enter password to extract " ++ entry)
                                   (world s2))) s2)))) as H4.
    cbn [backend record set_world] in E4. rewrite E4 in H4.
    cbn [snd archiveStack currentArchive archiveModel set_backend record set_world]
      in *.
    unfold remember_password.
    destruct (negb _); cbn; intuition congruence.
Qed.

(** With the nested archive extracted, the handler of the double click
    goes on with [openNested] on the extracted file. *)
Lemma double_click_opens it (s : MainWindow) tmp s' :
  type it = ArchiveFolder ->
  extracted (fullPathInArchive it) s tmp s' ->
  onArchiveDoubleClicked (Some it) s = openNested tmp (fullPathInArchive it) s'.
Proof.
  intros Hty Hex. unfold onArchiveDoubleClicked. rewrite Hty.
  rewrite bind_run. cbn [get fst snd]. rewrite bind_run.
  destruct Hex as [tmp s1 E1 | tmp s1 s2 E1 E2 | pw tmp s1 s2 s3 s4 E1 E2 E3 Epw E4];
    rewrite E1; cbn [fst snd]; [reflexivity| |].
  - rewrite bind_run, E2. reflexivity.
  - rewrite bind_run, E2. cbn [fst snd].
    unfold promptPasswordForArchiveAndLoad.
    rewrite bind_run, E3. cbn [fst snd negb orb]. rewrite Epw.
    rewrite bind_run. cbn [setPassword modify fst snd].
    rewrite bind_run. cbn [get fst snd backend set_backend].
    rewrite bind_run, E4. cbn [fst snd].
    rewrite !bind_run. cbn [modify fst snd]. unfold remember_password.
    cbn [globalPasswords set_passwordCache].
    destruct (negb _); reflexivity.
Qed.

(** [openNested] on a file that exists. *)
Lemma openNested_switches tmp entry (s : MainWindow) :
  QFile_exists tmp (world s) = true ->
  backend (snd (openNested tmp entry s)) = mkCliArchiveHandler tmp ""
  /\ currentArchive (snd (openNested tmp entry s)) = tmp
  /\ archiveStack (snd (openNested tmp entry s))
     = (archiveStack s
        ++ [(QFileInfo_fileName (currentArchive s) ++ ":" ++ entry)%string])%list
  /\ archiveModel (snd (openNested tmp entry s))
     = populateFromList (listing (mkCliArchiveHandler tmp "") (world s)) ""
         (clear (archiveModel s)).
Proof.
  intros Hex. unfold openNested, openArchive, updateStatusBar.
  rewrite bind_run. rewrite bind_run. cbn [get ret fst snd]. rewrite Hex.
  repeat (first [rewrite bind_run | rewrite listEntries_run];
          cbn [modify get fst snd]).
  cbn [backend currentArchive archiveStack archiveModel set_metadataView].
  rewrite (keeps_loadMetadata (@backend World)) by auto with flows.
  rewrite (keeps_loadMetadata (@currentArchive World)) by auto with flows.
  rewrite (keeps_loadMetadata (@archiveStack World)) by auto with flows.
  rewrite (keeps_loadMetadata (@archiveModel World)) by auto with flows.
  repeat split; reflexivity.
Qed.

End Navigation.

(** The descent in terms of the path that the clicked node stores.  A
    double click on a nested archive whose extraction succeeds, at once
    or with a known or a typed password, and whose extracted file is
    there: the backend is a new handler on that file, the breadcrumb
    gets the one frame [name of the current archive:stored path], the
    current archive is the file, and the tree is the listing of the new
    backend put below the root without any of its children.  When the
    listing of [A.vfsarc] is the one entry [folder/inner.vfsarc], the
    stored path is the entry and the breadcrumb becomes [A.vfsarc],
    [A.vfsarc:folder/inner.vfsarc]. *)
Theorem nested_descend :
  (forall (World : Type) (H : Host World) (it : ArchiveItem)
          (s : MainWindow World) (tmp : string) (sm : MainWindow World),
      type it = ArchiveFolder ->
      extracted (fullPathInArchive it) s tmp sm ->
      QFile_exists tmp (world sm) = true ->
      backend (snd (onArchiveDoubleClicked (Some it) s)) = mkCliArchiveHandler tmp ""
      /\ currentArchive (snd (onArchiveDoubleClicked (Some it) s)) = tmp
      /\ archiveStack (snd (onArchiveDoubleClicked (Some it) s))
         = (archiveStack s
            ++ [(QFileInfo_fileName (currentArchive s) ++ ":"
                 ++ fullPathInArchive it)%string])%list
      /\ archiveModel (snd (onArchiveDoubleClicked (Some it) s))
         = populateFromList (listing (mkCliArchiveHandler tmp "") (world sm)) ""
             {| name := name (archiveModel s);
                type := type (archiveModel s);
                children := [];
                fullPathInArchive := fullPathInArchive (archiveModel s);
                childrenPopulated := childrenPopulated (archiveModel s) |})
  /\ archiveStack toy_opened = ["A.vfsarc"]
  /\ node_at [0; 0] (archiveModel toy_opened) = Some toy_inner
  /\ archiveStack
       (snd (@onArchiveDoubleClicked unit (toyHost open_archive)
               (node_at [0; 0] (archiveModel toy_opened)) toy_opened))
     = ["A.vfsarc"; "A.vfsarc:folder/inner.vfsarc"].
Proof.
  split; [|repeat split; vm_compute; reflexivity].
  intros World H it s tmp sm Hty Hex Hfile.
  rewrite (double_click_opens it s tmp sm Hty Hex).
  destruct (extracted_frame _ _ _ _ Hex) as (Hstack & Hcur & Hmodel).
  destruct (openNested_switches tmp (fullPathInArchive it) sm Hfile)
    as (Hb & Hc & Hs & Hm).
  rewrite Hb, Hc, Hs, Hm, Hstack, Hcur, Hmodel. repeat split; reflexivity.
Qed.

Lemma nested_descend_witness :
  backend (snd (@onArchiveDoubleClicked unit (toyHost open_archive)
                  (Some toy_inner) toy_opened))
  = mkCliArchiveHandler "/tmp/qt_arch_tmp_{7f}/folder/inner.vfsarc" ""
  /\ currentArchive (snd (@onArchiveDoubleClicked unit (toyHost open_archive)
                            (Some toy_inner) toy_opened))
     = "/tmp/qt_arch_tmp_{7f}/folder/inner.vfsarc"
  /\ archiveStack (snd (@onArchiveDoubleClicked unit (toyHost open_archive)
                          (Some toy_inner) toy_opened))
     = (archiveStack toy_opened
        ++ [(QFileInfo_fileName (currentArchive toy_opened) ++ ":"
             ++ "folder/inner.vfsarc")%string])%list
  /\ archiveModel (snd (@onArchiveDoubleClicked unit (toyHost open_archive)
                          (Some toy_inner) toy_opened))
     = populateFromList
         (@listing unit (toyHost open_archive)
            (mkCliArchiveHandler "/tmp/qt_arch_tmp_{7f}/folder/inner.vfsarc" "") tt)
         "" root0.
Proof.
  apply (proj1 nested_descend unit (toyHost open_archive) toy_inner toy_opened
           "/tmp/qt_arch_tmp_{7f}/folder/inner.vfsarc"
           (snd (@extractEntryToTemp unit (toyHost open_archive)
                   (backend toy_opened) "folder/inner.vfsarc" toy_opened))).
  - reflexivity.
  - apply extracted_direct. vm_compute. reflexivity.
  - reflexivity.
Defined.

(** C6.  An archive [A.vfsarc] that holds the directory [folder] with
    [inner.vfsarc] in it, listed as [zip -r] stores it, and a second
    [inner.vfsarc] at the top: the node made for the entry
    [folder/inner.vfsarc] stores the path [inner.vfsarc].  A double
    click on it extracts the entry [inner.vfsarc], which succeeds, and
    the breadcrumb becomes [A.vfsarc], [A.vfsarc:inner.vfsarc]: the
    frame does not carry the path of the activated entry.  The rest is
    as designed: the backend is a new one without password on the
    extracted file, which is the current archive, and the tree holds
    the listing of the new backend and nothing of the old tree.
    Without the second [inner.vfsarc] the extraction of [inner.vfsarc]
    fails, the user is asked for a password, and the window stays on
    [A.vfsarc]. *)
Theorem nested_descend_stale_entry :
  archiveStack (opened_on ["folder/"; "folder/inner.vfsarc"; "inner.vfsarc"])
  = ["A.vfsarc"]
  /\ node_at [0; 0]
       (archiveModel (opened_on ["folder/"; "folder/inner.vfsarc"; "inner.vfsarc"]))
     = Some {| name := "inner.vfsarc"; type := ArchiveFolder; children := [];
               fullPathInArchive := "inner.vfsarc"; childrenPopulated := false |}
  /\ archiveStack
       (snd (@onArchiveDoubleClicked unit
               (memberHost ["folder/"; "folder/inner.vfsarc"; "inner.vfsarc"])
               (node_at [0; 0]
                  (archiveModel
                     (opened_on ["folder/"; "folder/inner.vfsarc"; "inner.vfsarc"])))
               (opened_on ["folder/"; "folder/inner.vfsarc"; "inner.vfsarc"])))
     = ["A.vfsarc"; "A.vfsarc:inner.vfsarc"]
  /\ journal
       (snd (@onArchiveDoubleClicked unit
               (memberHost ["folder/"; "folder/inner.vfsarc"; "inner.vfsarc"])
               (node_at [0; 0]
                  (archiveModel
                     (opened_on ["folder/"; "folder/inner.vfsarc"; "inner.vfsarc"])))
               (opened_on ["folder/"; "folder/inner.vfsarc"; "inner.vfsarc"])))
     = (journal (opened_on ["folder/"; "folder/inner.vfsarc"; "inner.vfsarc"])
        ++ [EvProcess "unzip"
              ["/home/u/A.vfsarc"; "inner.vfsarc"; "-d"; "/tmp/qt_arch_tmp_{7f}"];
            EvProcess "unzip" ["-Z"; "-1"; "/tmp/qt_arch_tmp_{7f}/inner.vfsarc"];
            EvProcess "unzip"
              ["/tmp/qt_arch_tmp_{7f}/inner.vfsarc"; ".manifest.json"; "-d";
               "/tmp/qt_arch_tmp_{7f}"];
            EvProcess "zip"
              ["/tmp/qt_arch_tmp_{7f}/inner.vfsarc"; "/tmp/qt_temp.a1"]])%list
  /\ backend
       (snd (@onArchiveDoubleClicked unit
               (memberHost ["folder/"; "folder/inner.vfsarc"; "inner.vfsarc"])
               (node_at [0; 0]
                  (archiveModel
                     (opened_on ["folder/"; "folder/inner.vfsarc"; "inner.vfsarc"])))
               (opened_on ["folder/"; "folder/inner.vfsarc"; "inner.vfsarc"])))
     = mkCliArchiveHandler "/tmp/qt_arch_tmp_{7f}/inner.vfsarc" ""
  /\ currentArchive
       (snd (@onArchiveDoubleClicked unit
               (memberHost ["folder/"; "folder/inner.vfsarc"; "inner.vfsarc"])
               (node_at [0; 0]
                  (archiveModel
                     (opened_on ["folder/"; "folder/inner.vfsarc"; "inner.vfsarc"])))
               (opened_on ["folder/"; "folder/inner.vfsarc"; "inner.vfsarc"])))
     = "/tmp/qt_arch_tmp_{7f}/inner.vfsarc"
  /\ archiveModel
       (snd (@onArchiveDoubleClicked unit
               (memberHost ["folder/"; "folder/inner.vfsarc"; "inner.vfsarc"])
               (node_at [0; 0]
                  (archiveModel
                     (opened_on ["folder/"; "folder/inner.vfsarc"; "inner.vfsarc"])))
               (opened_on ["folder/"; "folder/inner.vfsarc"; "inner.vfsarc"])))
     = {| name := "/"; type := Folder;
          children :=
            [{| name := "readme.txt"; type := File; children := [];
                fullPathInArchive := "readme.txt"; childrenPopulated := false |}];
          fullPathInArchive := ""; childrenPopulated := false |}
  /\ node_at [0; 0] (archiveModel (opened_on ["folder/"; "folder/inner.vfsarc"]))
     = Some {| name := "inner.vfsarc"; type := ArchiveFolder; children := [];
               fullPathInArchive := "inner.vfsarc"; childrenPopulated := false |}
  /\ archiveStack
       (snd (@onArchiveDoubleClicked unit
               (memberHost ["folder/"; "folder/inner.vfsarc"])
               (node_at [0; 0]
                  (archiveModel (opened_on ["folder/"; "folder/inner.vfsarc"])))
               (opened_on ["folder/"; "folder/inner.vfsarc"])))
     = ["A.vfsarc"]
  /\ journal
       (snd (@onArchiveDoubleClicked unit
               (memberHost ["folder/"; "folder/inner.vfsarc"])
               (node_at [0; 0]
                  (archiveModel (opened_on ["folder/"; "folder/inner.vfsarc"])))
               (opened_on ["folder/"; "folder/inner.vfsarc"])))
     = (journal (opened_on ["folder/"; "folder/inner.vfsarc"])
        ++ [EvProcess "unzip"
              ["/home/u/A.vfsarc"; "inner.vfsarc"; "-d"; "/tmp/qt_arch_tmp_{7f}"];
            EvProcess "unzip"
              ["/home/u/A.vfsarc"; "inner.vfsarc"; "-d"; "/tmp/qt_arch_tmp_{7f}"];
            EvGetText "Password Required"
              "Enter password to extract inner.vfsarc"])%list.
Proof.
  repeat match goal with
         | |- _ /\ _ => split; [vm_compute; reflexivity|]
         end.
  vm_compute. reflexivity.
Qed.

(* ===================================================================== *)
(** * Lookup by path *)
(* ===================================================================== *)

Lemma find_parts_present parts :
  forall cur, present parts cur = true <-> is_Some (find_parts parts cur).
Proof.
  induction parts as [|p rest IH]; intros cur; simpl.
  - split; [intros _; eexists; reflexivity | reflexivity].
  - destruct (find_child p (children cur)) as [ch|]; [apply IH|].
    split; [discriminate | intros [x Hx]; discriminate].
Qed.

Lemma find_parts_last parts :
  forall cur n seg,
    find_parts parts cur = Some n -> last parts = Some seg -> name n = seg.
Proof.
  induction parts as [|p rest IH]; intros cur n seg Hfind Hlast; [discriminate|].
  simpl in Hfind.
  destruct (find_child p (children cur)) as [ch|] eqn:Ef; [|discriminate].
  destruct rest as [|p' rest].
  - simpl in *. injection Hfind as <-. injection Hlast as <-.
    apply (find_child_name _ _ _ Ef).
  - apply (IH ch n seg Hfind). exact Hlast.
Qed.

Lemma find_parts_walk_mono parts :
  forall cur n e' parts' accum',
    find_parts parts cur = Some n ->
    exists n', find_parts parts (walk e' parts' accum' cur) = Some n'
               /\ same_node n n'.
Proof.
  induction parts as [|p rest IH]; intros cur n e' parts' accum' Hfind.
  - simpl in Hfind. injection Hfind as <-.
    eexists. split; [reflexivity|]. apply walk_attrs.
  - simpl in Hfind.
    destruct (find_child p (children cur)) as [ch|] eqn:Ef; [|discriminate].
    destruct parts' as [|q rest'].
    + exists n. simpl. rewrite Ef. split; [exact Hfind|]. unfold same_node. auto.
    + cbn [walk].
      destruct (descend q (walk e' rest' accum') (children cur)) as [cs|] eqn:E;
        cbn [find_parts set_children children].
      * rewrite (find_child_descend p q _ _ _ (walk_name e' rest' accum') E), Ef.
        destruct (String.eqb p q); simpl.
        -- apply IH, Hfind.
        -- exists n. split; [exact Hfind|]. unfold same_node. auto.
      * rewrite find_child_app, Ef.
        exists n. split; [exact Hfind|]. unfold same_node. auto.
Qed.

Lemma find_parts_populate_mono parts entries prefix :
  forall cur n,
    find_parts parts cur = Some n ->
    exists n', find_parts parts (populateFromList entries prefix cur) = Some n'
               /\ same_node n n'.
Proof.
  unfold populateFromList.
  induction entries as [|e es IH]; intros cur n Hfind; simpl.
  - exists n. unfold same_node. auto.
  - assert (exists m, find_parts parts (populate_entry prefix cur e) = Some m
                      /\ same_node n m) as (m & Hm & Hsame).
    { rewrite populate_entry_parts. destruct (entry_parts prefix e).
      - apply find_parts_walk_mono, Hfind.
      - exists n. unfold same_node. auto. }
    destruct (IH _ _ Hm) as (n' & Hn' & Hsame').
    exists n'. split; [exact Hn'|]. unfold same_node in *. intuition congruence.
Qed.

(** Every entry put below a node with an empty prefix is found again by
    [findNodeByPath] from that node, at a node named like the last
    segment of the entry. *)
Theorem findNodeByPath_finds_entries (entries : list string)
    (parentNode : ArchiveItem) (e : string) :
  In e entries ->
  exists n,
    findNodeByPath e (populateFromList entries "" parentNode) = Some n
    /\ (forall seg, last (QString.split slash e) = Some seg -> name n = seg).
Proof.
  intros Hin.
  pose proof (entries_present_after entries "" parentNode) as Hall.
  rewrite Forall_forall in Hall. apply list_elem_of_In in Hin.
  specialize (Hall e Hin).
  unfold entry_present in Hall. cbn [entry_parts QString.isEmpty negb andb] in Hall.
  apply find_parts_present in Hall. destruct Hall as [n Hn].
  unfold findNodeByPath. destruct e as [|a e'].
  - exists (populateFromList entries "" parentNode).
    split; [reflexivity|]. intros seg Hseg. discriminate.
  - cbn [QString.isEmpty]. exists n. split; [exact Hn|].
    intros seg Hseg. apply (find_parts_last _ _ _ _ Hn Hseg).
Qed.

Lemma findNodeByPath_finds_entries_witness :
  exists n,
    findNodeByPath "a/c/d.txt" (populateFromList ["a/b.txt"; "a/c/d.txt"] "" root0)
    = Some n
    /\ (forall seg, last (QString.split slash "a/c/d.txt") = Some seg -> name n = seg).
Proof.
  apply (findNodeByPath_finds_entries ["a/b.txt"; "a/c/d.txt"] root0 "a/c/d.txt").
  simpl. auto.
Defined.

(** A path that [findNodeByPath] resolves keeps resolving after any
    further [populateFromList] on the start node, to a node with the same
    name, type, path and populated flag. *)
Theorem findNodeByPath_stable (path : string) (entries : list string)
    (prefix : string) (start n : ArchiveItem) :
  findNodeByPath path start = Some n ->
  exists n',
    findNodeByPath path (populateFromList entries prefix start) = Some n'
    /\ name n' = name n /\ type n' = type n
    /\ fullPathInArchive n' = fullPathInArchive n
    /\ childrenPopulated n' = childrenPopulated n.
Proof.
  unfold findNodeByPath. destruct (QString.isEmpty path).
  - intros [= <-]. eexists. split; [reflexivity|]. apply populateFromList_attrs.
  - intros Hfind. apply find_parts_populate_mono, Hfind.
Qed.

Lemma findNodeByPath_stable_witness :
  exists n',
    findNodeByPath "a" (populateFromList ["a/b"; "a/"] "" (populateFromList ["a"] "" root0))
    = Some n'
    /\ name n' = "a" /\ type n' = File
    /\ fullPathInArchive n' = "a"
    /\ childrenPopulated n' = false.
Proof.
  apply (findNodeByPath_stable "a" ["a/b"; "a/"] "" (populateFromList ["a"] "" root0)
           {| name := "a"; type := File; children := [];
              fullPathInArchive := "a"; childrenPopulated := false |}).
  vm_compute. reflexivity.
Defined.

(* ===================================================================== *)
(** * Pointers into the tree and the item model *)
(* ===================================================================== *)

Lemma node_at_app q r :
  forall t, node_at (q ++ r) t
            = match node_at q t with Some it => node_at r it | None => None end.
Proof.
  induction q as [|i q IH]; intros t; simpl; [reflexivity|].
  destruct (children t !! i); [apply IH | reflexivity].
Qed.

Lemma parent_of_snoc q r : ArchiveModel.parent_of (q ++ [r]) = Some (q, r).
Proof.
  induction q as [|i q IH]; simpl; [reflexivity|]. rewrite IH. reflexivity.
Qed.

Lemma parent_of_Some q p r :
  ArchiveModel.parent_of q = Some (p, r) -> q = (p ++ [r])%list.
Proof.
  revert p r. induction q as [|i q IH]; intros p r; simpl; [discriminate|].
  destruct (ArchiveModel.parent_of q) as [[pp row]|] eqn:E.
  - intros [= <- <-]. rewrite (IH pp row eq_refl). reflexivity.
  - intros [= <- <-]. destruct q as [|j q]; [reflexivity|].
    simpl in E. destruct (ArchiveModel.parent_of q) as [[? ?]|]; discriminate.
Qed.

Lemma node_at_update_at q f :
  forall t it, node_at q t = Some it -> node_at q (update_at q f t) = Some (f it).
Proof.
  induction q as [|i q IH]; intros t it; simpl.
  - intros [= <-]. reflexivity.
  - destruct (children t !! i) as [ch|] eqn:Ei; [|discriminate].
    intros Hq. simpl.
    rewrite list_lookup_insert_eq by (apply lookup_lt_Some in Ei; exact Ei).
    apply IH, Hq.
Qed.

Lemma node_at_populateAt q entries prefix :
  forall t it,
    node_at q t = Some it ->
    node_at q (populateAt q entries prefix t)
    = Some (populateFromList entries prefix it).
Proof.
  induction q as [|i q IH]; intros t it; simpl.
  - intros [= <-]. reflexivity.
  - destruct (children t !! i) as [ch|] eqn:Ei; [|discriminate].
    intros Hq. simpl.
    rewrite list_lookup_insert_eq by (apply lookup_lt_Some in Ei; exact Ei).
    apply IH, Hq.
Qed.

Lemma hasIndex_true root row column par :
  ArchiveModel.hasIndex root row column par = true ->
  (0 <= row < ArchiveModel.rowCount root par)%Z /\ column = 0%Z.
Proof.
  unfold ArchiveModel.hasIndex, ArchiveModel.columnCount.
  destruct (row <? 0)%Z eqn:Er; [discriminate|].
  destruct (column <? 0)%Z eqn:Ec; [discriminate|]. simpl.
  intros Hb. apply andb_true_iff in Hb. destruct Hb as [Hr Hc].
  apply Z.ltb_lt in Hr, Hc. apply Z.ltb_ge in Er, Ec. lia.
Qed.

(** The index that [index] makes for a row of a well-formed parent has
    that parent again under [parent], and is well formed itself. *)
Theorem index_parent_roundtrip (root : ArchiveItem) (row column : Z)
    (par : ArchiveModel.QModelIndex) :
  ArchiveModel.well_formed root par ->
  ArchiveModel.index root row column par <> ArchiveModel.Invalid ->
  ArchiveModel.parent (ArchiveModel.index root row column par) = par
  /\ ArchiveModel.well_formed root (ArchiveModel.index root row column par).
Proof.
  intros Hwf Hvalid. unfold ArchiveModel.index in *.
  destruct (ArchiveModel.hasIndex root row column par) eqn:Hhas;
    [|contradiction Hvalid; reflexivity].
  apply hasIndex_true in Hhas. destruct Hhas as [Hrow ->]. cbn [negb] in *.
  destruct (ArchiveModel.itemFromIndex root par) as [pItem|] eqn:Hitem;
    [|contradiction Hvalid; reflexivity].
  destruct (children pItem !! Z.to_nat row) as [c|] eqn:Hc;
    [|contradiction Hvalid; reflexivity].
  split.
  - unfold ArchiveModel.parent. rewrite parent_of_snoc.
    destruct par as [|r0 c0 q0]; [reflexivity|].
    cbn [ArchiveModel.pointer].
    destruct Hwf as (-> & (p & r & Hp & ->) & _). rewrite Hp. reflexivity.
  - cbn [ArchiveModel.well_formed]. split; [reflexivity|]. split.
    + exists (ArchiveModel.pointer par), (Z.to_nat row).
      split; [apply parent_of_snoc | lia].
    + exists c. rewrite node_at_app.
      destruct par as [|r0 c0 q0]; cbn [ArchiveModel.pointer ArchiveModel.itemFromIndex] in *.
      * injection Hitem as <-. simpl. rewrite Hc. reflexivity.
      * rewrite Hitem. simpl. rewrite Hc. reflexivity.
Qed.

Lemma index_parent_roundtrip_witness :
  ArchiveModel.parent
    (ArchiveModel.index (populateFromList ["a/b.txt"; "a/c/d.txt"] "" root0) 1 0
       (ArchiveModel.Index 0 0 [0]))
  = ArchiveModel.Index 0 0 [0]
  /\ ArchiveModel.well_formed (populateFromList ["a/b.txt"; "a/c/d.txt"] "" root0)
       (ArchiveModel.index (populateFromList ["a/b.txt"; "a/c/d.txt"] "" root0) 1 0
          (ArchiveModel.Index 0 0 [0])).
Proof.
  apply (index_parent_roundtrip (populateFromList ["a/b.txt"; "a/c/d.txt"] "" root0)
           1 0 (ArchiveModel.Index 0 0 [0])).
  - split; [reflexivity|]. split.
    + exists [], 0%nat. split; reflexivity.
    + eexists. vm_compute. reflexivity.
  - vm_compute. discriminate.
Defined.

(** [index] gives a valid index exactly for column 0 and the rows below
    [rowCount], and that index stands for the child in that row: the
    item, its name as display text and its path. *)
Theorem index_selects_child (root : ArchiveItem) (row column : Z)
    (par : ArchiveModel.QModelIndex) (pItem : ArchiveItem) :
  ArchiveModel.itemFromIndex root par = Some pItem ->
  (ArchiveModel.index root row column par <> ArchiveModel.Invalid
   <-> (0 <= row < ArchiveModel.rowCount root par)%Z /\ column = 0%Z)
  /\ (forall c,
        (0 <= row)%Z -> column = 0%Z ->
        children pItem !! Z.to_nat row = Some c ->
        ArchiveModel.itemFromIndex root (ArchiveModel.index root row column par)
        = Some c
        /\ ArchiveModel.data root (ArchiveModel.index root row column par)
             ArchiveModel.DisplayRole = ArchiveModel.StringValue (name c)
        /\ ArchiveModel.pathForIndex root (ArchiveModel.index root row column par)
           = fullPathInArchive c).
Proof.
  intros Hitem.
  assert (Hcount : ArchiveModel.rowCount root par
                   = Z.of_nat (List.length (children pItem))).
  { unfold ArchiveModel.rowCount. rewrite Hitem. reflexivity. }
  assert (Hnode : forall c, children pItem !! Z.to_nat row = Some c ->
                            node_at (ArchiveModel.pointer par ++ [Z.to_nat row]) root
                            = Some c).
  { intros c Hc. rewrite node_at_app.
    destruct par as [|r0 c0 q0]; cbn [ArchiveModel.pointer ArchiveModel.itemFromIndex] in *.
    - injection Hitem as <-. simpl. rewrite Hc. reflexivity.
    - rewrite Hitem. simpl. rewrite Hc. reflexivity. }
  split.
  - unfold ArchiveModel.index. rewrite Hitem. split.
    + intros Hvalid.
      destruct (ArchiveModel.hasIndex root row column par) eqn:Hhas;
        [|contradiction Hvalid; reflexivity].
      apply hasIndex_true, Hhas.
    + intros [Hrow ->].
      assert (Hhas : ArchiveModel.hasIndex root row 0 par = true).
      { unfold ArchiveModel.hasIndex, ArchiveModel.columnCount.
        destruct (row <? 0)%Z eqn:Er; [apply Z.ltb_lt in Er; lia|]. simpl.
        apply andb_true_iff. split; [apply Z.ltb_lt; lia | reflexivity]. }
      rewrite Hhas. cbn [negb].
      destruct (children pItem !! Z.to_nat row) as [c|] eqn:Hc; [discriminate|].
      apply lookup_ge_None in Hc. lia.
  - intros c Hrow -> Hc.
    assert (Hhas : ArchiveModel.hasIndex root row 0 par = true).
    { unfold ArchiveModel.hasIndex, ArchiveModel.columnCount.
      destruct (row <? 0)%Z eqn:Er; [apply Z.ltb_lt in Er; lia|]. simpl.
      apply andb_true_iff. split; [|reflexivity].
      apply Z.ltb_lt. rewrite Hcount. apply lookup_lt_Some in Hc. lia. }
    unfold ArchiveModel.index. rewrite Hhas, Hitem, Hc. cbn [negb].
    cbn [ArchiveModel.itemFromIndex ArchiveModel.data ArchiveModel.pathForIndex].
    rewrite (Hnode c Hc). auto.
Qed.

Lemma index_selects_child_witness :
  (ArchiveModel.index (populateFromList ["a/b.txt"; "x"] "" root0) 1 0
     ArchiveModel.Invalid <> ArchiveModel.Invalid
   <-> (0 <= 1 < ArchiveModel.rowCount (populateFromList ["a/b.txt"; "x"] "" root0)
                   ArchiveModel.Invalid)%Z /\ 0%Z = 0%Z)
  /\ (forall c,
        (0 <= 1)%Z -> 0%Z = 0%Z ->
        children (populateFromList ["a/b.txt"; "x"] "" root0) !! Z.to_nat 1 = Some c ->
        ArchiveModel.itemFromIndex (populateFromList ["a/b.txt"; "x"] "" root0)
          (ArchiveModel.index (populateFromList ["a/b.txt"; "x"] "" root0) 1 0
             ArchiveModel.Invalid) = Some c
        /\ ArchiveModel.data (populateFromList ["a/b.txt"; "x"] "" root0)
             (ArchiveModel.index (populateFromList ["a/b.txt"; "x"] "" root0) 1 0
                ArchiveModel.Invalid) ArchiveModel.DisplayRole
           = ArchiveModel.StringValue (name c)
        /\ ArchiveModel.pathForIndex (populateFromList ["a/b.txt"; "x"] "" root0)
             (ArchiveModel.index (populateFromList ["a/b.txt"; "x"] "" root0) 1 0
                ArchiveModel.Invalid)
           = fullPathInArchive c).
Proof.
  apply (index_selects_child (populateFromList ["a/b.txt"; "x"] "" root0) 1 0
           ArchiveModel.Invalid (populateFromList ["a/b.txt"; "x"] "" root0)).
  reflexivity.
Defined.

(* ===================================================================== *)
(** * Assignments through a pointer *)
(* ===================================================================== *)

Lemma every_node_at (P : ArchiveItem -> Prop) q :
  forall t n, every_node P t -> node_at q t = Some n -> every_node P n.
Proof.
  induction q as [|i q IH]; intros t n Ht; simpl.
  - intros [= <-]. exact Ht.
  - destruct (children t !! i) as [ch|] eqn:Ei; [|discriminate].
    intros Hn. apply every_node_unfold in Ht. destruct Ht as [_ Hall].
    rewrite Forall_lookup in Hall. apply (IH ch n (Hall i ch Ei) Hn).
Qed.

Lemma update_at_attrs q f t :
  (forall it, name (f it) = name it
              /\ fullPathInArchive (f it) = fullPathInArchive it) ->
  name (update_at q f t) = name t
  /\ fullPathInArchive (update_at q f t) = fullPathInArchive t.
Proof.
  intros Hf. destruct q as [|i q]; simpl; [apply Hf|].
  destruct (children t !! i); simpl; auto.
Qed.

(** An invariant of all nodes survives an assignment at [q] when it
    survives the assignment at the item itself and does not look at more
    than the names and paths of the children of a node. *)
Lemma update_at_every_node (P : ArchiveItem -> Prop) f :
  (forall n i ch ch',
      children n !! i = Some ch ->
      name ch' = name ch -> fullPathInArchive ch' = fullPathInArchive ch ->
      P n -> P (set_children n (<[i := ch']> (children n)))) ->
  (forall it, name (f it) = name it
              /\ fullPathInArchive (f it) = fullPathInArchive it) ->
  forall q t,
    (forall it, node_at q t = Some it -> every_node P it -> every_node P (f it)) ->
    every_node P t -> every_node P (update_at q f t).
Proof.
  intros Hstable Hattr.
  induction q as [|i q IH]; intros t Hf Ht; simpl.
  - apply Hf; [reflexivity | exact Ht].
  - destruct (children t !! i) as [ch|] eqn:Ei; [|exact Ht].
    apply every_node_unfold in Ht. destruct Ht as [Hhere Hall].
    destruct (update_at_attrs q f ch Hattr) as [Hname Hpath].
    apply every_node_unfold. split.
    + apply (Hstable t i ch); assumption.
    + cbn [set_children children]. apply Forall_insert; [exact Hall|].
      apply IH.
      * intros it Hit. apply Hf. simpl. rewrite Ei. exact Hit.
      * rewrite Forall_lookup in Hall. apply (Hall i ch Ei).
Qed.

Lemma siblings_stable n i ch ch' :
  children n !! i = Some ch ->
  name ch' = name ch -> fullPathInArchive ch' = fullPathInArchive ch ->
  NoDup (map name (children n)) ->
  NoDup (map name (children (set_children n (<[i := ch']> (children n))))).
Proof.
  intros Ei Hname _ Hnd. cbn [set_children children].
  change (NoDup (name <$> <[i:=ch']> (children n))).
  rewrite list_fmap_insert, Hname, list_insert_id; [exact Hnd|].
  rewrite list_lookup_fmap, Ei. reflexivity.
Qed.

Lemma paths_stable n i ch ch' :
  children n !! i = Some ch ->
  name ch' = name ch -> fullPathInArchive ch' = fullPathInArchive ch ->
  Forall (fun c => fullPathInArchive c
                   = if QString.isEmpty (fullPathInArchive n) then name c
                     else fullPathInArchive n ++ "/" ++ name c) (children n) ->
  Forall (fun c => fullPathInArchive c
                   = if QString.isEmpty
                          (fullPathInArchive (set_children n (<[i := ch']> (children n))))
                     then name c
                     else fullPathInArchive (set_children n (<[i := ch']> (children n)))
                          ++ "/" ++ name c)
         (children (set_children n (<[i := ch']> (children n)))).
Proof.
  intros Ei Hname Hpath Hall. cbn [set_children children fullPathInArchive].
  apply Forall_insert; [exact Hall|].
  rewrite Forall_lookup in Hall. rewrite Hname, Hpath. apply (Hall i ch Ei).
Qed.

Lemma set_populated_nodes q :
  forall t path n,
    node_at path t = Some n ->
    exists n',
      node_at path (update_at q set_populated t) = Some n'
      /\ name n' = name n /\ type n' = type n
      /\ fullPathInArchive n' = fullPathInArchive n
      /\ childrenPopulated n'
         = if decide (path = q) then true else childrenPopulated n.
Proof.
  induction q as [|j q IH]; intros t path n Hn.
  - destruct path as [|i path].
    + simpl in *. injection Hn as <-. eexists. split; [reflexivity|]. auto.
    + exists n. split; [exact Hn|]. auto.
  - cbn [update_at].
    destruct (children t !! j) as [ch|] eqn:Ej.
    + destruct path as [|i path].
      * simpl in Hn. injection Hn as <-.
        eexists. split; [reflexivity|]. simpl. auto.
      * simpl in Hn. cbn [node_at set_children children].
        destruct (decide (j = i)) as [<-|Hji].
        -- rewrite Ej in Hn.
           rewrite list_lookup_insert_eq by (apply lookup_lt_Some in Ej; exact Ej).
           destruct (IH ch path n Hn) as (n' & Hn' & Ha & Hb & Hc & Hd).
           exists n'. repeat split; try assumption.
           rewrite Hd. destruct (decide (path = q)) as [->|Hne].
           ++ rewrite decide_True; reflexivity.
           ++ rewrite decide_False; [reflexivity | congruence].
        -- rewrite list_lookup_insert_ne by exact Hji.
           exists n. split; [exact Hn|]. repeat split.
           rewrite decide_False; [reflexivity | congruence].
    + exists n. split; [exact Hn|]. repeat split.
      destruct (decide (path = j :: q)) as [->|]; [|reflexivity].
      simpl in Hn. rewrite Ej in Hn. discriminate.
Qed.

Lemma set_populated_every_node (P : ArchiveItem -> Prop) it :
  (P it -> P (set_populated it)) ->
  every_node P it -> every_node P (set_populated it).
Proof.
  intros HP Hit. apply every_node_unfold in Hit. destruct Hit as [Hhere Hall].
  apply every_node_unfold. split; [apply HP, Hhere | exact Hall].
Qed.

Lemma update_set_populated_siblings q t :
  siblings_distinct t -> siblings_distinct (update_at q set_populated t).
Proof.
  unfold siblings_distinct. intros Ht.
  apply update_at_every_node; try assumption.
  - intros n i ch ch'. apply siblings_stable.
  - intros it. split; reflexivity.
  - intros it _. apply set_populated_every_node. auto.
Qed.

(* ===================================================================== *)
(** * Lazy expansion *)
(* ===================================================================== *)

Section Expansion.

Context {World : Type} `{Host World}.

Local Abbreviation M := (M World).
Local Abbreviation MainWindow := (MainWindow World).

Lemma onArchiveExpanded_run r c q it (s : MainWindow) :
  node_at q (archiveModel s) = Some it ->
  childrenPopulated it = false ->
  snd (onArchiveExpanded (ArchiveModel.Index r c q) s)
  = set_archiveModel
      (update_at q set_populated
         (populateAt q
            (fst (listEntries (backend s)
                    (if QString.endsWith (fullPathInArchive it) "/"
                     then fullPathInArchive it else fullPathInArchive it ++ "/") s))
            (if QString.endsWith (fullPathInArchive it) "/"
             then fullPathInArchive it else fullPathInArchive it ++ "/")
            (archiveModel s)))
      (snd (listEntries (backend s)
              (if QString.endsWith (fullPathInArchive it) "/"
               then fullPathInArchive it else fullPathInArchive it ++ "/") s)).
Proof.
  intros Hnode Hflag. unfold onArchiveExpanded.
  rewrite bind_run. cbn [get fst snd]. rewrite Hnode, Hflag.
  rewrite bind_run. cbn [get fst snd].
  rewrite bind_run, bind_run. cbn [modify fst snd archiveModel set_archiveModel].
  rewrite (keeps_listEntries (@archiveModel World)) by auto with flows.
  destruct (listEntries _ _ s) as [entries sl]. reflexivity.
Qed.

(** Expanding a node a second time does nothing: the window, the world
    and the journal are as the first expansion left them. *)
Theorem expand_twice (idx : ArchiveModel.QModelIndex) (s : MainWindow) :
  snd (onArchiveExpanded idx (snd (onArchiveExpanded idx s)))
  = snd (onArchiveExpanded idx s).
Proof.
  destruct idx as [|r c q]; [reflexivity|].
  destruct (node_at q (archiveModel s)) as [it|] eqn:Hnode.
  - destruct (childrenPopulated it) eqn:Hflag.
    + assert (Hnoop : snd (onArchiveExpanded (ArchiveModel.Index r c q) s) = s).
      { unfold onArchiveExpanded. rewrite bind_run. cbn [get fst snd].
        rewrite Hnode, Hflag. reflexivity. }
      rewrite Hnoop. exact Hnoop.
    + rewrite (onArchiveExpanded_run r c q it s Hnode Hflag).
      match goal with
      | |- snd (onArchiveExpanded _ ?s1) = _ => set (s' := s1)
      end.
      unfold onArchiveExpanded. rewrite bind_run. cbn [get fst snd].
      assert (Hq : exists it',
                 node_at q (archiveModel s') = Some it'
                 /\ childrenPopulated it' = true).
      { subst s'. cbn [archiveModel set_archiveModel].
        eexists. split.
        - apply node_at_update_at. apply node_at_populateAt, Hnode.
        - reflexivity. }
      destruct Hq as (it' & -> & ->). reflexivity.
  - assert (Hnoop : snd (onArchiveExpanded (ArchiveModel.Index r c q) s) = s).
    { unfold onArchiveExpanded. rewrite bind_run. cbn [get fst snd].
      rewrite Hnode. reflexivity. }
    rewrite Hnoop. exact Hnoop.
Qed.

(** An expansion keeps sibling names distinct, keeps every node of the
    tree at its place with its name, type and path, marks nothing but
    the expanded node as populated, and leaves the backend, the current
    archive, the breadcrumb, the cache and the pool alone. *)
Theorem expand_keeps_tree (idx : ArchiveModel.QModelIndex) (s : MainWindow) :
  siblings_distinct (archiveModel s) ->
  siblings_distinct (archiveModel (snd (onArchiveExpanded idx s)))
  /\ (forall path n,
        node_at path (archiveModel s) = Some n ->
        exists n',
          node_at path (archiveModel (snd (onArchiveExpanded idx s))) = Some n'
          /\ name n' = name n /\ type n' = type n
          /\ fullPathInArchive n' = fullPathInArchive n
          /\ (childrenPopulated n' = childrenPopulated n
              \/ (path = ArchiveModel.pointer idx /\ childrenPopulated n' = true)))
  /\ backend (snd (onArchiveExpanded idx s)) = backend s
  /\ currentArchive (snd (onArchiveExpanded idx s)) = currentArchive s
  /\ archiveStack (snd (onArchiveExpanded idx s)) = archiveStack s
  /\ passwordCache (snd (onArchiveExpanded idx s)) = passwordCache s
  /\ globalPasswords (snd (onArchiveExpanded idx s)) = globalPasswords s.
Proof.
  intros Hsd.
  assert (Hsame : snd (onArchiveExpanded idx s) = s ->
                  siblings_distinct (archiveModel (snd (onArchiveExpanded idx s)))
                  /\ (forall path n,
                        node_at path (archiveModel s) = Some n ->
                        exists n',
                          node_at path (archiveModel (snd (onArchiveExpanded idx s)))
                          = Some n'
                          /\ name n' = name n /\ type n' = type n
                          /\ fullPathInArchive n' = fullPathInArchive n
                          /\ (childrenPopulated n' = childrenPopulated n
                              \/ (path = ArchiveModel.pointer idx
                                  /\ childrenPopulated n' = true)))
                  /\ backend (snd (onArchiveExpanded idx s)) = backend s
                  /\ currentArchive (snd (onArchiveExpanded idx s)) = currentArchive s
                  /\ archiveStack (snd (onArchiveExpanded idx s)) = archiveStack s
                  /\ passwordCache (snd (onArchiveExpanded idx s)) = passwordCache s
                  /\ globalPasswords (snd (onArchiveExpanded idx s))
                     = globalPasswords s).
  { intros ->. split; [exact Hsd|]. split; [|auto 10].
    intros path n Hn. exists n. auto 10. }
  destruct idx as [|r c q]; [apply Hsame; reflexivity|].
  destruct (node_at q (archiveModel s)) as [it|] eqn:Hnode.
  - destruct (childrenPopulated it) eqn:Hflag.
    + apply Hsame.
      unfold onArchiveExpanded. rewrite bind_run. cbn [get fst snd].
      rewrite Hnode, Hflag. reflexivity.
    + clear Hsame. rewrite (onArchiveExpanded_run r c q it s Hnode Hflag).
      cbn [archiveModel backend currentArchive archiveStack passwordCache
           globalPasswords set_archiveModel].
      rewrite (keeps_listEntries (@backend World)),
        (keeps_listEntries (@currentArchive World)),
        (keeps_listEntries (@archiveStack World)),
        (keeps_listEntries (@passwordCache World)),
        (keeps_listEntries (@globalPasswords World)) by auto with flows.
      split; [|split; [|auto 10]].
      * apply update_set_populated_siblings, populateAt_siblings_distinct, Hsd.
      * intros path n Hn.
        match goal with
        | |- context [populateAt q ?es ?pre (archiveModel s)] =>
            destruct (populateAt_keeps_nodes q es pre (archiveModel s) path n Hn)
              as (m & Hm & Hname & Htype & Hpath & Hpop);
            destruct (set_populated_nodes q (populateAt q es pre (archiveModel s))
                        path m Hm) as (n' & Hn' & Ha & Hb & Hc & Hd)
        end.
        exists n'. split; [exact Hn'|].
        split; [congruence|]. split; [congruence|]. split; [congruence|].
        cbn [ArchiveModel.pointer].
        destruct (decide (path = q)) as [->|]; [right; auto | left; congruence].
  - apply Hsame.
    unfold onArchiveExpanded. rewrite bind_run. cbn [get fst snd].
    rewrite Hnode. reflexivity.
Qed.

End Expansion.

Lemma expand_keeps_tree_witness :
  siblings_distinct
    (archiveModel (snd (@onArchiveExpanded unit (toyHost open_archive)
                          (ArchiveModel.Index 0 0 [0]) toy_opened))).
Proof.
  apply (@expand_keeps_tree unit (toyHost open_archive)
           (ArchiveModel.Index 0 0 [0]) toy_opened).
  apply produced_siblings_distinct.
  change (archiveModel toy_opened)
    with (populateAt [] ["folder/inner.vfsarc"] "" root0).
  apply produced_call, produced_new.
Defined.

(* ===================================================================== *)
(** * Add Folder and Remove *)
(* ===================================================================== *)

Lemma attach_folder_paths nm it :
  paths_joined it -> paths_joined (attach_folder nm it).
Proof.
  unfold paths_joined. intros Hit.
  apply every_node_unfold in Hit. destruct Hit as [Hhere Hall].
  apply every_node_unfold. cbn [attach_folder set_populated set_children children
                                 fullPathInArchive].
  split.
  - apply Forall_app. split; [exact Hhere|]. constructor; [reflexivity | constructor].
  - apply Forall_app. split; [exact Hall|]. constructor; [|constructor].
    apply every_node_unfold. simpl. split; constructor.
Qed.

Lemma attach_folder_siblings nm it :
  siblings_distinct it -> ~ In nm (map name (children it)) ->
  siblings_distinct (attach_folder nm it).
Proof.
  unfold siblings_distinct. intros Hit Hfresh.
  apply every_node_unfold in Hit. destruct Hit as [Hnd Hall].
  apply every_node_unfold. cbn [attach_folder set_populated set_children children].
  split.
  - rewrite map_app. simpl. apply NoDup_app. repeat split.
    + exact Hnd.
    + intros x Hx Hx'. apply list_elem_of_In in Hx.
      apply list_elem_of_singleton in Hx'. subst x. auto.
    + apply NoDup_singleton.
  - apply Forall_app. split; [exact Hall|]. constructor; [|constructor].
    apply every_node_unfold. simpl. split; constructor.
Qed.

Lemma node_at_remove_at q i :
  forall t par,
    node_at q t = Some par ->
    node_at q (remove_at (q ++ [i]) t)
    = Some (set_children par (delete i (children par))).
Proof.
  induction q as [|j q IH]; intros t par; simpl.
  - intros [= <-]. reflexivity.
  - destruct (children t !! j) as [ch|] eqn:Ej; [|discriminate].
    intros Hq.
    replace (match (q ++ [i])%list with
             | [] => set_children t (delete j (children t))
             | _ :: _ => set_children t (<[j:=remove_at (q ++ [i]) ch]> (children t))
             end)
      with (set_children t (<[j:=remove_at (q ++ [i]) ch]> (children t)))
      by (destruct q; reflexivity).
    simpl.
    rewrite list_lookup_insert_eq by (apply lookup_lt_Some in Ej; exact Ej).
    apply IH, Hq.
Qed.

Lemma remove_at_name q t : name (remove_at q t) = name t.
Proof.
  destruct q as [|i [|j q]]; simpl; try reflexivity.
  destruct (children t !! i); reflexivity.
Qed.

Lemma remove_at_siblings q :
  forall t, siblings_distinct t -> siblings_distinct (remove_at q t).
Proof.
  unfold siblings_distinct.
  induction q as [|i q IH]; intros t Ht; [exact Ht|].
  apply every_node_unfold in Ht. destruct Ht as [Hnd Hall].
  destruct q as [|j q].
  - cbn [remove_at]. apply every_node_unfold. cbn [set_children children]. split.
    + change (NoDup (name <$> delete i (children t))).
      rewrite list_fmap_delete.
      apply (sublist_NoDup _ _ Hnd (sublist_delete _ i)).
    + apply Forall_delete, Hall.
  - cbn [remove_at]. fold (remove_at (j :: q)).
    destruct (children t !! i) as [ch|] eqn:Ei;
      [|apply every_node_unfold; split; assumption].
    apply every_node_unfold. cbn [set_children children]. split.
    + change (NoDup (name <$> <[i:=remove_at (j :: q) ch]> (children t))).
      rewrite list_fmap_insert, remove_at_name, list_insert_id; [exact Hnd|].
      rewrite list_lookup_fmap, Ei. reflexivity.
    + apply Forall_insert; [exact Hall|].
      apply IH. rewrite Forall_lookup in Hall. apply (Hall i ch Ei).
Qed.

Lemma removed_name_gone cs :
  forall i c,
    NoDup (map name cs) -> cs !! i = Some c ->
    find_child (name c) (delete i cs) = None.
Proof.
  induction cs as [|c0 cs IH]; intros i c Hnd Hi; [discriminate|].
  simpl in Hnd. apply NoDup_cons in Hnd. destruct Hnd as [Hc0 Hnd].
  destruct i as [|i]; simpl in *.
  - injection Hi as <-. apply find_child_None.
    intros Hin. apply Hc0, list_elem_of_In, Hin.
  - destruct (String.eqb (name c0) (name c)) eqn:E.
    + apply String.eqb_eq in E. exfalso. apply Hc0. rewrite E.
      apply list_elem_of_In, in_map, list_elem_of_In.
      apply (list_elem_of_lookup_2 _ _ _ Hi).
    + apply IH; assumption.
Qed.

Section ContextMenu.

Context {World : Type} `{Host World}.

Local Abbreviation M := (M World).
Local Abbreviation MainWindow := (MainWindow World).

Lemma addFolderAction_model q nm (s : MainWindow) :
  fst (QInputDialog_getText "New Folder" "Folder Name:" (world s)) = (nm, true) ->
  QString.isEmpty nm = false ->
  archiveModel (snd (addFolderAction q s))
  = update_at q (attach_folder nm) (archiveModel s).
Proof.
  intros Hans Hnm. unfold addFolderAction.
  rewrite bind_run, getText_run, Hans. cbn [fst snd andb negb]. rewrite Hnm.
  cbn [negb]. rewrite !bind_run. cbn [modify get fst snd archiveModel set_status].
  rewrite (keeps_addFiles (@archiveModel World)) by auto with flows.
  rewrite (keeps_temporaryFile (@archiveModel World)) by auto with flows.
  reflexivity.
Qed.

(** "Add Folder" with a confirmed name that is not empty: the item gets
    one more child, a Folder of that name whose path is the path of the
    item joined with the name, and counts as populated.  The path law of
    the tree is kept.  Sibling names stay distinct exactly when the item
    had no child of that name: the name is not looked up first. *)
Theorem addFolder_tree (q : list nat) (nm : string) (it : ArchiveItem)
    (s : MainWindow) :
  fst (QInputDialog_getText "New Folder" "Folder Name:" (world s)) = (nm, true) ->
  QString.isEmpty nm = false ->
  node_at q (archiveModel s) = Some it ->
  node_at q (archiveModel (snd (addFolderAction q s)))
  = Some (set_populated (set_children it (children it ++ [newFolder it nm])))
  /\ (paths_joined (archiveModel s) ->
      paths_joined (archiveModel (snd (addFolderAction q s))))
  /\ (siblings_distinct (archiveModel s) ->
      (siblings_distinct (archiveModel (snd (addFolderAction q s)))
       <-> ~ In nm (map name (children it)))).
Proof.
  intros Hans Hnm Hnode. rewrite (addFolderAction_model q nm s Hans Hnm).
  split; [apply (node_at_update_at q (attach_folder nm) _ _ Hnode)|]. split.
  - unfold paths_joined. intros Hpaths.
    apply update_at_every_node; try assumption.
    + intros n i ch ch'. apply paths_stable.
    + intros it0. split; reflexivity.
    + intros it0 _. apply attach_folder_paths.
  - intros Hsd. split.
    + intros Hsd'.
      pose proof (every_node_at _ q _ _ Hsd'
                    (node_at_update_at q (attach_folder nm) _ _ Hnode)) as Hat.
      apply every_node_unfold in Hat. destruct Hat as [Hnd _].
      cbn [attach_folder set_populated set_children children] in Hnd.
      rewrite map_app in Hnd. apply NoDup_app in Hnd.
      destruct Hnd as (_ & Hdisj & _).
      intros Hin. apply (Hdisj nm); [apply list_elem_of_In, Hin|].
      simpl. apply list_elem_of_singleton. reflexivity.
    + intros Hfresh. unfold siblings_distinct.
      apply update_at_every_node; try assumption.
      * intros n i ch ch'. apply siblings_stable.
      * intros it0. split; reflexivity.
      * intros it0 Hit0 Hsd0. rewrite Hnode in Hit0. injection Hit0 as <-.
        apply attach_folder_siblings; assumption.
Qed.

(** After "Add Folder" on an item, expanding that item does nothing:
    its entries are never listed afterwards. *)
Theorem addFolder_stops_expansion (r c : Z) (q : list nat) (nm : string)
    (it : ArchiveItem) (s : MainWindow) :
  fst (QInputDialog_getText "New Folder" "Folder Name:" (world s)) = (nm, true) ->
  QString.isEmpty nm = false ->
  node_at q (archiveModel s) = Some it ->
  snd (onArchiveExpanded (ArchiveModel.Index r c q) (snd (addFolderAction q s)))
  = snd (addFolderAction q s).
Proof.
  intros Hans Hnm Hnode.
  pose proof (addFolderAction_model q nm s Hans Hnm) as Hmodel.
  unfold onArchiveExpanded. rewrite bind_run. cbn [get fst snd].
  rewrite Hmodel, (node_at_update_at q (attach_folder nm) _ _ Hnode).
  reflexivity.
Qed.

Lemma removeAction_run q it (s : MainWindow) :
  node_at q (archiveModel s) = Some it ->
  snd (removeAction q s)
  = let args := "-d" :: m_archive (backend s) :: descendantPaths it in
    let s1 := record (EvProcess "zip" args)
                (set_world (snd (QProcess_run "zip" args (world s))) s) in
    if (exitCode (fst (QProcess_run "zip" args (world s))) =? 0)%Z
    then set_status "Removed selected entry/entries"
           (set_archiveModel (remove_at q (archiveModel s)) s1)
    else record (EvWarning "Remove failed"
                   "Backend failed to remove entries (CLI may rebuild archive).") s1.
Proof.
  intros Hnode. unfold removeAction.
  rewrite bind_run. cbn [get fst snd]. rewrite Hnode.
  rewrite bind_run. cbn [get fst snd].
  rewrite bind_run. unfold removeEntries. rewrite bind_run, run_run.
  rewrite collectPaths_out. cbn [app ret fst snd].
  destruct (exitCode _ =? 0)%Z; cbn [negb]; [|reflexivity].
  rewrite bind_run. reflexivity.
Qed.

(** "Remove" on the item in row [i] of the item at [q]: [zip -d] gets
    the archive and the collected paths of the item.  When [zip] fails
    the tree is left as it is and a warning is shown.  When it succeeds
    the row leaves its parent, the other rows keeping their order; in a
    tree with distinct sibling names they stay distinct and the parent
    has no child of the removed name any more. *)
Theorem remove_detaches_node (q : list nat) (i : nat) (par it : ArchiveItem)
    (s : MainWindow) :
  node_at q (archiveModel s) = Some par ->
  children par !! i = Some it ->
  let args := "-d" :: m_archive (backend s) :: descendantPaths it in
  let code := exitCode (fst (QProcess_run "zip" args (world s))) in
  (code <> 0%Z ->
   archiveModel (snd (removeAction (q ++ [i]) s)) = archiveModel s
   /\ journal (snd (removeAction (q ++ [i]) s))
      = (journal s
         ++ [EvProcess "zip" args;
             EvWarning "Remove failed"
               "Backend failed to remove entries (CLI may rebuild archive)."])%list)
  /\ (code = 0%Z ->
      journal (snd (removeAction (q ++ [i]) s))
      = (journal s ++ [EvProcess "zip" args])%list
      /\ node_at q (archiveModel (snd (removeAction (q ++ [i]) s)))
         = Some (set_children par (delete i (children par)))
      /\ (siblings_distinct (archiveModel s) ->
          siblings_distinct (archiveModel (snd (removeAction (q ++ [i]) s)))
          /\ find_child (name it) (delete i (children par)) = None)).
Proof.
  intros Hpar Hit args code.
  assert (Hnode : node_at (q ++ [i]) (archiveModel s) = Some it).
  { rewrite node_at_app, Hpar. simpl. rewrite Hit. reflexivity. }
  rewrite (removeAction_run (q ++ [i]) it s Hnode). cbv zeta.
  fold args. fold code. split.
  - intros Hcode. apply Z.eqb_neq in Hcode. rewrite Hcode.
    split; [reflexivity|]. cbn. rewrite <- app_assoc. reflexivity.
  - intros Hcode. rewrite Hcode. cbn [Z.eqb].
    cbn [archiveModel journal set_status set_archiveModel record set_world].
    split; [reflexivity|]. split; [apply node_at_remove_at, Hpar|].
    intros Hsd. split; [apply remove_at_siblings, Hsd|].
    apply removed_name_gone; [|exact Hit].
    pose proof (every_node_at _ q _ _ Hsd Hpar) as Hat.
    apply every_node_unfold in Hat. apply Hat.
Qed.

End ContextMenu.

Lemma addFolder_tree_witness :
  node_at [] (archiveModel (snd (@addFolderAction unit (toyHost types_docs) []
                                   toyTreeWindow)))
  = Some (set_populated
            (set_children (archiveModel toyTreeWindow)
               (children (archiveModel toyTreeWindow)
                ++ [newFolder (archiveModel toyTreeWindow) "docs"])))
  /\ (paths_joined (archiveModel toyTreeWindow) ->
      paths_joined (archiveModel (snd (@addFolderAction unit (toyHost types_docs) []
                                         toyTreeWindow))))
  /\ (siblings_distinct (archiveModel toyTreeWindow) ->
      (siblings_distinct
         (archiveModel (snd (@addFolderAction unit (toyHost types_docs) []
                               toyTreeWindow)))
       <-> ~ In "docs" (map name (children (archiveModel toyTreeWindow))))).
Proof.
  apply (@addFolder_tree unit (toyHost types_docs) [] "docs"
           (archiveModel toyTreeWindow) toyTreeWindow); reflexivity.
Defined.

Lemma addFolder_stops_expansion_witness :
  snd (@onArchiveExpanded unit (toyHost types_docs) (ArchiveModel.Index 0 0 [0])
         (snd (@addFolderAction unit (toyHost types_docs) [0] toyTreeWindow)))
  = snd (@addFolderAction unit (toyHost types_docs) [0] toyTreeWindow).
Proof.
  apply (@addFolder_stops_expansion unit (toyHost types_docs) 0 0 [0] "docs"
           {| name := "a"; type := Folder;
              children := [ {| name := "b.txt"; type := File; children := [];
                               fullPathInArchive := "a/b.txt";
                               childrenPopulated := false |} ];
              fullPathInArchive := "a"; childrenPopulated := false |}
           toyTreeWindow); reflexivity.
Defined.

Lemma remove_detaches_node_witness :
  siblings_distinct
    (archiveModel (snd (@removeAction unit (toyHost types_docs) ([] ++ [0])
                          toyTreeWindow)))
  /\ find_child "a" (delete 0 (children (archiveModel toyTreeWindow))) = None.
Proof.
  pose proof (@remove_detaches_node unit (toyHost types_docs) [] 0
                (archiveModel toyTreeWindow)
                {| name := "a"; type := Folder;
                   children := [ {| name := "b.txt"; type := File; children := [];
                                    fullPathInArchive := "a/b.txt";
                                    childrenPopulated := false |} ];
                   fullPathInArchive := "a"; childrenPopulated := false |}
                toyTreeWindow eq_refl eq_refl) as Hw.
  cbv zeta in Hw. destruct Hw as [_ Hw].
  apply Hw; [reflexivity|].
  apply produced_siblings_distinct.
  change (archiveModel toyTreeWindow) with (populateAt [] ["a/b.txt"; "x"] "" root0).
  apply produced_call, produced_new.
Defined.

(* ===================================================================== *)
(** * How an attempt to open an archive ends *)
(* ===================================================================== *)

Section Outcomes.

Context {World : Type} `{Host World}.

Local Abbreviation M := (M World).
Local Abbreviation MainWindow := (MainWindow World).

Lemma loadArchiveEntries_effect entries archivePath (s : MainWindow) :
  archiveStack (snd (loadArchiveEntries entries archivePath s))
  = [QFileInfo_fileName archivePath]
  /\ status (snd (loadArchiveEntries entries archivePath s))
     = "Opened: " ++ archivePath
  /\ archiveModel (snd (loadArchiveEntries entries archivePath s))
     = populateFromList entries "" (clear (archiveModel s))
  /\ currentArchive (snd (loadArchiveEntries entries archivePath s))
     = currentArchive s.
Proof.
  unfold loadArchiveEntries, updateStatusBar.
  repeat (rewrite bind_run; cbn [modify get fst snd]).
  cbn [archiveStack status archiveModel currentArchive set_status set_archiveStack
       set_metadataView].
  rewrite (keeps_loadMetadata (@archiveModel World)) by auto with flows.
  rewrite (keeps_loadMetadata (@currentArchive World)) by auto with flows.
  repeat split; reflexivity.
Qed.

Lemma untouched_refl (s : MainWindow) : untouched s s.
Proof. unfold untouched. auto 10. Qed.

Lemma untouched_trans (s1 s2 s3 : MainWindow) :
  untouched s1 s2 -> untouched s2 s3 -> untouched s1 s3.
Proof. unfold untouched. intuition congruence. Qed.

Lemma untouched_after_listing pw (s : MainWindow) : untouched s (after_listing pw s).
Proof. unfold untouched. cbn. auto 10. Qed.

Lemma opened_after_untouched archivePath pw (s1 s2 s3 : MainWindow) :
  untouched s1 s2 -> opened_with archivePath pw s2 s3 ->
  opened_with archivePath pw s1 s3.
Proof.
  unfold untouched, opened_with.
  intros (_ & _ & _ & Hm & Hc & _ & _ & Ha) (H1 & H2 & H3 & H4 & H5 & es & H6 & H7).
  rewrite Ha in H2. rewrite Hm in H7. rewrite Hc in H5.
  split; [exact H1|]. split; [exact H2|]. split; [exact H3|]. split; [exact H4|].
  split; [exact H5|]. exists es. auto.
Qed.

(** [loadArchiveEntries] on a listing that is not empty, after the
    listing with [pw] and with [pw] in the cache for [archivePath]. *)
Lemma opened_by_listing archivePath pw e es (s s1 : MainWindow) :
  backend s1 = backend (after_listing pw s) ->
  archiveModel s1 = archiveModel s ->
  currentArchive s1 = currentArchive s ->
  passwordCache s1 !! archivePath = Some pw ->
  opened_with archivePath pw s
    (snd (loadArchiveEntries (e :: es) archivePath s1)).
Proof.
  intros Hb Hm Hc Hcache.
  destruct (loadArchiveEntries_effect (e :: es) archivePath s1)
    as (Hstack & Hstatus & Hmodel & Hcur).
  unfold opened_with.
  rewrite keeps_loadArchiveEntries_cache, keeps_loadArchiveEntries_backend.
  rewrite Hstack, Hstatus, Hmodel, Hcur, Hb, Hm, Hc.
  split; [exact Hcache|]. split; [reflexivity|]. split; [reflexivity|].
  split; [reflexivity|]. split; [reflexivity|].
  exists (e :: es). split; [discriminate | reflexivity].
Qed.

Lemma attemptGlobalPasswords_outcome archivePath pws :
  forall s : MainWindow,
    match fst (attemptGlobalPasswords archivePath pws s) with
    | Some pw =>
        In pw pws
        /\ opened_with archivePath pw s (snd (attemptGlobalPasswords archivePath pws s))
        /\ globalPasswords (snd (attemptGlobalPasswords archivePath pws s))
           = globalPasswords s
    | None => untouched s (snd (attemptGlobalPasswords archivePath pws s))
    end.
Proof.
  induction pws as [|pw0 rest IH]; intros s.
  - simpl. apply untouched_refl.
  - cbn [attemptGlobalPasswords]. rewrite try_listing.
    destruct (listing (mkCliArchiveHandler (m_archive (backend s)) pw0) (world s))
      as [|e es] eqn:El; cbn [nonEmpty].
    + specialize (IH (after_listing pw0 s)).
      destruct (fst (attemptGlobalPasswords archivePath rest (after_listing pw0 s)))
        as [pw|].
      * destruct IH as (Hin & Hopen & Hpool). split; [right; exact Hin|]. split.
        -- apply (opened_after_untouched _ _ _ _ _ (untouched_after_listing pw0 s) Hopen).
        -- rewrite Hpool. reflexivity.
      * apply (untouched_trans _ _ _ (untouched_after_listing pw0 s) IH).
    + rewrite !bind_run. cbn [modify ret fst snd].
      split; [left; reflexivity|]. split.
      * apply (opened_by_listing archivePath pw0 e es s); try reflexivity.
        cbn [passwordCache set_passwordCache]. apply lookup_insert_eq.
      * rewrite keeps_loadArchiveEntries_pool. reflexivity.
Qed.

Lemma pool_append_ok pw (s : MainWindow) :
  pool_ok s ->
  pool_ok (if negb (QString.isEmpty pw)
              && negb (existsb (String.eqb pw) (globalPasswords s))
           then set_globalPasswords (globalPasswords s ++ [pw]) s
           else s).
Proof.
  intros [Hnd Hne].
  destruct (negb (QString.isEmpty pw)
            && negb (existsb (String.eqb pw) (globalPasswords s))) eqn:E;
    [|split; assumption].
  apply andb_true_iff in E. destruct E as [Epw Ein].
  apply negb_true_iff in Epw, Ein.
  unfold pool_ok. cbn [globalPasswords set_globalPasswords]. split.
  - apply NoDup_app. repeat split; [exact Hnd| |apply NoDup_singleton].
    intros x Hx Hx'. apply list_elem_of_singleton in Hx'. subst x.
    apply list_elem_of_In in Hx.
    assert (existsb (String.eqb pw) (globalPasswords s) = true); [|congruence].
    apply existsb_exists. exists pw. split; [exact Hx | apply String.eqb_refl].
  - intros Hin. apply in_app_or in Hin. destruct Hin as [Hin | [Heq | []]].
    + apply Hne, Hin.
    + subst pw. discriminate Epw.
Qed.

Lemma attemptPrompt_outcome archivePath (s : MainWindow) :
  match fst (attemptPrompt archivePath s) with
  | Resolved pw => opened_with archivePath pw s (snd (attemptPrompt archivePath s))
  | _ => untouched s (snd (attemptPrompt archivePath s))
  end
  /\ (pool_ok s -> pool_ok (snd (attemptPrompt archivePath s))).
Proof.
  unfold attemptPrompt. rewrite bind_run, getText_run.
  destruct (fst (QInputDialog_getText "Password Required"
                   ("Enter password for " ++ QFileInfo_fileName archivePath)
                   (world s))) as [pw ok].
  cbn [fst snd]. destruct ok; cbn [negb].
  - rewrite try_listing.
    set (s1 := record _ (set_world _ s)).
    destruct (listing (mkCliArchiveHandler (m_archive (backend s1)) pw) (world s1))
      as [|e es] eqn:El; cbn [nonEmpty].
    + rewrite bind_run. cbn. split; [|auto]. unfold untouched. cbn. auto 10.
    + rewrite !bind_run. cbn [modify ret fst snd]. split.
      * assert (Hu : untouched s s1) by (unfold untouched; cbn; auto 10).
        apply (opened_after_untouched _ _ _ _ _ Hu).
        apply (opened_by_listing archivePath pw e es s1).
        -- destruct (negb (QString.isEmpty pw) && _); reflexivity.
        -- destruct (negb (QString.isEmpty pw) && _); reflexivity.
        -- destruct (negb (QString.isEmpty pw) && _); reflexivity.
        -- destruct (negb (QString.isEmpty pw) && _);
             cbn [passwordCache set_passwordCache set_globalPasswords];
             apply lookup_insert_eq.
      * intros Hpool. unfold pool_ok.
        rewrite keeps_loadArchiveEntries_pool.
        apply (pool_append_ok pw
                 (set_passwordCache
                    (<[archivePath:=pw]> (passwordCache (after_listing pw s1)))
                    (after_listing pw s1))).
        exact Hpool.
  - cbn. split; [|auto]. unfold untouched. cbn. auto 10.
Qed.

Lemma attempt_outcome archivePath (s : MainWindow) :
  match fst (attemptPasswordAndLoadArchive archivePath s) with
  | Resolved pw =>
      opened_with archivePath pw s (snd (attemptPasswordAndLoadArchive archivePath s))
  | _ => untouched s (snd (attemptPasswordAndLoadArchive archivePath s))
  end
  /\ (pool_ok s -> pool_ok (snd (attemptPasswordAndLoadArchive archivePath s))).
Proof.
  assert (Hrest : forall s1 : MainWindow,
             untouched s s1 ->
             let r := match attemptGlobalPasswords archivePath (globalPasswords s1) s1 with
                      | (Some pw, s') => (Resolved pw, s')
                      | (None, s') => attemptPrompt archivePath s'
                      end in
             match fst r with
             | Resolved pw => opened_with archivePath pw s (snd r)
             | _ => untouched s (snd r)
             end
             /\ (pool_ok s -> pool_ok (snd r))).
  { intros s1 Hu. cbv zeta.
    pose proof (attemptGlobalPasswords_outcome archivePath (globalPasswords s1) s1)
      as Hloop.
    destruct (attemptGlobalPasswords archivePath (globalPasswords s1) s1)
      as [[pw|] s2]; cbn [fst snd] in *.
    - destruct Hloop as (_ & Hopen & Hpool). split.
      + apply (opened_after_untouched _ _ _ _ _ Hu Hopen).
      + unfold pool_ok. rewrite Hpool.
        destruct Hu as (_ & -> & _). auto.
    - destruct (attemptPrompt_outcome archivePath s2) as [Hout Hpool].
      pose proof (untouched_trans _ _ _ Hu Hloop) as Hu2. split.
      + destruct (fst (attemptPrompt archivePath s2)).
        * apply (opened_after_untouched _ _ _ _ _ Hu2 Hout).
        * apply (untouched_trans _ _ _ Hu2 Hout).
        * apply (untouched_trans _ _ _ Hu2 Hout).
      + intros Hs. apply Hpool. unfold pool_ok.
        destruct Hu2 as (_ & -> & _). exact Hs. }
  unfold attemptPasswordAndLoadArchive.
  rewrite bind_run. cbn [get fst snd].
  destruct (passwordCache s !! archivePath) as [pw0|] eqn:Hcache.
  - rewrite bind_run, try_listing.
    destruct (listing (mkCliArchiveHandler (m_archive (backend s)) pw0) (world s))
      as [|e es] eqn:El; cbn [nonEmpty].
    + cbn [ret fst snd]. rewrite bind_run. cbn [get fst snd]. rewrite bind_run.
      specialize (Hrest _ (untouched_after_listing pw0 s)). cbv zeta in Hrest.
      destruct (attemptGlobalPasswords archivePath
                  (globalPasswords (after_listing pw0 s)) (after_listing pw0 s))
        as [[pw|] s2]; exact Hrest.
    + rewrite !bind_run. cbn [ret fst snd]. split.
      * apply (opened_by_listing archivePath pw0 e es s); try reflexivity.
        exact Hcache.
      * unfold pool_ok. rewrite keeps_loadArchiveEntries_pool. auto.
  - rewrite bind_run. cbn [ret fst snd]. rewrite bind_run. cbn [get fst snd].
    rewrite bind_run.
    specialize (Hrest s (untouched_refl s)). cbv zeta in Hrest.
    destruct (attemptGlobalPasswords archivePath (globalPasswords s) s)
      as [[pw|] s2]; exact Hrest.
Qed.

(** When an attempt ends as Resolved with [pw], the cache has [pw] for
    the archive, the backend carries [pw], the breadcrumb is the one
    frame of the archive, and the tree is a non-empty listing put below
    the emptied root. *)
Theorem resolved_means_opened (archivePath pw : string) (s : MainWindow) :
  fst (attemptPasswordAndLoadArchive archivePath s) = Resolved pw ->
  passwordCache (snd (attemptPasswordAndLoadArchive archivePath s)) !! archivePath
  = Some pw
  /\ backend (snd (attemptPasswordAndLoadArchive archivePath s))
     = mkCliArchiveHandler (m_archive (backend s)) pw
  /\ archiveStack (snd (attemptPasswordAndLoadArchive archivePath s))
     = [QFileInfo_fileName archivePath]
  /\ status (snd (attemptPasswordAndLoadArchive archivePath s))
     = "Opened: " ++ archivePath
  /\ currentArchive (snd (attemptPasswordAndLoadArchive archivePath s))
     = currentArchive s
  /\ exists entries,
       entries <> []
       /\ archiveModel (snd (attemptPasswordAndLoadArchive archivePath s))
          = populateFromList entries "" (clear (archiveModel s)).
Proof.
  intros Hres. destruct (attempt_outcome archivePath s) as [Hout _].
  rewrite Hres in Hout. exact Hout.
Qed.

(** When an attempt does not end as Resolved, by a cancelled dialog or a
    password that fails, the cache, the pool, the breadcrumb, the tree,
    the current archive, the manifest text, the status and the archive of
    the backend are what they were. *)
Theorem unresolved_changes_nothing (archivePath : string) (s : MainWindow) :
  (forall pw, fst (attemptPasswordAndLoadArchive archivePath s) <> Resolved pw) ->
  passwordCache (snd (attemptPasswordAndLoadArchive archivePath s)) = passwordCache s
  /\ globalPasswords (snd (attemptPasswordAndLoadArchive archivePath s))
     = globalPasswords s
  /\ archiveStack (snd (attemptPasswordAndLoadArchive archivePath s)) = archiveStack s
  /\ archiveModel (snd (attemptPasswordAndLoadArchive archivePath s)) = archiveModel s
  /\ currentArchive (snd (attemptPasswordAndLoadArchive archivePath s))
     = currentArchive s
  /\ metadataView (snd (attemptPasswordAndLoadArchive archivePath s)) = metadataView s
  /\ status (snd (attemptPasswordAndLoadArchive archivePath s)) = status s
  /\ m_archive (backend (snd (attemptPasswordAndLoadArchive archivePath s)))
     = m_archive (backend s).
Proof.
  intros Hres. destruct (attempt_outcome archivePath s) as [Hout _].
  destruct (fst (attemptPasswordAndLoadArchive archivePath s)) as [pw| |];
    [contradiction (Hres pw); reflexivity | exact Hout | exact Hout].
Qed.

End Outcomes.

Lemma resolved_means_opened_witness :
  passwordCache
    (snd (@attemptPasswordAndLoadArchive unit (toyHost only_y) "/home/u/A.vfsarc"
            (toyWindow ∅ ["x"; "y"]))) !! "/home/u/A.vfsarc" = Some "y"
  /\ backend
       (snd (@attemptPasswordAndLoadArchive unit (toyHost only_y) "/home/u/A.vfsarc"
               (toyWindow ∅ ["x"; "y"])))
     = mkCliArchiveHandler "/home/u/A.vfsarc" "y"
  /\ archiveStack
       (snd (@attemptPasswordAndLoadArchive unit (toyHost only_y) "/home/u/A.vfsarc"
               (toyWindow ∅ ["x"; "y"]))) = ["A.vfsarc"]
  /\ status
       (snd (@attemptPasswordAndLoadArchive unit (toyHost only_y) "/home/u/A.vfsarc"
               (toyWindow ∅ ["x"; "y"]))) = "Opened: /home/u/A.vfsarc"
  /\ currentArchive
       (snd (@attemptPasswordAndLoadArchive unit (toyHost only_y) "/home/u/A.vfsarc"
               (toyWindow ∅ ["x"; "y"]))) = "/home/u/A.vfsarc"
  /\ exists entries,
       entries <> []
       /\ archiveModel
            (snd (@attemptPasswordAndLoadArchive unit (toyHost only_y)
                    "/home/u/A.vfsarc" (toyWindow ∅ ["x"; "y"])))
          = populateFromList entries "" (clear root0).
Proof.
  apply (@resolved_means_opened unit (toyHost only_y) "/home/u/A.vfsarc" "y"
           (toyWindow ∅ ["x"; "y"])).
  vm_compute. reflexivity.
Defined.

Lemma unresolved_changes_nothing_witness :
  passwordCache
    (snd (@attemptPasswordAndLoadArchive unit (toyHost confirms_empty)
            "/home/u/A.vfsarc" (toyWindow ∅ ["x"; "y"]))) = ∅
  /\ globalPasswords
       (snd (@attemptPasswordAndLoadArchive unit (toyHost confirms_empty)
               "/home/u/A.vfsarc" (toyWindow ∅ ["x"; "y"]))) = ["x"; "y"]
  /\ archiveStack
       (snd (@attemptPasswordAndLoadArchive unit (toyHost confirms_empty)
               "/home/u/A.vfsarc" (toyWindow ∅ ["x"; "y"]))) = []
  /\ archiveModel
       (snd (@attemptPasswordAndLoadArchive unit (toyHost confirms_empty)
               "/home/u/A.vfsarc" (toyWindow ∅ ["x"; "y"]))) = root0
  /\ currentArchive
       (snd (@attemptPasswordAndLoadArchive unit (toyHost confirms_empty)
               "/home/u/A.vfsarc" (toyWindow ∅ ["x"; "y"]))) = "/home/u/A.vfsarc"
  /\ metadataView
       (snd (@attemptPasswordAndLoadArchive unit (toyHost confirms_empty)
               "/home/u/A.vfsarc" (toyWindow ∅ ["x"; "y"]))) = ""
  /\ status
       (snd (@attemptPasswordAndLoadArchive unit (toyHost confirms_empty)
               "/home/u/A.vfsarc" (toyWindow ∅ ["x"; "y"]))) = "Ready"
  /\ m_archive
       (backend (snd (@attemptPasswordAndLoadArchive unit (toyHost confirms_empty)
                        "/home/u/A.vfsarc" (toyWindow ∅ ["x"; "y"]))))
     = "/home/u/A.vfsarc".
Proof.
  apply (@unresolved_changes_nothing unit (toyHost confirms_empty) "/home/u/A.vfsarc"
           (toyWindow ∅ ["x"; "y"])).
  intros pw. vm_compute. discriminate.
Defined.

(* ===================================================================== *)
(** * The pool stays a set of passwords that are not empty *)
(* ===================================================================== *)

Section Pool.

Context {World : Type} `{Host World}.

Local Abbreviation M := (M World).
Local Abbreviation MainWindow := (MainWindow World).

Lemma preserves_bind {A B : Type} (I : MainWindow -> Prop) (m : M A) (k : A -> M B) :
  preserves I m -> (forall a, preserves I (k a)) -> preserves I (bind m k).
Proof. intros Hm Hk s Hs. rewrite bind_run. apply Hk, Hm, Hs. Qed.

Lemma preserves_pool_keeps {A : Type} (m : M A) :
  keeps (@globalPasswords World) m -> preserves pool_ok m.
Proof. intros Hm s Hs. unfold pool_ok. rewrite Hm. exact Hs. Qed.

Lemma keeps_openNested_pool tmp entry :
  keeps (@globalPasswords World) (openNested tmp entry).
Proof.
  unfold openNested, openArchive, updateStatusBar.
  pose proof (fun h => keeps_loadMetadata (@globalPasswords World) h
                         inner_globalPasswords).
  pose proof (fun h p => keeps_listEntries (@globalPasswords World) h p
                           inner_globalPasswords).
  flow.
Qed.

Lemma keeps_extract_pool h entry :
  keeps (@globalPasswords World) (extractEntryToTemp h entry).
Proof. apply keeps_extractEntryToTemp, inner_globalPasswords. Qed.

Lemma keeps_tryPasswords_pool entry :
  keeps (@globalPasswords World) (tryPasswordsForEntryAndExtract entry).
Proof. apply keeps_tryPasswords; [apply inner_globalPasswords | reflexivity]. Qed.

Lemma preserves_promptPassword entry :
  preserves pool_ok (promptPasswordForArchiveAndLoad entry).
Proof.
  intros s Hs. unfold promptPasswordForArchiveAndLoad.
  rewrite bind_run, getText_run.
  destruct (fst (QInputDialog_getText "Password Required"
                   ("Enter password to extract " ++ entry) (world s))) as [pw ok].
  cbn [fst snd]. destruct ok; cbn [negb orb]; [|exact Hs].
  destruct (QString.isEmpty pw) eqn:Epw; [exact Hs|].
  rewrite bind_run. cbn [setPassword modify fst snd].
  rewrite bind_run. cbn [get fst snd]. rewrite bind_run.
  match goal with
  | |- context [extractEntryToTemp ?h entry ?st] =>
      pose proof (keeps_extract_pool h entry st) as Hx;
      destruct (extractEntryToTemp h entry st) as [[tmp|] s3]
  end; cbn [fst snd] in *.
  - rewrite !bind_run. cbn [modify fst snd].
    unfold pool_ok. rewrite keeps_openNested_pool.
    pose proof (pool_append_ok pw
                  (set_passwordCache (<[m_archive (backend s3):=pw]> (passwordCache s3))
                     s3)) as Happ.
    rewrite Epw in Happ. cbn [negb andb] in Happ. apply Happ.
    unfold pool_ok. cbn [globalPasswords set_passwordCache]. rewrite Hx. exact Hs.
  - unfold pool_ok. cbn. rewrite Hx. exact Hs.
Qed.

Lemma onOpenArchive_run (s : MainWindow) :
  let (file, w) := QFileDialog_getOpenFileName (world s) in
  let s1 := set_world w s in
  let s2 := set_backend (mkCliArchiveHandler file (m_password (backend s))) s1 in
  onOpenArchive s
  = if QString.isEmpty file then (tt, s1)
    else if QFile_exists file w
         then (tt, snd (attemptPasswordAndLoadArchive file (set_currentArchive file s2)))
         else warning (World:=World) "Open failed" ("Could not open archive: " ++ file) s2.
Proof.
  unfold onOpenArchive. rewrite bind_run.
  destruct (QFileDialog_getOpenFileName (world s)) as [file w]. cbn [fst snd].
  destruct (QString.isEmpty file); [reflexivity|].
  rewrite bind_run. cbn [get fst snd]. rewrite bind_run.
  unfold openArchive. rewrite bind_run. cbn [get ret fst snd world set_world].
  destruct (QFile_exists file w); cbn [negb].
  - rewrite !bind_run. cbn [modify ret fst snd]. reflexivity.
  - rewrite bind_run. cbn [modify ret fst snd]. reflexivity.
Qed.

(** Every flow that can add to the pool keeps it free of duplicates and
    of the empty password: opening an archive, the prompt for a nested
    entry, a double click and the Open action. *)
Theorem pool_stays_a_set (archivePath entry : string) (idx : option ArchiveItem)
    (s : MainWindow) :
  NoDup (globalPasswords s) -> ~ In "" (globalPasswords s) ->
  (NoDup (globalPasswords (snd (attemptPasswordAndLoadArchive archivePath s)))
   /\ ~ In "" (globalPasswords (snd (attemptPasswordAndLoadArchive archivePath s))))
  /\ (NoDup (globalPasswords (snd (promptPasswordForArchiveAndLoad entry s)))
      /\ ~ In "" (globalPasswords (snd (promptPasswordForArchiveAndLoad entry s))))
  /\ (NoDup (globalPasswords (snd (onArchiveDoubleClicked idx s)))
      /\ ~ In "" (globalPasswords (snd (onArchiveDoubleClicked idx s))))
  /\ (NoDup (globalPasswords (snd (onOpenArchive s)))
      /\ ~ In "" (globalPasswords (snd (onOpenArchive s)))).
Proof.
  intros Hnd Hne. assert (Hs : pool_ok s) by (split; assumption).
  split; [apply (proj2 (attempt_outcome archivePath s) Hs)|].
  split; [apply (preserves_promptPassword entry s Hs)|].
  split.
  - clear Hnd Hne. revert s Hs.
    change (preserves pool_ok (onArchiveDoubleClicked idx)).
    unfold onArchiveDoubleClicked.
    destruct idx as [it|]; [|intros s Hs; exact Hs].
    assert (Hopen : forall tmp e, preserves pool_ok (openNested tmp e))
      by (intros; apply preserves_pool_keeps, keeps_openNested_pool).
    assert (Hx : forall h e, preserves pool_ok (extractEntryToTemp h e))
      by (intros; apply preserves_pool_keeps, keeps_extract_pool).
    assert (Hget : forall A (f : MainWindow -> A), preserves pool_ok (get f))
      by (intros A f s0 Hs0; exact Hs0).
    destruct (type it).
    + apply preserves_bind; [apply Hget | intros b].
      apply preserves_bind; [apply Hx | intros [p|]]; intros s0 Hs0; exact Hs0.
    + apply preserves_bind; [apply Hget | intros b].
      apply preserves_bind; [apply Hx | intros [p|]]; intros s0 Hs0; exact Hs0.
    + apply preserves_bind; [apply Hget | intros b].
      apply preserves_bind; [apply Hx | intros [tmp|]]; [apply Hopen|].
      apply preserves_bind;
        [apply preserves_pool_keeps, keeps_tryPasswords_pool | intros [tmp|]];
        [apply Hopen | apply preserves_promptPassword].
  - pose proof (onOpenArchive_run s) as Hrun.
    destruct (QFileDialog_getOpenFileName (world s)) as [file w].
    cbv zeta in Hrun. rewrite Hrun.
    destruct (QString.isEmpty file); [exact Hs|].
    destruct (QFile_exists file w); [|exact Hs].
    cbn [snd].
    match goal with
    | |- context [attemptPasswordAndLoadArchive file ?st] =>
        pose proof (proj2 (attempt_outcome file st)) as Hpool
    end.
    unfold pool_ok in Hpool, Hs.
    cbn [globalPasswords set_currentArchive set_backend set_world] in Hpool.
    apply Hpool. exact Hs.
Qed.

End Pool.

Lemma pool_stays_a_set_witness :
  NoDup (globalPasswords
           (snd (@attemptPasswordAndLoadArchive unit (toyHost confirms_pw1)
                   "/home/u/A.vfsarc" (toyWindow ∅ ["x"; "y"]))))
  /\ ~ In "" (globalPasswords
                (snd (@attemptPasswordAndLoadArchive unit (toyHost confirms_pw1)
                        "/home/u/A.vfsarc" (toyWindow ∅ ["x"; "y"])))).
Proof.
  assert (Hnd : NoDup ["x"; "y"]) by (apply (bool_decide_unpack _); vm_compute; exact I).
  assert (Hne : ~ In "" ["x"; "y"]) by (simpl; intros [|[|[]]]; discriminate).
  exact (proj1 (@pool_stays_a_set unit (toyHost confirms_pw1) "/home/u/A.vfsarc"
                  "inner.vfsarc" None (toyWindow ∅ ["x"; "y"]) Hnd Hne)).
Defined.

(* ===================================================================== *)
(** * What Remove collects *)
(* ===================================================================== *)

Lemma through_folders_node_at path :
  forall t n, through_folders path t = Some n -> node_at path t = Some n.
Proof.
  induction path as [|i path IH]; intros t n Hn; cbn [through_folders node_at] in *.
  - exact Hn.
  - destruct (type t); try discriminate.
    destruct (children t !! i) as [ch|]; [apply IH, Hn | discriminate].
Qed.

Lemma descendantPaths_reached node :
  forall p,
    In p (descendantPaths node)
    <-> exists path n,
          through_folders path node = Some n
          /\ type n <> Folder /\ fullPathInArchive n = p.
Proof.
  induction node as [[nm ty cs fp pop] IH] using ArchiveItem_tree_ind.
  intros p. cbn [children] in IH.
  assert (Hleaf : ty <> Folder ->
            (In p [fp] <->
             exists path n,
               through_folders path (mkArchiveItem nm ty cs fp pop) = Some n
               /\ type n <> Folder /\ fullPathInArchive n = p)).
  { intros Hty. split.
    - intros [<- | []]. exists [], (mkArchiveItem nm ty cs fp pop).
      repeat split. exact Hty.
    - intros (path & n & Hn & Hk & Hp). destruct path as [|i path].
      + cbn in Hn. injection Hn as <-. left. exact Hp.
      + cbn [through_folders type] in Hn. destruct ty; try discriminate.
        contradiction. }
  destruct ty; [apply Hleaf; discriminate | | apply Hleaf; discriminate].
  clear Hleaf. cbn [descendantPaths type children].
  assert (Hcs : forall l : list ArchiveItem,
            Forall (fun c => forall p0,
                      In p0 (descendantPaths c)
                      <-> exists path n,
                            through_folders path c = Some n
                            /\ type n <> Folder /\ fullPathInArchive n = p0) l ->
            (In p ((fix each (cs0 : list ArchiveItem) : list string :=
                      match cs0 with
                      | [] => []
                      | ch :: rest => (descendantPaths ch ++ each rest)%list
                      end) l)
             <-> exists i ch path n,
                   l !! i = Some ch /\ through_folders path ch = Some n
                   /\ type n <> Folder /\ fullPathInArchive n = p)).
  { clear. induction l as [|c l IHl]; intros Hall.
    - split; [intros [] | intros (i & ch & _ & _ & Hi & _); discriminate].
    - inversion Hall as [|? ? Hc Hl]; subst. rewrite in_app_iff, Hc, (IHl Hl).
      split.
      + intros [(path & n & Hn) | (i & ch & path & n & Hi & Hn)].
        * exists 0%nat, c, path, n. split; [reflexivity | exact Hn].
        * exists (S i), ch, path, n. split; [exact Hi | exact Hn].
      + intros (i & ch & path & n & Hi & Hn). destruct i as [|i].
        * injection Hi as <-. left. exists path, n. exact Hn.
        * right. exists i, ch, path, n. split; [exact Hi | exact Hn]. }
  rewrite (Hcs cs IH). split.
  - intros (i & ch & path & n & Hi & Hn & Hk & Hp).
    exists (i :: path), n. cbn [through_folders type children]. rewrite Hi.
    repeat split; assumption.
  - intros (path & n & Hn & Hk & Hp). destruct path as [|i path].
    + cbn in Hn. injection Hn as <-. cbn in Hk. contradiction.
    + cbn [through_folders type children] in Hn.
      destruct (cs !! i) as [ch|] eqn:Hi; [|discriminate].
      exists i, ch, path, n. repeat split; assumption.
Qed.

(** [collectPathsRecursively] adds to [out] exactly the paths of the
    nodes that are not Folders and are reached through Folders only:
    nothing below a File or a nested archive, and never the path of a
    Folder itself.  What was in [out] stays in front. *)
Theorem collected_paths_reached (node : ArchiveItem) (out : list string) :
  (exists added,
      collectPathsRecursively node out = (out ++ added)%list
      /\ forall p,
           In p added
           <-> exists path n,
                 through_folders path node = Some n
                 /\ node_at path node = Some n
                 /\ type n <> Folder /\ fullPathInArchive n = p)
  /\ (type node = Folder -> children node = [] ->
      collectPathsRecursively node out = out).
Proof.
  split.
  - exists (descendantPaths node). split; [apply collectPaths_out|].
    intros p. rewrite descendantPaths_reached. split.
    + intros (path & n & Hn & Hk & Hp). exists path, n.
      repeat split; try assumption. apply through_folders_node_at, Hn.
    + intros (path & n & Hn & _ & Hk & Hp). exists path, n.
      repeat split; assumption.
  - intros Hty Hcs. destruct node as [nm ty cs fp pop]. cbn in Hty, Hcs. subst.
    reflexivity.
Qed.

(* ===================================================================== *)
(** * The entries of a listing *)
(* ===================================================================== *)

Lemma string_app_cons (x : ascii) (a b : string) :
  (String x a ++ b)%string = String x (a ++ b).
Proof. reflexivity. Qed.

Lemma string_app_assoc (a b c : string) : ((a ++ b) ++ c = a ++ (b ++ c))%string.
Proof.
  induction a as [|x a IH]; [reflexivity|].
  rewrite !string_app_cons, IH. reflexivity.
Qed.

Lemma string_app_nil_r (a : string) : (a ++ "")%string = a.
Proof.
  induction a as [|x a IH]; [reflexivity|].
  rewrite string_app_cons, IH. reflexivity.
Qed.

Lemma rev_onto_app (s acc : string) :
  QString.rev_onto s acc = (QString.reversed s ++ acc)%string.
Proof.
  unfold QString.reversed. revert acc.
  induction s as [|x s IH]; intros acc; cbn [QString.rev_onto]; [reflexivity|].
  rewrite (IH (String x acc)), (IH (String x EmptyString)), string_app_assoc.
  reflexivity.
Qed.

Lemma reversed_app (a b : string) :
  QString.reversed (a ++ b) = (QString.reversed b ++ QString.reversed a)%string.
Proof.
  induction a as [|x a IH].
  - change (QString.reversed b = (QString.reversed b ++ "")%string).
    rewrite string_app_nil_r. reflexivity.
  - rewrite string_app_cons.
    change (QString.rev_onto (a ++ b) (String x EmptyString)
            = (QString.reversed b ++ QString.rev_onto a (String x EmptyString))%string).
    rewrite (rev_onto_app (a ++ b)), (rev_onto_app a), IH, string_app_assoc.
    reflexivity.
Qed.

Lemma reversed_involutive (s : string) : QString.reversed (QString.reversed s) = s.
Proof.
  induction s as [|x s IH]; [reflexivity|].
  change (QString.reversed (QString.rev_onto s (String x EmptyString)) = String x s).
  rewrite rev_onto_app, reversed_app, IH. reflexivity.
Qed.

Lemma trim_left_split (s : string) :
  exists sp, s = (sp ++ QString.trim_left s)%string.
Proof.
  induction s as [|x s [sp IH]]; cbn [QString.trim_left].
  - exists EmptyString. reflexivity.
  - destruct (QString.is_space x).
    + exists (String x sp). rewrite string_app_cons, <- IH. reflexivity.
    + exists EmptyString. reflexivity.
Qed.

Lemma trim_left_length (s : string) :
  (String.length (QString.trim_left s) <= String.length s)%nat.
Proof.
  induction s as [|x s IH]; simpl; [lia|].
  destruct (QString.is_space x); simpl; lia.
Qed.

Lemma trim_left_idem (s : string) :
  QString.trim_left (QString.trim_left s) = QString.trim_left s.
Proof.
  induction s as [|x s IH]; simpl; [reflexivity|].
  destruct (QString.is_space x) eqn:E; [exact IH|]. simpl. rewrite E. reflexivity.
Qed.

Lemma trim_left_prefix (a b : string) :
  QString.trim_left (a ++ b) = (a ++ b)%string -> a <> EmptyString ->
  QString.trim_left a = a.
Proof.
  destruct a as [|x a]; [congruence|]. intros Heq _.
  rewrite string_app_cons in Heq. cbn [QString.trim_left] in *.
  destruct (QString.is_space x); [|reflexivity].
  pose proof (trim_left_length (a ++ b)) as Hlen.
  rewrite Heq in Hlen. cbn [String.length] in Hlen. lia.
Qed.

Lemma trimmed_idem (s : string) :
  QString.trimmed (QString.trimmed s) = QString.trimmed s.
Proof.
  unfold QString.trimmed.
  set (y := QString.trim_left s).
  set (z := QString.trim_left (QString.reversed y)).
  assert (Hy : QString.trim_left y = y) by apply trim_left_idem.
  assert (Hz : QString.trim_left z = z) by apply trim_left_idem.
  destruct (trim_left_split (QString.reversed y)) as [sp Hsp]. fold z in Hsp.
  assert (Hyz : y = (QString.reversed z ++ QString.reversed sp)%string).
  { rewrite <- reversed_app, <- Hsp, reversed_involutive. reflexivity. }
  assert (Hr : QString.trim_left (QString.reversed z) = QString.reversed z).
  { destruct (QString.reversed z) as [|x r] eqn:Er; [reflexivity|].
    apply (trim_left_prefix _ (QString.reversed sp)); [|discriminate].
    rewrite <- Hyz. exact Hy. }
  rewrite Hr, reversed_involutive, Hz. reflexivity.
Qed.

Lemma startsWith_or (l prefix : string) :
  QString.isEmpty prefix || QString.startsWith l prefix = QString.startsWith l prefix.
Proof. destruct prefix, l; reflexivity. Qed.

Lemma keepLines_filter (prefix : string) (lines : list string) :
  keepLines prefix lines
  = List.filter (fun l => QString.startsWith l prefix) (keepLines "" lines).
Proof.
  induction lines as [|l lines IH]; cbn [keepLines]; [reflexivity|].
  rewrite !startsWith_or.
  replace (QString.startsWith (QString.trimmed l) "") with true
    by (destruct (QString.trimmed l); reflexivity).
  destruct (negb (QString.isEmpty (QString.trimmed l))); cbn [andb List.filter];
    [|exact IH].
  destruct (QString.startsWith (QString.trimmed l) prefix);
    [f_equal; exact IH | exact IH].
Qed.

Lemma keepLines_entries (prefix : string) (lines : list string) :
  Forall (fun l => l <> EmptyString /\ QString.trimmed l = l)
         (keepLines prefix lines).
Proof.
  induction lines as [|l lines IH]; cbn [keepLines]; [constructor|].
  destruct (QString.trimmed l) as [|a t] eqn:Et; cbn [QString.isEmpty negb andb];
    [exact IH|].
  destruct (_ || _); [|exact IH].
  constructor; [|exact IH]. split; [discriminate|].
  rewrite <- Et. apply trimmed_idem.
Qed.

Section Listing.

Context {World : Type} `{Host World}.

Local Abbreviation M := (M World).
Local Abbreviation MainWindow := (MainWindow World).

(** A listing below a prefix is the listing of the whole archive with
    the entries kept that start with the prefix; [unzip] is run in the
    same way and leaves the same window.  No entry of a listing is empty
    or has white space at either end. *)
Theorem listEntries_prefix_filters (h : CliArchiveHandler) (prefix : string)
    (s : MainWindow) :
  fst (listEntries h prefix s)
  = List.filter (fun l => QString.startsWith l prefix) (fst (listEntries h "" s))
  /\ snd (listEntries h prefix s) = snd (listEntries h "" s)
  /\ Forall (fun l => l <> EmptyString /\ QString.trimmed l = l)
            (fst (listEntries h prefix s)).
Proof.
  rewrite !listEntries_run. cbn [fst snd].
  split; [apply keepLines_filter|]. split; [reflexivity|]. apply keepLines_entries.
Qed.

End Listing.

(* ===================================================================== *)
(** * Reading a manifest back *)
(* ===================================================================== *)

Section ManifestReadBack.

Context {World : Type} `{Host World}.

Local Abbreviation M := (M World).
Local Abbreviation MainWindow := (MainWindow World).

(** [loadMetadata] reads the object that it writes for a record back as
    that record: when the manifest is extracted and holds the object of
    [meta], the result is [meta], and nothing more is done than the
    extraction: no file is written and [zip] is not run. *)
Theorem loadMetadata_reads_back (h : CliArchiveHandler) (meta : ArchiveMetadata)
    (tmp : string) (s : MainWindow) :
  fst (extractEntryToTemp h ".manifest.json" s) = Some tmp ->
  QFile_readJson tmp (world (snd (extractEntryToTemp h ".manifest.json" s)))
  = Some (manifestObject meta) ->
  loadMetadata h s = (meta, snd (extractEntryToTemp h ".manifest.json" s)).
Proof.
  intros Hx Hread. unfold loadMetadata. rewrite bind_run, Hx.
  rewrite bind_run. cbn [get fst snd]. rewrite Hread.
  cbn. unfold ret. destruct meta as [v c ts]. cbn [version created tags].
  f_equal. f_equal. clear Hread.
  induction ts as [|t ts IH]; [reflexivity|].
  cbn [map QJsonValue_toString]. rewrite IH. reflexivity.
Qed.

End ManifestReadBack.

Lemma loadMetadata_reads_back_witness :
  @loadMetadata unit (toyHostAt types_docs true "/home/u/A.vfsarc")
    (mkCliArchiveHandler "/home/u/A.vfsarc" "") (toyWindow ∅ [])
  = (mkArchiveMetadata "2.1" "2023-01-01T00:00:00" ["a"; "b"],
     snd (@extractEntryToTemp unit (toyHostAt types_docs true "/home/u/A.vfsarc")
            (mkCliArchiveHandler "/home/u/A.vfsarc" "") ".manifest.json"
            (toyWindow ∅ []))).
Proof.
  apply (@loadMetadata_reads_back unit (toyHostAt types_docs true "/home/u/A.vfsarc")
           (mkCliArchiveHandler "/home/u/A.vfsarc" "")
           (mkArchiveMetadata "2.1" "2023-01-01T00:00:00" ["a"; "b"])
           "/tmp/qt_arch_tmp_{7f}/.manifest.json" (toyWindow ∅ [])).
  - vm_compute. reflexivity.
  - vm_compute. reflexivity.
Defined.

(* ===================================================================== *)
(** * The Open action *)
(* ===================================================================== *)

Section OpenAction.

Context {World : Type} `{Host World}.

Local Abbreviation M := (M World).
Local Abbreviation MainWindow := (MainWindow World).

(** Open on a file that does not exist shows a warning and leaves the
    window on the archive it shows, but the backend is bound to the
    missing file from then on: [openArchive] assigns the path before it
    looks for the file. *)
Theorem open_missing_file_rebinds_backend (file : string) (w : World)
    (s : MainWindow) :
  QFileDialog_getOpenFileName (world s) = (file, w) ->
  QString.isEmpty file = false ->
  QFile_exists file w = false ->
  backend (snd (onOpenArchive s)) = mkCliArchiveHandler file (m_password (backend s))
  /\ currentArchive (snd (onOpenArchive s)) = currentArchive s
  /\ archiveModel (snd (onOpenArchive s)) = archiveModel s
  /\ archiveStack (snd (onOpenArchive s)) = archiveStack s
  /\ passwordCache (snd (onOpenArchive s)) = passwordCache s
  /\ globalPasswords (snd (onOpenArchive s)) = globalPasswords s
  /\ metadataView (snd (onOpenArchive s)) = metadataView s
  /\ status (snd (onOpenArchive s)) = status s
  /\ journal (snd (onOpenArchive s))
     = (journal s
        ++ [EvWarning "Open failed" ("Could not open archive: " ++ file)])%list.
Proof.
  intros Hdlg Hne Hex. pose proof (onOpenArchive_run s) as Hrun.
  rewrite Hdlg in Hrun. cbv zeta in Hrun. rewrite Hrun, Hne, Hex.
  repeat split; reflexivity.
Qed.

(** Open on a file that exists makes it the current archive and the
    archive of the backend, whatever follows.  Then either a password
    is in the cache for the file, the backend carries it, the
    breadcrumb is the one frame of the file and the tree is a listing
    that is not empty; or no password worked and the tree, the
    breadcrumb, the status, the manifest text, the cache and the pool
    still are those of the archive shown before. *)
Theorem open_existing_file (file : string) (w : World) (s : MainWindow) :
  QFileDialog_getOpenFileName (world s) = (file, w) ->
  QString.isEmpty file = false ->
  QFile_exists file w = true ->
  currentArchive (snd (onOpenArchive s)) = file
  /\ m_archive (backend (snd (onOpenArchive s))) = file
  /\ ((exists pw entries,
          passwordCache (snd (onOpenArchive s)) !! file = Some pw
          /\ m_password (backend (snd (onOpenArchive s))) = pw
          /\ archiveStack (snd (onOpenArchive s)) = [QFileInfo_fileName file]
          /\ status (snd (onOpenArchive s)) = "Opened: " ++ file
          /\ entries <> []
          /\ archiveModel (snd (onOpenArchive s))
             = populateFromList entries "" (clear (archiveModel s)))
      \/ (archiveModel (snd (onOpenArchive s)) = archiveModel s
          /\ archiveStack (snd (onOpenArchive s)) = archiveStack s
          /\ status (snd (onOpenArchive s)) = status s
          /\ metadataView (snd (onOpenArchive s)) = metadataView s
          /\ passwordCache (snd (onOpenArchive s)) = passwordCache s
          /\ globalPasswords (snd (onOpenArchive s)) = globalPasswords s)).
Proof.
  intros Hdlg Hne Hex. pose proof (onOpenArchive_run s) as Hrun.
  rewrite Hdlg in Hrun. cbv zeta in Hrun. rewrite Hrun, Hne, Hex. cbn [snd].
  match goal with
  | |- context [attemptPasswordAndLoadArchive file ?st] =>
      pose proof (proj1 (attempt_outcome file st)) as Hout;
      set (s2 := st) in *
  end.
  destruct (fst (attemptPasswordAndLoadArchive file s2)) as [pw| |].
  - destruct Hout as (Hc & Hb & Hst & Hstatus & Hcur & entries & Hent & Hm).
    split; [rewrite Hcur; reflexivity|].
    split; [rewrite Hb; reflexivity|].
    left. exists pw, entries. rewrite Hb. repeat split; assumption.
  - destruct Hout as (Hc & Hp & Hst & Hm & Hcur & Hmeta & Hstatus & Hb).
    split; [rewrite Hcur; reflexivity|].
    split; [rewrite Hb; reflexivity|].
    right. repeat split; assumption.
  - destruct Hout as (Hc & Hp & Hst & Hm & Hcur & Hmeta & Hstatus & Hb).
    split; [rewrite Hcur; reflexivity|].
    split; [rewrite Hb; reflexivity|].
    right. repeat split; assumption.
Qed.

End OpenAction.

Lemma open_missing_file_rebinds_backend_witness :
  backend (snd (@onOpenArchive unit (toyHostAt locked_out false "/home/u/B.zip")
                  toyTreeWindow))
  = mkCliArchiveHandler "/home/u/B.zip" ""
  /\ currentArchive (snd (@onOpenArchive unit (toyHostAt locked_out false "/home/u/B.zip")
                            toyTreeWindow))
     = "/home/u/A.vfsarc"
  /\ archiveModel (snd (@onOpenArchive unit (toyHostAt locked_out false "/home/u/B.zip")
                          toyTreeWindow))
     = populateFromList ["a/b.txt"; "x"] "" root0.
Proof.
  pose proof (@open_missing_file_rebinds_backend unit
                (toyHostAt locked_out false "/home/u/B.zip") "/home/u/B.zip" tt
                toyTreeWindow eq_refl eq_refl eq_refl) as (Hb & Hc & Hm & _).
  split; [exact Hb|]. split; [exact Hc | exact Hm].
Defined.

Lemma open_existing_file_witness :
  currentArchive (snd (@onOpenArchive unit (toyHostAt locked_out true "/home/u/B.zip")
                         toyTreeWindow))
  = "/home/u/B.zip"
  /\ m_archive (backend (snd (@onOpenArchive unit
                                (toyHostAt locked_out true "/home/u/B.zip")
                                toyTreeWindow)))
     = "/home/u/B.zip".
Proof.
  pose proof (@open_existing_file unit (toyHostAt locked_out true "/home/u/B.zip")
                "/home/u/B.zip" tt toyTreeWindow eq_refl eq_refl eq_refl)
    as (Hc & Hb & _).
  split; [exact Hc | exact Hb].
Defined.

(* ===================================================================== *)
(** * Where a double click leaves the window *)
(* ===================================================================== *)

Section DoubleClick.

Context {World : Type} `{Host World}.

Local Abbreviation M := (M World).
Local Abbreviation MainWindow := (MainWindow World).

Lemma same_place_refl (s : MainWindow) : same_place s s.
Proof. repeat split. Qed.

Lemma same_place_trans (s s1 s2 : MainWindow) :
  same_place s s1 -> same_place s1 s2 -> same_place s s2.
Proof. unfold same_place. intuition congruence. Qed.

Lemma same_place_of_keeps {A : Type} (m : M A) (s : MainWindow) :
  keeps (@archiveStack World) m -> keeps (@archiveModel World) m ->
  keeps (@currentArchive World) m -> keeps (@metadataView World) m ->
  keeps (@status World) m -> keeps (fun st => m_archive (backend st)) m ->
  same_place s (snd (m s)).
Proof. intros H1 H2 H3 H4 H5 H6. repeat split; [apply H1|apply H2|apply H3|apply H4|apply H5|apply H6]. Qed.

Lemma same_place_extract h entry (s : MainWindow) :
  same_place s (snd (extractEntryToTemp h entry s)).
Proof.
  apply same_place_of_keeps; apply keeps_extractEntryToTemp; split; reflexivity.
Qed.

Lemma keeps_tryPasswords_setPassword {X : Type} (f : MainWindow -> X) entry :
  inner f -> (forall pw s, f (snd (setPassword pw s)) = f s) ->
  keeps f (tryPasswordsForEntryAndExtract entry).
Proof.
  intros Hf Hset.
  pose proof (fun h => keeps_extractEntryToTemp f h entry Hf).
  assert (Hset' : forall pw, keeps f (setPassword pw))
    by (intros pw s; apply Hset).
  assert (Hloop : forall pws, keeps f (extractGlobalPasswords entry pws)).
  { induction pws as [|pw rest IH]; cbn [extractGlobalPasswords]; flow. }
  unfold tryPasswordsForEntryAndExtract. flow.
Qed.

Lemma same_place_tryPasswords entry (s : MainWindow) :
  same_place s (snd (tryPasswordsForEntryAndExtract entry s)).
Proof.
  apply same_place_of_keeps; apply keeps_tryPasswords_setPassword;
    try (split; reflexivity); intros; reflexivity.
Qed.

Lemma descended_after entry (s s1 s2 : MainWindow) :
  same_place s s1 -> descended entry s1 s2 -> descended entry s s2.
Proof.
  intros (Hst & Hm & Hc & _) (Hst2 & Hb & entries & Hm2).
  split; [rewrite Hst2, Hst, Hc; reflexivity|]. split; [exact Hb|].
  exists entries. rewrite Hm2, Hm. reflexivity.
Qed.

Lemma openNested_outcome tmp entry (s : MainWindow) :
  snd (openNested tmp entry s) = s
  \/ descended entry s (snd (openNested tmp entry s)).
Proof.
  destruct (QFile_exists tmp (world s)) eqn:Hex.
  - right. destruct (openNested_switches tmp entry s Hex) as (Hb & Hc & Hst & Hm).
    split; [exact Hst|]. split; [rewrite Hb, Hc; reflexivity|].
    eexists. exact Hm.
  - left. unfold openNested, openArchive.
    rewrite bind_run. rewrite bind_run. cbn [get ret fst snd]. rewrite Hex.
    reflexivity.
Qed.

Lemma stays_or_descends_openNested tmp entry (s s1 : MainWindow) :
  same_place s s1 ->
  same_place s (snd (openNested tmp entry s1))
  \/ descended entry s (snd (openNested tmp entry s1)).
Proof.
  intros Hs. destruct (openNested_outcome tmp entry s1) as [-> | Hd].
  - left. exact Hs.
  - right. apply (descended_after entry s s1); assumption.
Qed.

Lemma stays_or_descends_prompt entry (s s1 : MainWindow) :
  same_place s s1 ->
  same_place s (snd (promptPasswordForArchiveAndLoad entry s1))
  \/ descended entry s (snd (promptPasswordForArchiveAndLoad entry s1)).
Proof.
  intros Hs. unfold promptPasswordForArchiveAndLoad.
  rewrite bind_run, getText_run.
  destruct (fst (QInputDialog_getText "Password Required"
                   ("Enter password to extract " ++ entry) (world s1))) as [pw ok].
  cbn [fst snd].
  match goal with
  | |- context [record ?ev (set_world ?w s1)] =>
      assert (Hs2 : same_place s (record ev (set_world w s1))) by exact Hs;
      generalize dependent (record ev (set_world w s1))
  end.
  intros s2 Hs2.
  destruct (negb ok || QString.isEmpty pw); [left; exact Hs2|].
  rewrite bind_run. cbn [setPassword modify fst snd].
  rewrite bind_run. cbn [get fst snd]. rewrite bind_run.
  match goal with
  | |- context [extractEntryToTemp ?h entry ?st] =>
      assert (Hs3 : same_place s (snd (extractEntryToTemp h entry st)))
        by (apply (same_place_trans s st); [exact Hs2 | apply same_place_extract]);
      destruct (extractEntryToTemp h entry st) as [[tmp|] s3]
  end; cbn [fst snd] in *.
  - rewrite !bind_run. cbn [modify fst snd].
    apply stays_or_descends_openNested.
    destruct (negb _); exact Hs3.
  - left. exact Hs3.
Qed.

(** A double click on an item that is not a nested archive extracts the
    entry and previews the extracted file when [unzip] succeeds; the
    window stays on the archive it shows, with its backend, cache and
    pool. *)
Theorem doubleClick_file_previews (it : ArchiveItem) (s : MainWindow) :
  type it <> ArchiveFolder ->
  same_place s (snd (onArchiveDoubleClicked (Some it) s))
  /\ backend (snd (onArchiveDoubleClicked (Some it) s)) = backend s
  /\ passwordCache (snd (onArchiveDoubleClicked (Some it) s)) = passwordCache s
  /\ globalPasswords (snd (onArchiveDoubleClicked (Some it) s)) = globalPasswords s
  /\ journal (snd (onArchiveDoubleClicked (Some it) s))
     = (journal (snd (extractEntryToTemp (backend s) (fullPathInArchive it) s))
        ++ match fst (extractEntryToTemp (backend s) (fullPathInArchive it) s) with
           | Some tmpPath => [EvPreview tmpPath]
           | None => []
           end)%list.
Proof.
  intros Hty.
  assert (Hrun : snd (onArchiveDoubleClicked (Some it) s)
                 = match fst (extractEntryToTemp (backend s) (fullPathInArchive it) s) with
                   | Some tmpPath =>
                       record (EvPreview tmpPath)
                         (snd (extractEntryToTemp (backend s) (fullPathInArchive it) s))
                   | None => snd (extractEntryToTemp (backend s) (fullPathInArchive it) s)
                   end).
  { unfold onArchiveDoubleClicked.
    destruct (type it); try contradiction;
      rewrite bind_run; cbn [get fst snd]; rewrite bind_run;
      destruct (fst (extractEntryToTemp (backend s) (fullPathInArchive it) s));
      reflexivity. }
  rewrite Hrun.
  pose proof (same_place_extract (backend s) (fullPathInArchive it) s) as Hs.
  pose proof (keeps_extractEntryToTemp (@backend World) (backend s)
                (fullPathInArchive it) inner_backend s) as Hb.
  pose proof (keeps_extractEntryToTemp (@passwordCache World) (backend s)
                (fullPathInArchive it) inner_passwordCache s) as Hc.
  pose proof (keeps_extractEntryToTemp (@globalPasswords World) (backend s)
                (fullPathInArchive it) inner_globalPasswords s) as Hp.
  destruct (fst (extractEntryToTemp (backend s) (fullPathInArchive it) s)).
  - split; [exact Hs|]. split; [exact Hb|]. split; [exact Hc|].
    split; [exact Hp | reflexivity].
  - split; [exact Hs|]. split; [exact Hb|]. split; [exact Hc|].
    split; [exact Hp | rewrite app_nil_r; reflexivity].
Qed.

(** After a double click the window either still shows the archive it
    showed, with the same breadcrumb, tree, manifest text and status, or
    it has gone down into the nested archive of the item: exactly one
    frame more on the breadcrumb, a new backend without password on the
    current archive, and a tree that is a listing below the emptied
    root.  The breadcrumb never gets shorter. *)
Theorem doubleClick_stays_or_descends (idx : option ArchiveItem) (s : MainWindow) :
  same_place s (snd (onArchiveDoubleClicked idx s))
  \/ exists it,
       idx = Some it /\ type it = ArchiveFolder
       /\ descended (fullPathInArchive it) s (snd (onArchiveDoubleClicked idx s)).
Proof.
  destruct idx as [it|]; [|left; apply same_place_refl].
  destruct (type it) eqn:Hty.
  - left. unfold onArchiveDoubleClicked. rewrite Hty.
    rewrite bind_run. cbn [get fst snd]. rewrite bind_run.
    pose proof (same_place_extract (backend s) (fullPathInArchive it) s) as Hs.
    destruct (fst (extractEntryToTemp (backend s) (fullPathInArchive it) s));
      exact Hs.
  - left. unfold onArchiveDoubleClicked. rewrite Hty.
    rewrite bind_run. cbn [get fst snd]. rewrite bind_run.
    pose proof (same_place_extract (backend s) (fullPathInArchive it) s) as Hs.
    destruct (fst (extractEntryToTemp (backend s) (fullPathInArchive it) s));
      exact Hs.
  - assert (Hgoal : same_place s (snd (onArchiveDoubleClicked (Some it) s))
                    \/ descended (fullPathInArchive it) s
                         (snd (onArchiveDoubleClicked (Some it) s))).
    { unfold onArchiveDoubleClicked. rewrite Hty.
      rewrite bind_run. cbn [get fst snd]. rewrite bind_run.
      pose proof (same_place_extract (backend s) (fullPathInArchive it) s) as Hs1.
      destruct (extractEntryToTemp (backend s) (fullPathInArchive it) s)
        as [[tmp|] s1]; cbn [fst snd] in *.
      - apply stays_or_descends_openNested, Hs1.
      - rewrite bind_run.
        pose proof (same_place_tryPasswords (fullPathInArchive it) s1) as Hs2.
        destruct (tryPasswordsForEntryAndExtract (fullPathInArchive it) s1)
          as [[tmp|] s2]; cbn [fst snd] in *.
        + apply stays_or_descends_openNested.
          apply (same_place_trans s s1); assumption.
        + apply stays_or_descends_prompt.
          apply (same_place_trans s s1); assumption. }
    destruct Hgoal as [Hs | Hd]; [left; exact Hs|].
    right. exists it. split; [reflexivity|]. split; [exact Hty | exact Hd].
Qed.

End DoubleClick.

Lemma doubleClick_file_previews_witness :
  backend (snd (@onArchiveDoubleClicked unit (toyHost open_archive)
                  (Some (mkArchiveItem "readme.txt" File [] "readme.txt" false))
                  (toyWindow ∅ [])))
  = mkCliArchiveHandler "/home/u/A.vfsarc" "".
Proof.
  assert (Hty : type (mkArchiveItem "readme.txt" File [] "readme.txt" false)
                <> ArchiveFolder) by discriminate.
  exact (proj1 (proj2 (@doubleClick_file_previews unit (toyHost open_archive)
                         (mkArchiveItem "readme.txt" File [] "readme.txt" false)
                         (toyWindow ∅ []) Hty))).
Defined.

(* ===================================================================== *)
(** * What an expansion puts below the node *)
(* ===================================================================== *)

Lemma expansion_prefix_not_empty (path : string) :
  QString.isEmpty (if QString.endsWith path "/" then path else path ++ "/") = false.
Proof.
  destruct path as [|a path]; [reflexivity|].
  destruct (QString.endsWith (String a path) "/"); reflexivity.
Qed.

Section ExpansionListing.

Context {World : Type} `{Host World}.

Local Abbreviation M := (M World).
Local Abbreviation MainWindow := (MainWindow World).

(** The first expansion of an item runs one listing and marks the item
    as populated, with its name, type and path kept.  Afterwards every
    entry of the archive that starts with the path of the item and a
    slash is found below the item by the segments that follow that
    prefix. *)
Theorem expand_lists_below (r c : Z) (q : list nat) (it : ArchiveItem)
    (s : MainWindow) :
  node_at q (archiveModel s) = Some it ->
  childrenPopulated it = false ->
  exists prefix it',
    prefix = (if QString.endsWith (fullPathInArchive it) "/"
              then fullPathInArchive it else fullPathInArchive it ++ "/")
    /\ node_at q (archiveModel (snd (onArchiveExpanded (ArchiveModel.Index r c q) s)))
       = Some it'
    /\ name it' = name it /\ type it' = type it
    /\ fullPathInArchive it' = fullPathInArchive it
    /\ childrenPopulated it' = true
    /\ journal (snd (onArchiveExpanded (ArchiveModel.Index r c q) s))
       = (journal s ++ [EvProcess "unzip" (listArgs (backend s))])%list
    /\ forall e,
         In e (listing (backend s) (world s)) ->
         QString.startsWith e prefix = true ->
         is_Some (find_parts
                    (QString.split slash (QString.mid e (String.length prefix)))
                    it').
Proof.
  intros Hq Hpop. eexists. eexists. split; [reflexivity|].
  rewrite (onArchiveExpanded_run r c q it s Hq Hpop).
  set (prefix := if QString.endsWith (fullPathInArchive it) "/"
                 then fullPathInArchive it else fullPathInArchive it ++ "/").
  rewrite listEntries_run. cbn [fst snd archiveModel set_archiveModel journal record
                                 set_world].
  set (entries := keepLines prefix _).
  split.
  { apply node_at_update_at, node_at_populateAt, Hq. }
  destruct (populateFromList_attrs entries prefix it) as (Hn & Ht & Hf & Hp).
  cbn [name type fullPathInArchive childrenPopulated set_populated].
  split; [exact Hn|]. split; [exact Ht|]. split; [exact Hf|].
  split; [reflexivity|]. split; [reflexivity|].
  intros e Hin Hstart.
  assert (Hin' : In e entries).
  { unfold entries. rewrite keepLines_filter. apply List.filter_In.
    split; [exact Hin | exact Hstart]. }
  pose proof (entries_present_after entries prefix it) as Hall.
  rewrite Forall_forall in Hall. apply list_elem_of_In in Hin'.
  specialize (Hall e Hin'). unfold entry_present, entry_parts in Hall.
  unfold prefix in Hall at 1 3. rewrite expansion_prefix_not_empty in Hall.
  fold prefix in Hall. rewrite Hstart in Hall. cbn [negb andb] in Hall.
  apply find_parts_present in Hall.
  destruct (QString.split slash (QString.mid e (String.length prefix)));
    [eexists; reflexivity | exact Hall].
Qed.

End ExpansionListing.

Lemma expand_lists_below_witness :
  exists prefix it',
    prefix = "a/"
    /\ node_at [0%nat]
         (archiveModel
            (snd (@onArchiveExpanded unit (toyHost types_docs)
                    (ArchiveModel.Index 0 0 [0%nat]) toyTreeWindow)))
       = Some it'
    /\ name it' = "a" /\ type it' = Folder
    /\ fullPathInArchive it' = "a"
    /\ childrenPopulated it' = true
    /\ journal (snd (@onArchiveExpanded unit (toyHost types_docs)
                       (ArchiveModel.Index 0 0 [0%nat]) toyTreeWindow))
       = [EvProcess "unzip" ["-Z"; "-1"; "/home/u/A.vfsarc"]]
    /\ forall e,
         In e ["a/b.txt"; "x"] ->
         QString.startsWith e prefix = true ->
         is_Some (find_parts
                    (QString.split slash (QString.mid e (String.length prefix)))
                    it').
Proof.
  apply (@expand_lists_below unit (toyHost types_docs) 0%Z 0%Z [0%nat]
           (mkArchiveItem "a" Folder
              [mkArchiveItem "b.txt" File [] "a/b.txt" false] "a" false)
           toyTreeWindow).
  - vm_compute. reflexivity.
  - reflexivity.
Defined.

(* ===================================================================== *)
(** * From a path back to its item *)
(* ===================================================================== *)

Lemma split_from_app_sep (sep : ascii) (a b : string) :
  forall cur,
    QString.split_from sep (a ++ String sep b) cur
    = (QString.split_from sep a cur ++ QString.split_from sep b EmptyString)%list.
Proof.
  induction a as [|x a IH]; intros cur.
  - change (EmptyString ++ String sep b)%string with (String sep b).
    cbn [QString.split_from]. rewrite Ascii.eqb_refl.
    destruct (QString.isEmpty cur); reflexivity.
  - rewrite string_app_cons. cbn [QString.split_from].
    destruct (Ascii.eqb x sep).
    + destruct (QString.isEmpty cur); rewrite IH; reflexivity.
    + apply IH.
Qed.

Lemma split_joined (a b : string) :
  QString.split slash (a ++ "/" ++ b)
  = (QString.split slash a ++ QString.split slash b)%list.
Proof. apply (split_from_app_sep slash a b EmptyString). Qed.

Lemma find_child_lookup (cs : list ArchiveItem) :
  forall i c,
    NoDup (map name cs) -> cs !! i = Some c -> find_child (name c) cs = Some c.
Proof.
  induction cs as [|c0 cs IH]; intros i c Hnd Hi; [discriminate|].
  change (NoDup (name c0 :: map name cs)) in Hnd.
  apply NoDup_cons in Hnd. destruct Hnd as [Hnotin Hnd].
  cbn [find_child]. destruct i as [|i].
  - injection Hi as <-. rewrite String.eqb_refl. reflexivity.
  - cbn in Hi. destruct (String.eqb (name c0) (name c)) eqn:E.
    + apply String.eqb_eq in E. exfalso. apply Hnotin. rewrite E.
      change (name c ∈ name <$> cs). apply list_elem_of_fmap.
      exists c. split; [reflexivity|]. apply (list_elem_of_lookup_2 _ i), Hi.
    + apply (IH i c Hnd Hi).
Qed.

Lemma path_resolves (q : list nat) :
  forall t n,
    paths_joined t -> siblings_distinct t -> single_segment_names t ->
    node_at q t = Some n ->
    exists parts,
      QString.split slash (fullPathInArchive n)
      = (QString.split slash (fullPathInArchive t) ++ parts)%list
      /\ find_parts parts t = Some n
      /\ (parts = [] -> n = t).
Proof.
  induction q as [|i q IH]; intros t n Hj Hd Hs Hn.
  - cbn in Hn. injection Hn as <-. exists []. rewrite app_nil_r.
    repeat split; reflexivity.
  - cbn [node_at] in Hn. destruct (children t !! i) as [c|] eqn:Ei; [|discriminate].
    pose proof Hj as Hj0. pose proof Hd as Hd0. pose proof Hs as Hs0.
    apply every_node_unfold in Hj0. destruct Hj0 as [Hjt Hjc].
    apply every_node_unfold in Hd0. destruct Hd0 as [Hdt Hdc].
    apply every_node_unfold in Hs0. destruct Hs0 as [Hst Hsc].
    rewrite Forall_lookup in Hjc, Hdc, Hsc, Hjt, Hst.
    destruct (IH c n (Hjc i c Ei) (Hdc i c Ei) (Hsc i c Ei) Hn)
      as (parts & Hsplit & Hfind & _).
    exists (name c :: parts). split; [|split; [|discriminate]].
    + rewrite Hsplit. specialize (Hjt i c Ei). specialize (Hst i c Ei).
      cbv beta in Hjt, Hst. rewrite Hjt.
      destruct (fullPathInArchive t) as [|a p] eqn:Ep.
      * cbn [QString.isEmpty]. rewrite Hst. reflexivity.
      * cbn [QString.isEmpty]. rewrite split_joined, Hst, <- app_assoc.
        reflexivity.
    + cbn [find_parts]. rewrite (find_child_lookup (children t) i c Hdt Ei).
      exact Hfind.
Qed.

(** In a tree whose root has the empty path, whose paths are the joined
    names, whose sibling names are distinct and whose names are single
    segments, [findNodeByPath] undoes [pathForIndex]: from the path of
    an index it finds the item of that index. *)
Theorem findNodeByPath_inverts_pathForIndex (root : ArchiveItem)
    (idx : ArchiveModel.QModelIndex) (it : ArchiveItem) :
  fullPathInArchive root = "" ->
  paths_joined root -> siblings_distinct root -> single_segment_names root ->
  ArchiveModel.itemFromIndex root idx = Some it ->
  findNodeByPath (ArchiveModel.pathForIndex root idx) root = Some it.
Proof.
  intros Hroot Hj Hd Hs Hit. destruct idx as [|r c q].
  - cbn in Hit. injection Hit as <-. reflexivity.
  - cbn [ArchiveModel.itemFromIndex] in Hit. cbn [ArchiveModel.pathForIndex].
    rewrite Hit.
    destruct (path_resolves q root it Hj Hd Hs Hit) as (parts & Hsplit & Hfind & Hnil).
    rewrite Hroot in Hsplit. change (QString.split slash "") with (@nil string) in Hsplit.
    cbn [app] in Hsplit. unfold findNodeByPath.
    destruct (QString.isEmpty (fullPathInArchive it)) eqn:Hempty.
    + destruct (fullPathInArchive it); [|discriminate].
      change (QString.split slash "") with (@nil string) in Hsplit.
      rewrite (Hnil (eq_sym Hsplit)). reflexivity.
    + rewrite Hsplit. exact Hfind.
Qed.

Lemma findNodeByPath_inverts_pathForIndex_witness :
  findNodeByPath
    (ArchiveModel.pathForIndex (populateFromList ["a/b.txt"; "x"] "" root0)
       (ArchiveModel.Index 0 0 [0%nat; 0%nat]))
    (populateFromList ["a/b.txt"; "x"] "" root0)
  = Some (mkArchiveItem "b.txt" File [] "a/b.txt" false).
Proof.
  apply (findNodeByPath_inverts_pathForIndex
           (populateFromList ["a/b.txt"; "x"] "" root0)
           (ArchiveModel.Index 0 0 [0%nat; 0%nat])
           (mkArchiveItem "b.txt" File [] "a/b.txt" false)).
  - reflexivity.
  - vm_compute. repeat (split || constructor).
  - apply produced_siblings_distinct.
    change (populateFromList ["a/b.txt"; "x"] "" root0)
      with (populateAt [] ["a/b.txt"; "x"] "" root0).
    apply produced_call, produced_new.
  - vm_compute. repeat (split || constructor).
  - reflexivity.
Defined.

(* ===================================================================== *)
(** * How often the user is asked *)
(* ===================================================================== *)

Lemma prompts_app (e1 e2 : list Event) :
  prompts (e1 ++ e2) = (prompts e1 + prompts e2)%nat.
Proof. unfold prompts. rewrite List.filter_app, List.length_app. reflexivity. Qed.

Lemma prompts_quiet (evs : list Event) : Forall not_prompt evs -> prompts evs = 0%nat.
Proof.
  induction 1 as [|ev evs Hev _ IH]; [reflexivity|].
  unfold prompts in *. destruct ev; cbn in *; try contradiction; exact IH.
Qed.

Section Asking.

Context {World : Type} `{Host World}.

Local Abbreviation M := (M World).
Local Abbreviation MainWindow := (MainWindow World).

Lemma asks_quiet {A : Type} (m : M A) : appends not_prompt m -> asks 0 m.
Proof.
  intros Hm s. destruct (Hm s) as (evs & Hj & Hq). exists evs.
  split; [exact Hj|]. rewrite (prompts_quiet evs Hq). lia.
Qed.

Lemma asks_weaken {A : Type} (n n' : nat) (m : M A) :
  (n <= n')%nat -> asks n m -> asks n' m.
Proof.
  intros Hle Hm s. destruct (Hm s) as (evs & Hj & Hq). exists evs.
  split; [exact Hj | lia].
Qed.

Lemma asks_bind {A B : Type} (a b : nat) (m : M A) (k : A -> M B) :
  asks a m -> (forall x, asks b (k x)) -> asks (a + b) (bind m k).
Proof.
  intros Hm Hk s. rewrite bind_run.
  destruct (Hm s) as (e1 & Hj1 & Hq1).
  destruct (Hk (fst (m s)) (snd (m s))) as (e2 & Hj2 & Hq2).
  exists (e1 ++ e2)%list. rewrite Hj2, Hj1, <- app_assoc, prompts_app.
  split; [reflexivity | lia].
Qed.

Lemma asks_getText title label : asks 1 (getText (World:=World) title label).
Proof.
  intros s. rewrite getText_run. exists [EvGetText title label].
  split; [reflexivity | cbn; lia].
Qed.

Lemma process_not_prompt : forall p a, not_prompt (EvProcess p a).
Proof. intros p a. exact I. Qed.

Lemma quiet_setPassword pw : appends not_prompt (setPassword (World:=World) pw).
Proof. unfold setPassword. flow. Qed.

Lemma quiet_attemptGlobalPasswords archivePath pws :
  appends not_prompt (attemptGlobalPasswords (World:=World) archivePath pws).
Proof.
  pose proof quiet_setPassword.
  pose proof (fun h p => appends_listEntries not_prompt h p process_not_prompt).
  pose proof (fun es a => appends_loadArchiveEntries not_prompt es a process_not_prompt).
  induction pws as [|pw rest IH]; cbn [attemptGlobalPasswords]; flow.
Qed.

Lemma quiet_tryPasswords entry :
  appends not_prompt (tryPasswordsForEntryAndExtract (World:=World) entry).
Proof.
  pose proof quiet_setPassword.
  pose proof (fun h => appends_extractEntryToTemp not_prompt h entry process_not_prompt).
  assert (Hloop : forall pws,
             appends not_prompt (extractGlobalPasswords (World:=World) entry pws)).
  { induction pws as [|pw rest IH]; cbn [extractGlobalPasswords]; flow. }
  unfold tryPasswordsForEntryAndExtract. flow.
Qed.

Lemma asks_attemptPrompt archivePath :
  asks 1 (attemptPrompt (World:=World) archivePath).
Proof.
  unfold attemptPrompt. apply (asks_bind 1 0); [apply asks_getText|].
  intros [pw ok]. apply asks_quiet.
  pose proof quiet_setPassword.
  pose proof (fun h p => appends_listEntries not_prompt h p process_not_prompt).
  pose proof (fun es a => appends_loadArchiveEntries not_prompt es a process_not_prompt).
  assert (Hw : forall t x, appends not_prompt (warning (World:=World) t x))
    by (intros; apply appends_warning; exact I).
  destruct ok; cbn [negb]; [|flow].
  apply appends_bind; [flow | intros _].
  apply appends_bind; [flow | intros b].
  apply appends_bind; [flow | intros entries].
  destruct (nonEmpty entries); [|flow].
  apply appends_bind; [flow | intros _].
  apply appends_bind; [|intros _; flow].
  apply appends_silent. intros s. cbn [modify snd].
  destruct (_ && _); reflexivity.
Qed.

Lemma asks_attempt archivePath :
  asks 1 (attemptPasswordAndLoadArchive (World:=World) archivePath).
Proof.
  pose proof quiet_setPassword.
  pose proof (fun h p => appends_listEntries not_prompt h p process_not_prompt).
  pose proof (fun es a => appends_loadArchiveEntries not_prompt es a process_not_prompt).
  unfold attemptPasswordAndLoadArchive.
  apply (asks_bind 0 1); [apply asks_quiet; flow | intros cache].
  apply (asks_bind 0 1); [apply asks_quiet; flow | intros [pw|]].
  - apply (asks_weaken 0); [lia | apply asks_quiet; flow].
  - apply (asks_bind 0 1); [apply asks_quiet; flow | intros pool].
    apply (asks_bind 0 1);
      [apply asks_quiet, quiet_attemptGlobalPasswords | intros [pw|]].
    + apply (asks_weaken 0); [lia | apply asks_quiet; flow].
    + apply asks_attemptPrompt.
Qed.

Lemma asks_promptPassword entry :
  asks 1 (promptPasswordForArchiveAndLoad (World:=World) entry).
Proof.
  unfold promptPasswordForArchiveAndLoad.
  apply (asks_bind 1 0); [apply asks_getText|].
  intros [pw ok]. apply asks_quiet.
  pose proof quiet_setPassword.
  pose proof (fun h => appends_extractEntryToTemp not_prompt h entry process_not_prompt).
  pose proof (fun t => appends_openNested not_prompt t entry process_not_prompt).
  assert (Hw : forall t x, appends not_prompt (warning (World:=World) t x))
    by (intros; apply appends_warning; exact I).
  destruct (negb ok || QString.isEmpty pw); [flow|].
  apply appends_bind; [flow | intros _].
  apply appends_bind; [flow | intros b].
  apply appends_bind; [flow | intros [tmp|]]; [|flow].
  apply appends_bind;
    [apply appends_silent; intros s; reflexivity | intros _].
  apply appends_bind; [|intros _; flow].
  apply appends_silent. intros s. cbn [modify snd].
  destruct (negb _); reflexivity.
Qed.

(** Opening an archive, the prompt for a nested entry, a double click
    and the Open action each show at most one password dialog, however
    many passwords are tried. *)
Theorem one_prompt_at_most (archivePath entry : string) (idx : option ArchiveItem)
    (s : MainWindow) :
  (exists evs,
      journal (snd (attemptPasswordAndLoadArchive archivePath s))
      = (journal s ++ evs)%list /\ (prompts evs <= 1)%nat)
  /\ (exists evs,
        journal (snd (promptPasswordForArchiveAndLoad entry s))
        = (journal s ++ evs)%list /\ (prompts evs <= 1)%nat)
  /\ (exists evs,
        journal (snd (onArchiveDoubleClicked idx s))
        = (journal s ++ evs)%list /\ (prompts evs <= 1)%nat)
  /\ (exists evs,
        journal (snd (onOpenArchive s))
        = (journal s ++ evs)%list /\ (prompts evs <= 1)%nat).
Proof.
  split; [apply asks_attempt|]. split; [apply asks_promptPassword|].
  split.
  - revert s. change (asks 1 (onArchiveDoubleClicked idx)).
    pose proof (fun h e => appends_extractEntryToTemp not_prompt h e process_not_prompt).
    pose proof (fun t e => appends_openNested not_prompt t e process_not_prompt).
    assert (Hprev : forall p, appends not_prompt (previewFile (World:=World) p)).
    { intros p s. exists [EvPreview p]. split; [reflexivity|].
      constructor; [exact I | constructor]. }
    unfold onArchiveDoubleClicked.
    destruct idx as [it|];
      [|apply (asks_weaken 0); [lia | apply asks_quiet; flow]].
    destruct (type it).
    + apply (asks_weaken 0); [lia|]. apply asks_quiet. flow.
    + apply (asks_weaken 0); [lia|]. apply asks_quiet. flow.
    + apply (asks_bind 0 1); [apply asks_quiet; flow | intros b].
      apply (asks_bind 0 1); [apply asks_quiet; flow | intros [tmp|]].
      * apply (asks_weaken 0); [lia | apply asks_quiet; flow].
      * apply (asks_bind 0 1); [apply asks_quiet, quiet_tryPasswords | intros [tmp|]].
        -- apply (asks_weaken 0); [lia | apply asks_quiet; flow].
        -- apply asks_promptPassword.
  - pose proof (onOpenArchive_run s) as Hrun.
    destruct (QFileDialog_getOpenFileName (world s)) as [file w].
    cbv zeta in Hrun. rewrite Hrun.
    destruct (QString.isEmpty file).
    + exists []. rewrite app_nil_r. split; [reflexivity | cbn; lia].
    + destruct (QFile_exists file w).
      * cbn [snd].
        match goal with
        | |- context [attemptPasswordAndLoadArchive file ?st] =>
            destruct (asks_attempt file st) as (evs & Hj & Hq)
        end.
        exists evs. split; [exact Hj | exact Hq].
      * eexists. split; [reflexivity | cbn; lia].
Qed.

End Asking.

(* ===================================================================== *)
(** * Add Folder and the result of zip *)
(* ===================================================================== *)

Section AddFolderOutcome.

Context {World : Type} `{Host World}.

Local Abbreviation M := (M World).
Local Abbreviation MainWindow := (MainWindow World).

(** "Add Folder" when the dialog is cancelled or the name is empty only
    shows the dialog.  With a confirmed name it runs [zip] on the
    archive with the new temporary file, never with a path below the
    new folder, and whatever [zip] answers the node stays in the tree
    and the status says that the folder was added. *)
Theorem addFolder_outcome (q : list nat) (nm : string) (ok : bool) (s : MainWindow) :
  fst (QInputDialog_getText "New Folder" "Folder Name:" (world s)) = (nm, ok) ->
  if ok && negb (QString.isEmpty nm)
  then
    status (snd (addFolderAction q s)) = "Added folder (placeholder created)"
    /\ archiveModel (snd (addFolderAction q s))
       = update_at q (attach_folder nm) (archiveModel s)
    /\ journal (snd (addFolderAction q s))
       = (journal s
          ++ [EvGetText "New Folder" "Folder Name:";
              EvProcess "zip"
                [m_archive (backend s);
                 fst (QTemporaryFile_open
                        (snd (QInputDialog_getText "New Folder" "Folder Name:"
                                (world s))))]])%list
    /\ backend (snd (addFolderAction q s)) = backend s
  else
    snd (addFolderAction q s)
    = record (EvGetText "New Folder" "Folder Name:")
        (set_world (snd (QInputDialog_getText "New Folder" "Folder Name:" (world s)))
           s).
Proof.
  intros Hans. unfold addFolderAction.
  rewrite bind_run, getText_run, Hans. cbn [fst snd].
  destruct (ok && negb (QString.isEmpty nm)); [|reflexivity].
  rewrite bind_run. cbn [modify fst snd].
  rewrite bind_run, temporaryFile_run. cbn [fst snd].
  rewrite bind_run. cbn [get fst snd].
  rewrite bind_run. unfold addFiles. rewrite bind_run, run_run.
  cbn [ret modify fst snd status set_status archiveModel journal backend world
       set_world record set_archiveModel].
  rewrite <- app_assoc. repeat split; reflexivity.
Qed.

End AddFolderOutcome.

Lemma addFolder_outcome_witness :
  status (snd (@addFolderAction unit (toyHost types_docs) [] toyTreeWindow))
  = "Added folder (placeholder created)"
  /\ archiveModel (snd (@addFolderAction unit (toyHost types_docs) [] toyTreeWindow))
     = update_at [] (attach_folder "docs") (archiveModel toyTreeWindow)
  /\ journal (snd (@addFolderAction unit (toyHost types_docs) [] toyTreeWindow))
     = [EvGetText "New Folder" "Folder Name:";
        EvProcess "zip" ["/home/u/A.vfsarc"; "/tmp/qt_temp.a1"]]
  /\ backend (snd (@addFolderAction unit (toyHost types_docs) [] toyTreeWindow))
     = mkCliArchiveHandler "/home/u/A.vfsarc" "".
Proof.
  apply (@addFolder_outcome unit (toyHost types_docs) [] "docs" true toyTreeWindow).
  reflexivity.
Defined.

(* ===================================================================== *)
(** * The password that an extraction with known passwords ends on *)
(* ===================================================================== *)

Section KnownPasswords.

Context {World : Type} `{Host World}.

Local Abbreviation M := (M World).
Local Abbreviation MainWindow := (MainWindow World).

Lemma extract_keeps_backend h entry (s : MainWindow) :
  backend (snd (extractEntryToTemp h entry s)) = backend s.
Proof. apply keeps_extractEntryToTemp, inner_backend. Qed.

Lemma extractGlobalPasswords_success entry pws :
  forall (s : MainWindow) tmp,
    fst (extractGlobalPasswords entry pws s) = Some tmp ->
    In (m_password (backend (snd (extractGlobalPasswords entry pws s)))) pws
    /\ m_archive (backend (snd (extractGlobalPasswords entry pws s)))
       = m_archive (backend s).
Proof.
  induction pws as [|pw rest IH]; intros s tmp; cbn [extractGlobalPasswords].
  - discriminate.
  - rewrite bind_run. cbn [setPassword modify fst snd].
    rewrite bind_run. cbn [get fst snd]. rewrite bind_run.
    match goal with
    | |- context [extractEntryToTemp ?h entry ?st] =>
        pose proof (extract_keeps_backend h entry st) as Hb;
        destruct (extractEntryToTemp h entry st) as [[t|] s1]
    end; cbn [fst snd backend set_backend] in *.
    + intros _. unfold ret. cbn [snd]. rewrite Hb.
      split; [left; reflexivity | reflexivity].
    + intros Hsome. destruct (IH s1 tmp Hsome) as [Hin Harch].
      split; [right; exact Hin | rewrite Harch, Hb; reflexivity].
Qed.

(** When [tryPasswordsForEntryAndExtract] succeeds, the password that
    the backend carries afterwards is the one of the cache for the
    archive of the backend or one of the pool, and the backend is still
    on the same archive. *)
Theorem tryPasswords_success_is_known (entry tmp : string) (s : MainWindow) :
  fst (tryPasswordsForEntryAndExtract entry s) = Some tmp ->
  (passwordCache s !! m_archive (backend s)
   = Some (m_password (backend (snd (tryPasswordsForEntryAndExtract entry s))))
   \/ In (m_password (backend (snd (tryPasswordsForEntryAndExtract entry s))))
         (globalPasswords s))
  /\ m_archive (backend (snd (tryPasswordsForEntryAndExtract entry s)))
     = m_archive (backend s).
Proof.
  unfold tryPasswordsForEntryAndExtract.
  rewrite bind_run. cbn [get fst snd]. rewrite bind_run. cbn [get fst snd].
  rewrite bind_run.
  destruct (passwordCache s !! m_archive (backend s)) as [pw|] eqn:Ec.
  - rewrite bind_run. cbn [setPassword modify fst snd].
    rewrite bind_run. cbn [get fst snd].
    match goal with
    | |- context [extractEntryToTemp ?h entry ?st] =>
        pose proof (extract_keeps_backend h entry st) as Hb;
        pose proof (keeps_extractEntryToTemp (@globalPasswords World) h entry
                      inner_globalPasswords st) as Hp;
        destruct (extractEntryToTemp h entry st) as [[t|] s1]
    end; cbn [fst snd backend set_backend globalPasswords] in *.
    + intros _. unfold ret. cbn [snd]. rewrite Hb.
      split; [left; reflexivity | reflexivity].
    + rewrite bind_run. cbn [get fst snd]. intros Hsome.
      destruct (extractGlobalPasswords_success entry (globalPasswords s1) s1 tmp Hsome)
        as [Hin Harch].
      split; [right; rewrite <- Hp; exact Hin | rewrite Harch, Hb; reflexivity].
  - cbn [ret fst snd]. rewrite bind_run. cbn [get fst snd]. intros Hsome.
    destruct (extractGlobalPasswords_success entry (globalPasswords s) s tmp Hsome)
      as [Hin Harch].
    split; [right; exact Hin | exact Harch].
Qed.

End KnownPasswords.

Lemma tryPasswords_success_is_known_witness :
  (∅ : gmap string string) !! "/home/u/A.vfsarc"
  = Some (m_password
            (backend (snd (@tryPasswordsForEntryAndExtract unit (toyHost only_y)
                             "folder/inner.vfsarc" (toyWindow ∅ ["x"; "y"])))))
  \/ In (m_password
           (backend (snd (@tryPasswordsForEntryAndExtract unit (toyHost only_y)
                            "folder/inner.vfsarc" (toyWindow ∅ ["x"; "y"])))))
        ["x"; "y"].
Proof.
  exact (proj1 (@tryPasswords_success_is_known unit (toyHost only_y)
                  "folder/inner.vfsarc" "/tmp/qt_arch_tmp_{7f}/folder/inner.vfsarc"
                  (toyWindow ∅ ["x"; "y"]) eq_refl)).
Defined.

(* ===================================================================== *)
(** * The manifest text *)
(* ===================================================================== *)

(** The manifest text for fields without place markers, and for a
    version that reads [%2]: the second [arg] fills it with the creation
    time. *)
Lemma metadataText_rescans :
  metadataText "Version" (mkArchiveMetadata "1.0" "2024-05-01T10:00:00" ["a"; "b"])
  = "Version: 1.0" ++ newline ++ "Created: 2024-05-01T10:00:00" ++ newline
    ++ "Tags: a, b"
  /\ metadataText "Version" (mkArchiveMetadata "%2" "2024" ["new"])
     = "Version: 2024" ++ newline ++ "Created: 2024" ++ newline ++ "Tags: new".
Proof. split; vm_compute; reflexivity. Qed.
